(** * Decomposition of nested JSON columns into relational tables

    A shallow embedding of [generate_relational_tables_from_nested_JSON.py]:
    the handler [snowpark_main_handler] and its three closures
    [flatten_array], [expand_object_subfields] and
    [model_nested_JSON_objects].

    Layout of the development:
    - [Value], [Row], [DataFrame]: the data the program manipulates;
    - [Py]: the Python string and dict operations the source relies on;
    - [Engine]: the DataFrame operations of the query engine that the source
      calls ([select], [distinct], [limit], [with_columns], [drop],
      [with_column_renamed], [join_table_function] with FLATTEN, [typeof]);
    - the state and exception monad [M] (the closure variable
      [processed_fields], the module namespace [globals()], the logger);
    - the source functions, in the order of the source file;
    - the theorems.

    Modelling conventions.
    - A column identifier is compared as written (no case folding).
    - SQL NULL and the JSON null are one value, [VNull]; numbers are integers.
    - A DataFrame is evaluated eagerly; rows keep their list order, [distinct]
      keeps one representative per class, [limit n] keeps the first [n] rows.
    - The iteration order of a Python [set] of strings is not fixed by the
      language: it is the section variable [set_iter], constrained only where
      a proof needs it.
    - [sha2(cast(col as string), 256)] is the section variable [content_hash].
    - The decorator [Logger.log] is taken to be transparent: it returns what
      the wrapped function returns and lets exceptions through.
    - [globals()] is represented by its entries that hold DataFrames; the other
      module-level names of the source file contain no [INTERNAL_RESULT]. *)

From Stdlib Require Import List String Ascii ZArith Bool Lia Permutation.
From Stdlib Require Import ListSet.
Import ListNotations.
Open Scope string_scope.
Open Scope Z_scope.
Open Scope list_scope.

Set Implicit Arguments.

(** ** Values, rows and tables *)

#[warnings="-register-all"]
Inductive Value : Type :=
| VNull : Value
| VBool : bool -> Value
| VNum : Z -> Value
| VStr : string -> Value
| VArr : list Value -> Value
| VObj : list (string * Value) -> Value.

Fixpoint Value_eq_dec (v w : Value) {struct v} : {v = w} + {v <> w}.
Proof.
  destruct v as [ | b | n | s | l | l ], w as [ | b' | n' | s' | l' | l' ];
    try (right; discriminate).
  - left; reflexivity.
  - destruct (bool_dec b b') as [e | e];
      [left; f_equal; exact e | right; intro H; apply e; congruence].
  - destruct (Z.eq_dec n n') as [e | e];
      [left; f_equal; exact e | right; intro H; apply e; congruence].
  - destruct (string_dec s s') as [e | e];
      [left; f_equal; exact e | right; intro H; apply e; congruence].
  - assert (D : {l = l'} + {l <> l'}).
    { revert l'. induction l as [ | x l IH]; intros [ | y l'].
      + left; reflexivity.
      + right; discriminate.
      + right; discriminate.
      + destruct (Value_eq_dec x y) as [e | e].
        * destruct (IH l') as [e' | e'].
          -- left; congruence.
          -- right; congruence.
        * right; congruence. }
    destruct D as [e | e];
      [left; f_equal; exact e | right; intro H; apply e; congruence].
  - assert (D : {l = l'} + {l <> l'}).
    { revert l'. induction l as [ | [k x] l IH]; intros [ | [k' y] l'].
      + left; reflexivity.
      + right; discriminate.
      + right; discriminate.
      + destruct (string_dec k k') as [ek | ek].
        * destruct (Value_eq_dec x y) as [e | e].
          -- destruct (IH l') as [e' | e'].
             ++ left; congruence.
             ++ right; congruence.
          -- right; congruence.
        * right; congruence. }
    destruct D as [e | e];
      [left; f_equal; exact e | right; intro H; apply e; congruence].
Defined.

(** A row maps column names to values; a table has an ordered column list. *)
Definition Row : Type := list (string * Value).

Definition Row_eq_dec : forall r s : Row, {r = s} + {r <> s} :=
  list_eq_dec (fun p q : string * Value =>
    match string_dec (fst p) (fst q), Value_eq_dec (snd p) (snd q) with
    | left e1, left e2 =>
        left (eq_trans (surjective_pairing p)
               (eq_trans (f_equal2 pair e1 e2) (eq_sym (surjective_pairing q))))
    | right n, _ => right (fun H => n (f_equal fst H))
    | _, right n => right (fun H => n (f_equal snd H))
    end).

Record DataFrame : Type := mkDataFrame {
  columns : list string;
  rows : list Row
}.

Definition count (df : DataFrame) : Z := Z.of_nat (List.length (rows df)).

(** ** Python strings, sets and dicts *)

Module Py.

(** [sub in s] on strings. *)
Fixpoint contains (sub s : string) : bool :=
  String.prefix sub s ||
  match s with
  | EmptyString => false
  | String _ s' => contains sub s'
  end.

(** [s.replace(old, new)] for a non-empty [old]: the occurrences are found
    from left to right and do not overlap; [skip] counts the characters of
    the current occurrence still to be passed over. *)
Fixpoint replace_from (old new : string) (skip : nat) (s : string) : string :=
  match s with
  | EmptyString => EmptyString
  | String c s' =>
      match skip with
      | S k => replace_from old new k s'
      | O =>
          if String.prefix old s
          then (new ++ replace_from old new (String.length old - 1) s')%string
          else String c (replace_from old new 0 s')
      end
  end.

Definition replace (old new s : string) : string := replace_from old new 0 s.

(** A dict is an association list in insertion order; assigning to a key
    that is present keeps its position. *)
Definition dict (A : Type) : Type := list (string * A).

Fixpoint dict_set {A} (k : string) (v : A) (d : dict A) : dict A :=
  match d with
  | [] => [(k, v)]
  | (k', v') :: d' =>
      if String.eqb k k' then (k, v) :: d' else (k', v') :: dict_set k v d'
  end.

Fixpoint dict_get {A} (k : string) (d : dict A) : option A :=
  match d with
  | [] => None
  | (k', v') :: d' => if String.eqb k k' then Some v' else dict_get k d'
  end.

Definition keys {A} (d : dict A) : list string := map fst d.

(** The processed-field set: only [add] and [in] are used on it. *)
Definition pyset : Type := set string.
Definition set_in (x : string) (s : pyset) : bool := set_mem string_dec x s.
Definition set_add' (x : string) (s : pyset) : pyset := set_add string_dec x s.

End Py.

(** ** The query engine *)

Module Engine.

(** The value of column [c] in a row ([F.col(c)]). *)
Fixpoint row_get (r : Row) (c : string) : Value :=
  match r with
  | [] => VNull
  | (c', v) :: r' => if String.eqb c c' then v else row_get r' c
  end.

Definition mem (c : string) (cs : list string) : bool :=
  existsb (String.eqb c) cs.

(** [df.select(c1, ..., cn)] on column names. *)
Definition select (cs : list string) (df : DataFrame) : DataFrame :=
  {| columns := cs;
     rows := map (fun r => map (fun c => (c, row_get r c)) cs) (rows df) |}.

(** [df.select(e1.alias(n1), ..., ek.alias(nk))] on expressions. *)
Definition select_exprs (es : list (string * (Row -> Value)))
    (df : DataFrame) : DataFrame :=
  {| columns := map fst es;
     rows := map (fun r => map (fun ne => (fst ne, snd ne r)) es) (rows df) |}.

(** [df.distinct()]. *)
Definition distinct (df : DataFrame) : DataFrame :=
  {| columns := columns df; rows := nodup Row_eq_dec (rows df) |}.

(** [df.limit(n)]. *)
Definition limit (n : nat) (df : DataFrame) : DataFrame :=
  {| columns := columns df; rows := firstn n (rows df) |}.

(** [df.with_columns(names, exprs)]: a column that bears one of the names is
    removed, the others keep their place, and the new columns are appended.
    An expression is evaluated on the row as it was before the call. (The
    engine refuses a list of names with a repetition; the source passes the
    names of distinct keys.) *)
Definition with_columns (new : list (string * (Row -> Value)))
    (df : DataFrame) : DataFrame :=
  let names := map fst new in
  {| columns := filter (fun c => negb (mem c names)) (columns df) ++ names;
     rows := map (fun r =>
               filter (fun cv => negb (mem (fst cv) names)) r
               ++ map (fun ne => (fst ne, snd ne r)) new) (rows df) |}.

Definition with_column (name : string) (e : Row -> Value) (df : DataFrame)
  : DataFrame := with_columns [(name, e)] df.

(** The exceptions of the run. *)
Inductive exn : Type :=
| TypeError (msg : string)
| ValueError (msg : string)
| SnowparkClientException (msg : string)
| SnowparkSQLException (msg : string).

(** [df.drop(names)]: every column with one of the names goes; dropping
    all the columns of a DataFrame is refused. *)
Definition drop (names : list string) (df : DataFrame) : exn + DataFrame :=
  let keep := filter (fun c => negb (mem c names)) (columns df) in
  match keep with
  | [] => inl (SnowparkClientException "Cannot drop all columns")
  | _ =>
      inr {| columns := keep;
             rows := map (filter (fun cv => negb (mem (fst cv) names)))
                       (rows df) |}
  end.

(** [df.with_column_renamed(old, new)]: [old] has to be a column. *)
Definition with_column_renamed (old new : string) (df : DataFrame)
  : exn + DataFrame :=
  if mem old (columns df) then
    let rn := fun c => if String.eqb c old then new else c in
    inr {| columns := map rn (columns df);
           rows := map (map (fun cv => (rn (fst cv), snd cv))) (rows df) |}
  else inl (ValueError "Unable to rename column because it does not exist").

(** [typeof] of a variant. *)
Definition typeof (v : Value) : Value :=
  match v with
  | VNull => VNull
  | VBool _ => VStr "BOOLEAN"
  | VNum _ => VStr "INTEGER"
  | VStr _ => VStr "VARCHAR"
  | VArr _ => VStr "ARRAY"
  | VObj _ => VStr "OBJECT"
  end.

Inductive flatten_mode : Type := ARRAY | OBJECT.

Definition FLATTEN_COLS : list string :=
  ["SEQ"; "KEY"; "PATH"; "INDEX"; "VALUE"; "THIS"].

Definition flatten_row (seq : Z) (key path index value this : Value) : Row :=
  [("SEQ", VNum seq); ("KEY", key); ("PATH", path); ("INDEX", index);
   ("VALUE", value); ("THIS", this)].

Fixpoint flatten_elements (seq : Z) (this : Value) (i : Z) (l : list Value)
  : list Row :=
  match l with
  | [] => []
  | x :: l' =>
      flatten_row seq VNull (VNum i) (VNum i) x this
      :: flatten_elements seq this (i + 1) l'
  end.

Definition flatten_members (seq : Z) (this : Value)
    (l : list (string * Value)) : list Row :=
  map (fun kv => flatten_row seq (VStr (fst kv)) (VStr (fst kv)) VNull
                   (snd kv) this) l.

(** The rows of [FLATTEN(input => v, mode => m, outer => TRUE)]: one per
    element or member; an input that expands to nothing (empty, null, or
    not of the kind of the mode) gives one row of nulls. The PATH of an
    array element is represented by its index. *)
Definition flatten (seq : Z) (m : flatten_mode) (v : Value) : list Row :=
  match m, v with
  | ARRAY, VArr (x :: l) => flatten_elements seq v 0 (x :: l)
  | OBJECT, VObj (kv :: l) => flatten_members seq v (kv :: l)
  | _, _ => [flatten_row seq VNull VNull VNull VNull VNull]
  end.

Fixpoint join_rows (input : string) (m : flatten_mode) (seq : Z)
    (rs : list Row) : list Row :=
  match rs with
  | [] => []
  | r :: rs' =>
      map (fun o => r ++ o) (flatten seq m (row_get r input))
      ++ join_rows input m (seq + 1) rs'
  end.

(** [df.join_table_function('flatten', input=col, mode=m, outer=True)]. *)
Definition join_table_function (input : string) (m : flatten_mode)
    (df : DataFrame) : DataFrame :=
  {| columns := columns df ++ FLATTEN_COLS;
     rows := join_rows input m 1 (rows df) |}.

(** [df.filter(col(c).isNotNull())]. *)
Definition filter_not_null (c : string) (df : DataFrame) : DataFrame :=
  {| columns := columns df;
     rows := filter (fun r => match row_get r c with
                              | VNull => false
                              | _ => true
                              end) (rows df) |}.

(** [df.filter(col(c).isin(lit(a), lit(b)))] on strings. *)
Definition filter_isin (c : string) (lits : list string) (df : DataFrame)
  : DataFrame :=
  {| columns := columns df;
     rows := filter (fun r => match row_get r c with
                              | VStr s => mem s lits
                              | _ => false
                              end) (rows df) |}.

(** [col[key]] on a variant. *)
Definition subfield (v : Value) (key : string) : Value :=
  match v with
  | VObj l => row_get l key
  | _ => VNull
  end.

(** A session: the tables of the database, by address. *)
Definition Session : Type := Py.dict DataFrame.

Definition table (s : Session) (name : string) : option DataFrame :=
  Py.dict_get name s.

(** [df.write.save_as_table(name, mode='overwrite')]. *)
Definition save_as_table (name : string) (df : DataFrame) (s : Session)
  : Session := Py.dict_set name df s.

End Engine.

Import Py Engine.

(** ** State, exceptions and logging *)

Inductive Level : Type := DEBUG | INFO | WARNING.

Inductive LogArg : Type :=
| AStr (s : string)
| AInt (n : Z)
| AVal (v : Value)
| AStrs (l : list string).

Record LogRecord : Type := mkLog {
  level : Level;
  fmt : string;
  args : list LogArg
}.

(** What the closures share: the set [processed_fields] of the handler, the
    module namespace and the logger output. *)
Record State : Type := mkState {
  processed_fields : pyset;
  globals : dict DataFrame;
  log : list LogRecord
}.

Inductive result (A : Type) : Type :=
| Ok (a : A)
| Raise (e : exn)
| OutOfFuel.
Arguments Ok {A} a.
Arguments Raise {A} e.
Arguments OutOfFuel {A}.

Definition M (A : Type) : Type := State -> result A * State.

Definition ret {A} (a : A) : M A := fun st => (Ok a, st).

Definition bind {A B} (m : M A) (k : A -> M B) : M B :=
  fun st =>
    match m st with
    | (Ok a, st') => k a st'
    | (Raise e, st') => (Raise e, st')
    | (OutOfFuel, st') => (OutOfFuel, st')
    end.

Notation "x <- c1 ;; c2" := (bind c1 (fun x => c2))
  (at level 61, c1 at next level, right associativity).
Notation "c1 ;; c2" := (bind c1 (fun _ => c2))
  (at level 61, right associativity).

Definition raise {A} (e : exn) : M A := fun st => (Raise e, st).

Definition lift {A} (r : exn + A) : M A :=
  match r with
  | inl e => raise e
  | inr a => ret a
  end.

Definition logger (lv : Level) (f : string) (a : list LogArg) : M unit :=
  fun st => (Ok tt, {| processed_fields := processed_fields st;
                       globals := globals st;
                       log := log st ++ [mkLog lv f a] |}).

Definition processed_fields_add (x : string) : M unit :=
  fun st => (Ok tt, {| processed_fields := set_add' x (processed_fields st);
                       globals := globals st;
                       log := log st |}).

Definition globals_set (k : string) (df : DataFrame) : M unit :=
  fun st => (Ok tt, {| processed_fields := processed_fields st;
                       globals := dict_set k df (globals st);
                       log := log st |}).

Definition get_processed_fields : M pyset :=
  fun st => (Ok (processed_fields st), st).

(** [for x in xs: acc = body(x, acc)]. *)
Fixpoint for_each {A B} (xs : list A) (body : A -> B -> M B) (acc : B) : M B :=
  match xs with
  | [] => ret acc
  | x :: xs' => acc' <- body x acc ;; for_each xs' body acc'
  end.

(** The double quote character, the newline followed by a tab, and [str(v)]
    of a value read from a row. *)
Definition dq : string := String (ascii_of_nat 34) EmptyString.

Definition nl_tab : string :=
  String (ascii_of_nat 10) (String (ascii_of_nat 9) EmptyString).

Definition call_start_format : string :=
  ("Func (%s) recursive call starts with %s-row Dataframe. " ++ nl_tab
   ++ "Global processed_fields = %s")%string.

Definition str_of (v : Value) : string :=
  match v with
  | VStr s => s
  | _ => "None"
  end.

(** ** The source functions *)

Section Handler.

(** Iteration order of [set(l)]. *)
Variable set_iter : list string -> list string.
(** [sha2(cast(v as string), 256)]. *)
Variable content_hash : Value -> Value.
(** Arguments of the handler that its closures read. *)
Variables output_table_prefix output_table_suffix : string.

Definition DROPPED_COLS : list string := ["SEQ"; "KEY"; "PATH"; "INDEX"; "THIS"].

Definition flatten_array (df : DataFrame) (array_field : string)
  : M DataFrame :=
  logger DEBUG ("Flattening array " ++ dq ++ "%s" ++ dq ++ ".............")%string
    [AStr array_field] ;;
  let hash_field := (array_field ++ "_SHA256")%string in
  let unique_arr_instances := distinct (select [hash_field; array_field] df) in
  joined <- ret (join_table_function array_field ARRAY unique_arr_instances) ;;
  dropped <- lift (drop (DROPPED_COLS ++ [array_field]) joined) ;;
  flatten_result <- lift (with_column_renamed "VALUE" array_field dropped) ;;
  logger DEBUG (dq ++ "%s" ++ dq ++ " after flatten generated a new df of %d rows")%string
    [AStr array_field; AInt (count flatten_result)] ;;
  ret flatten_result.

(** The subfield keys of an object column, as the source collects them. *)
Definition object_keys (df : DataFrame) (obj_field : string) : list string :=
  let keys :=
    distinct
      (filter_not_null "KEY"
         (select ["KEY"]
            (join_table_function obj_field OBJECT
               (distinct (select [obj_field] df))))) in
  map (fun key => str_of (row_get key "KEY")) (rows keys).

Definition expand_object_subfields (df : DataFrame) (obj_field : string)
  : M DataFrame :=
  let keys := object_keys df obj_field in
  logger DEBUG "%s obj has %d subfields: %s"
    [AStr obj_field; AInt (Z.of_nat (List.length keys)); AStrs keys] ;;
  let pairs :=
    map (fun key => ((obj_field ++ "__" ++ key)%string,
                     fun r : Row => subfield (row_get r obj_field) key)) keys in
  (* [names, values = zip( *pairs )] unpacks two tuples *)
  match pairs with
  | [] => raise (ValueError "not enough values to unpack (expected 2, got 0)")
  | _ :: _ =>
      let df := with_columns pairs df in
      logger DEBUG "Expanded all subfields and drop the parent obj field." [] ;;
      ret df
  end.

Definition detect_dtype_from_first : nat := 50.

(** The list comprehension of the source, before [set] is applied. *)
Definition unprocessed_columns (df : DataFrame) (processed : pyset)
  : list string :=
  filter (fun col =>
            forallb (fun x => negb (contains x col)) ["SHA256"; "INGESTION_CTRL"]
            && negb (set_in col processed))
         (columns df).

Definition cur_unprocessed_fields (df : DataFrame) (processed : pyset)
  : list string := set_iter (unprocessed_columns df processed).

(** The rows collected by the type detection of one field. *)
Definition to_unpack_dtypes (df : DataFrame) (cur_field : string) : list Row :=
  let target := distinct (select [cur_field] df) in
  rows (filter_isin "TYPEOF" ["ARRAY"; "OBJECT"]
          (distinct
             (select_exprs [("TYPEOF", fun r => typeof (row_get r cur_field))]
                (limit detect_dtype_from_first target)))).

Definition ambiguous_message : string :=
  (dq ++ "%s" ++ dq
   ++ " does not have a unique dtype of either ARRAY or OBJECT.")%string.

(** One turn of the loop over the unprocessed fields; the loop carries the
    local variables [df] and [new_dfs]. *)
Definition loop_body (cur_field : string)
    (acc : DataFrame * dict DataFrame) : M (DataFrame * dict DataFrame) :=
  let '(df, new_dfs) := acc in
  logger DEBUG "Current field: %s" [AStr cur_field] ;;
  let to_unpack_cur_field_dtypes := to_unpack_dtypes df cur_field in
  let distinct_to_unpack_type_count :=
    Z.of_nat (List.length to_unpack_cur_field_dtypes) in
  if distinct_to_unpack_type_count >? 1 then
    raise (TypeError ambiguous_message)
  else if distinct_to_unpack_type_count =? 1 then
    let dtype := str_of (row_get (hd [] to_unpack_cur_field_dtypes) "TYPEOF") in
    logger DEBUG "%s is an %s" [AStr cur_field; AStr dtype] ;;
    acc' <-
      (if String.eqb dtype "ARRAY" then
         let hash_field := (cur_field ++ "_SHA256")%string in
         let df := with_column hash_field
                     (fun r => content_hash (row_get r cur_field)) df in
         new_df <- flatten_array df cur_field ;;
         ret (df, dict_set cur_field new_df new_dfs)
       else if String.eqb dtype "OBJECT" then
         df <- expand_object_subfields df cur_field ;;
         processed_fields_add cur_field ;;
         logger DEBUG (dq ++ "%s" ++ dq ++ " reach ends of path. "
                       ++ dq ++ "%s" ++ dq ++ " > processed_fields")%string
           [AStr cur_field; AStr cur_field] ;;
         ret (df, new_dfs)
       else ret (df, new_dfs)) ;;
    df <- lift (drop [cur_field] (fst acc')) ;;
    ret (df, snd acc')
  else
    processed_fields_add cur_field ;;
    logger DEBUG (dq ++ "%s" ++ dq ++ " reach ends of path. "
                  ++ dq ++ "%s" ++ dq ++ " > processed_fields")%string
      [AStr cur_field; AStr cur_field] ;;
    ret (df, new_dfs).

Definition result_key (parent_path : string) : string :=
  ("INTERNAL_RESULT_" ++ output_table_prefix ++ parent_path
   ++ output_table_suffix)%string.

(** The recursive closure. [fuel] bounds the nesting of the calls; the
    source has no such bound of its own besides [max_recursive_calls]. *)
Fixpoint model_nested_JSON_objects (fuel : nat) (df : DataFrame)
    (parent_path : string) (counter : Z) (max_recursive_calls : Z)
  : M unit :=
  match fuel with
  | O => fun st => (OutOfFuel, st)
  | S fuel' =>
      let counter := counter + 1 in
      processed <- get_processed_fields ;;
      logger DEBUG call_start_format
        [AInt counter; AInt (count df); AStrs processed] ;;
      let cur_unprocessed_fields := cur_unprocessed_fields df processed in
      if (Z.of_nat (List.length cur_unprocessed_fields) =? 0)
         || (counter =? max_recursive_calls) then
        logger WARNING "Terminated at %s recursive calls" [AInt counter] ;;
        ret tt
      else
        acc <- for_each cur_unprocessed_fields loop_body (df, []) ;;
        let '(df, new_dfs) := acc in
        globals_set (result_key parent_path) df ;;
        model_nested_JSON_objects fuel' df parent_path counter
          max_recursive_calls ;;
        for_each new_dfs
          (fun item (_ : unit) =>
             logger DEBUG "Process new df %s" [AStr (fst item)] ;;
             model_nested_JSON_objects fuel' (snd item) (fst item) counter
               max_recursive_calls)
          tt
  end.

(** [{k.replace('INTERNAL_RESULT_', ''): v for k, v in globals().items()
      if 'INTERNAL_RESULT' in k}]. *)
Definition collect_results (g : dict DataFrame) : dict DataFrame :=
  fold_left
    (fun acc kv =>
       if contains "INTERNAL_RESULT" (fst kv)
       then dict_set (replace "INTERNAL_RESULT_" "" (fst kv)) (snd kv) acc
       else acc)
    g [].

(** The loop that shows and writes the results. *)
Definition persist (output_schema : string) (results : dict DataFrame)
    (acc : list LogRecord * Session) : list LogRecord * Session :=
  fold_left
    (fun a item =>
       (fst a ++ [mkLog INFO "Results: %s" [AStr (fst item)]],
        save_as_table (output_schema ++ "." ++ fst item)%string (snd item)
          (snd a)))
    results acc.

Definition init_state (g0 : dict DataFrame) : State :=
  {| processed_fields := empty_set string; globals := g0; log := [] |}.

(** The handler. [g0] is the module namespace when the handler is entered;
    the outcome comes with the final state and the session. *)
Definition snowpark_main_handler (fuel : nat) (session : Session)
    (input_relation output_schema : string) (max_recursive_calls : Z)
    (g0 : dict DataFrame)
  : result (dict DataFrame) * State * Session :=
  match table session input_relation with
  | None =>
      (Raise (SnowparkSQLException "Object does not exist"),
       init_state g0, session)
  | Some df =>
      match model_nested_JSON_objects fuel df "ENTRY" 0 max_recursive_calls
              (init_state g0) with
      | (Ok _, st) =>
          let results := collect_results (globals st) in
          let '(lg, session') := persist output_schema results
                                   (log st, session) in
          (Ok results,
           {| processed_fields := processed_fields st;
              globals := globals st;
              log := lg |},
           session')
      | (Raise e, st) => (Raise e, st, session)
      | (OutOfFuel, st) => (OutOfFuel, st, session)
      end
  end.

End Handler.

(** ** Definitions used by the statements *)

(** The elements of an array under outer semantics. *)
Definition explode_outer (v : Value) : list Value :=
  match v with
  | VArr (x :: l) => x :: l
  | _ => [VNull]
  end.

(** The rows of the child table of [f]: one (hash, element) pair per element
    of each (hash, array) pair. *)
Definition child_rows (f : string) (pairs : list Row) : list Row :=
  flat_map (fun r => map (fun e => [((f ++ "_SHA256")%string,
                                     row_get r (f ++ "_SHA256")%string);
                                    (f, e)])
                       (explode_outer (row_get r f))) pairs.

Definition logged (st : State) (l : list LogRecord) : State :=
  {| processed_fields := processed_fields st;
     globals := globals st;
     log := log st ++ l |}.

(** The renaming of the exploded element to the field [f]. *)
Definition renamed (f : string) : string -> string :=
  fun c => if String.eqb c "VALUE" then f else c.

(** What [with_columns] does to one row. *)
Definition with_row (new : list (string * (Row -> Value))) (r : Row) : Row :=
  filter (fun cv => negb (mem (fst cv) (map fst new))) r
  ++ map (fun ne => (fst ne, snd ne r)) new.

(** The columns that object expansion adds for the keys of [f]. *)
Definition subfield_columns (f : string) (keys : list string)
  : list (string * (Row -> Value)) :=
  map (fun key => ((f ++ "__" ++ key)%string,
                   fun r : Row => subfield (row_get r f) key)) keys.

(** The table the decomposer hands to the flattener, and its rows. *)
Definition with_hash (content_hash : Value -> Value) (f : string)
    (df : DataFrame) : DataFrame :=
  with_column (f ++ "_SHA256")%string (fun r => content_hash (row_get r f)) df.

Definition hash_row (content_hash : Value -> Value) (f : string) (r : Row) : Row :=
  with_row [((f ++ "_SHA256")%string, fun r => content_hash (row_get r f))] r.

(** ** Sample inputs *)

Definition sample_hash (v : Value) : Value :=
  match v with
  | VNull => VNull
  | VArr l => VStr ("sha256-of-array-of-" ++ (if (List.length l =? 0)%nat then "none" else "some"))%string
  | _ => VStr "sha256-of-scalar"
  end.

Definition c4_table : DataFrame :=
  {| columns := ["ID"; "ITEMS"];
     rows := [[("ID", VNum 1); ("ITEMS", VArr [VStr "a"; VStr "b"])];
              [("ID", VNum 2); ("ITEMS", VArr [VStr "a"; VStr "b"])];
              [("ID", VNum 3); ("ITEMS", VArr [VStr "a"; VStr "b"])]] |}.

(** The table of the counterexample to C4 as it is stated: two rows with the
    same empty array. *)
Definition c4_empty_table : DataFrame :=
  {| columns := ["ID"; "ITEMS"];
     rows := [[("ID", VNum 1); ("ITEMS", VArr [])];
              [("ID", VNum 2); ("ITEMS", VArr [])]] |}.

(** The table of the counterexample to C5 as it is stated: the object field
    [F] next to a column that is already called [F__a]. *)
Definition c5_table : DataFrame :=
  {| columns := ["F"; "F__a"];
     rows := [[("F", VObj [("a", VNum 1); ("b", VNum 2)]); ("F__a", VStr "kept")]] |}.

Definition c5_plain_table : DataFrame :=
  {| columns := ["ID"; "F"];
     rows := [[("ID", VNum 1); ("F", VObj [("a", VNum 1); ("b", VNum 2)])];
              [("ID", VNum 2); ("F", VObj [("a", VNum 3)])]] |}.

(** ** Reasoning about runs *)

(** Every run of [m] relates the state before to the state after, whatever
    the outcome. *)
Definition preserves (R : State -> State -> Prop) {A} (m : M A) : Prop :=
  forall st r st', m st = (r, st') -> R st st'.

(** [m] never gives up for lack of fuel. *)
Definition no_oof {A} (m : M A) : Prop :=
  forall st, fst (m st) <> OutOfFuel.

(** The processed-field set only grows. *)
Definition grows (st st' : State) : Prop :=
  forall f, set_in f (processed_fields st) = true ->
            set_in f (processed_fields st') = true.

(** The keys that a run adds to the namespace are result keys. *)
Definition named (prefix suffix : string) (st st' : State) : Prop :=
  forall k, In k (keys (globals st')) ->
            In k (keys (globals st))
            \/ exists path, k = result_key prefix suffix path.

Definition current_field_record (f : string) : LogRecord :=
  mkLog DEBUG "Current field: %s" [AStr f].

(** The formats of the records that announce the type detection, the
    explosion and the expansion of a field, in that order. *)
Definition field_formats : list string :=
  ["Current field: %s";
   ("Flattening array " ++ dq ++ "%s" ++ dq ++ ".............")%string;
   "%s obj has %d subfields: %s"].

(** The record says that field [f] is classified, exploded or expanded. *)
Definition touches (f : string) (rec : LogRecord) : bool :=
  mem (fmt rec) field_formats
  && match args rec with
     | AStr x :: _ => String.eqb x f
     | _ => false
     end.

(** From a state in which [f] is processed: [f] stays processed and no
    record of the run says that [f] is classified, exploded or expanded. *)
Definition skips (f : string) (st st' : State) : Prop :=
  set_in f (processed_fields st) = true ->
  set_in f (processed_fields st') = true
  /\ exists l, log st' = log st ++ l
               /\ forall rec, In rec l -> touches f rec = false.

Definition start_record (counter : Z) (df : DataFrame) (processed : pyset)
  : LogRecord :=
  mkLog DEBUG call_start_format
    [AInt counter; AInt (count df); AStrs processed].

Definition terminated_record (counter : Z) : LogRecord :=
  mkLog WARNING "Terminated at %s recursive calls" [AInt counter].

(** An iteration order for sets: first occurrences dropped, order kept. *)
Definition sample_set_iter (l : list string) : list string :=
  nodup string_dec l.

(** A child table whose column [Y__K] holds arrays, and a state in which the
    name [Y__K] has been marked processed by another table of the run. *)
Definition c3_child_table : DataFrame :=
  {| columns := ["Y_SHA256"; "Y__K"];
     rows := [[("Y_SHA256", VStr "h1"); ("Y__K", VArr [VNum 1; VNum 2])];
              [("Y_SHA256", VStr "h2"); ("Y__K", VObj [("z", VNum 3)])]] |}.

Definition c3_state : State :=
  {| processed_fields := ["Y__K"]; globals := []; log := [] |}.

(** A root table with a scalar column [Y__K] and an array [Y] of objects
    with the key [K]. *)
Definition c3_root_table : DataFrame :=
  {| columns := ["Y__K"; "Y"];
     rows := [[("Y__K", VNum 7);
               ("Y", VArr [VObj [("K", VArr [VNum 1; VNum 2])]])]] |}.

(** ** Definitions for the statements on whole runs *)

(** What is asked of the iteration order of a set: every element once. *)
Definition set_iteration (set_iter : list string -> list string) : Prop :=
  forall l, NoDup (set_iter l) /\ forall x, In x (set_iter l) <-> In x l.

(** A namespace without results of an earlier run. *)
Definition fresh_namespace (g : dict DataFrame) : Prop :=
  forall k, In k (keys g) -> contains "INTERNAL_RESULT" k = false.

Definition is_scalar (v : Value) : bool :=
  match v with
  | VArr _ | VObj _ => false
  | _ => true
  end.

(** All the values of column [c] are scalars (null included). *)
Definition scalar_column (df : DataFrame) (c : string) : Prop :=
  forall r, In r (rows df) -> is_scalar (row_get r c) = true.

(** The table has rows and all the values of column [c] are arrays. *)
Definition array_column (df : DataFrame) (c : string) : Prop :=
  rows df <> [] /\ forall r, In r (rows df) -> exists l, row_get r c = VArr l.

Definition end_of_path_record (f : string) : LogRecord :=
  mkLog DEBUG (dq ++ "%s" ++ dq ++ " reach ends of path. "
               ++ dq ++ "%s" ++ dq ++ " > processed_fields")%string
    [AStr f; AStr f].

(** The state after the turns of the loop for the scalar fields [xs]. *)
Definition after_scalars (xs : list string) (st : State) : State :=
  {| processed_fields := fold_left (fun s x => set_add' x s) xs (processed_fields st);
     globals := globals st;
     log := log st ++ flat_map (fun x => [current_field_record x;
                                          end_of_path_record x]) xs |}.

Definition results_records (results : dict DataFrame) : list LogRecord :=
  map (fun item => mkLog INFO "Results: %s" [AStr (fst item)]) results.

Definition save_all (output_schema : string) (results : dict DataFrame)
    (s : Session) : Session :=
  fold_left (fun s item =>
               save_as_table (output_schema ++ "." ++ fst item)%string
                 (snd item) s) results s.

(** A root table whose only column is an array, and the table [ENTRY] that
    a run on it returns: fully decomposed, its only column is the hash. *)
Definition c7_root_table : DataFrame :=
  {| columns := ["ITEMS"];
     rows := [[("ITEMS", VArr [VNum 1; VNum 2])]] |}.

Definition c7_hash_only_table : DataFrame :=
  {| columns := ["ITEMS_SHA256"];
     rows := [[("ITEMS_SHA256", VStr "sha256-of-array-of-some")]] |}.

Definition c7_flat_table : DataFrame :=
  {| columns := ["ID"; "NAME"; "INGESTION_CTRL_TS"];
     rows := [[("ID", VNum 1); ("NAME", VStr "a"); ("INGESTION_CTRL_TS", VNum 17)];
              [("ID", VNum 2); ("NAME", VNull); ("INGESTION_CTRL_TS", VNum 18)]] |}.

(** A root table with nested fields, for the runs at depth cap 1. *)
Definition c1_nested_table : DataFrame :=
  {| columns := ["ID"; "ITEMS"; "META"];
     rows := [[("ID", VNum 1); ("ITEMS", VArr [VNum 10; VNum 20]);
               ("META", VObj [("k", VStr "v")])]] |}.

(** What a call of the recursive function does after its loop. *)
Definition after_loop (set_iter : list string -> list string)
    (content_hash : Value -> Value) (prefix suffix : string) (fuel : nat)
    (path : string) (counter max : Z) (acc : DataFrame * dict DataFrame)
  : M unit :=
  globals_set (result_key prefix suffix path) (fst acc) ;;
  model_nested_JSON_objects set_iter content_hash prefix suffix fuel (fst acc)
    path counter max ;;
  for_each (snd acc)
    (fun item (_ : unit) =>
       logger DEBUG "Process new df %s" [AStr (fst item)] ;;
       model_nested_JSON_objects set_iter content_hash prefix suffix fuel
         (snd item) (fst item) counter max)
    tt.

(** The table of the failing input of C2: the field [DATA] holds an array
    in one row and an object in another. *)
Definition c2_ambiguous_table : DataFrame :=
  {| columns := ["ID"; "DATA"];
     rows := [[("ID", VNum 1); ("DATA", VArr [VNum 1])];
              [("ID", VNum 2); ("DATA", VObj [("k", VNum 2)])]] |}.

(** A table whose object field holds only empty objects. *)
Definition c10_empty_objects_table : DataFrame :=
  {| columns := ["ID"; "META"];
     rows := [[("ID", VNum 1); ("META", VObj [])];
              [("ID", VNum 2); ("META", VObj [])]] |}.

Definition unpack_error : exn :=
  ValueError "not enough values to unpack (expected 2, got 0)".

Definition is_a_record (f dtype : string) : LogRecord :=
  mkLog DEBUG "%s is an %s" [AStr f; AStr dtype].

(** The root table after the turn of its array field [f]: the hash column is
    added and the array column is dropped. *)
Definition reduced_root (content_hash : Value -> Value) (f : string)
    (df : DataFrame) : DataFrame :=
  {| columns := filter (fun c => negb (mem c [f]))
                  (columns (with_hash content_hash f df));
     rows := map (filter (fun cv => negb (mem (fst cv) [f])))
               (rows (with_hash content_hash f df)) |}.

(** The child table of the array field [f]. *)
Definition child_table (content_hash : Value -> Value) (f : string)
    (df : DataFrame) : DataFrame :=
  {| columns := [(f ++ "_SHA256")%string; f];
     rows := child_rows f
               (rows (distinct (select [(f ++ "_SHA256")%string; f]
                                  (with_hash content_hash f df)))) |}.

(** The records of the turn of the loop for an array field. *)
Definition array_turn_records (content_hash : Value -> Value) (f : string)
    (df : DataFrame) : list LogRecord :=
  [current_field_record f;
   is_a_record f "ARRAY";
   mkLog DEBUG ("Flattening array " ++ dq ++ "%s" ++ dq ++ ".............")%string
     [AStr f];
   mkLog DEBUG (dq ++ "%s" ++ dq ++ " after flatten generated a new df of %d rows")%string
     [AStr f; AInt (count (child_table content_hash f df))]].

(** A root table with scalar columns and the array field [ITEMS]. *)
Definition c8_root_table : DataFrame :=
  {| columns := ["ID"; "ITEMS"; "NAME"];
     rows := [[("ID", VNum 1); ("ITEMS", VArr [VStr "a"; VStr "b"]); ("NAME", VStr "x")];
              [("ID", VNum 2); ("ITEMS", VArr []); ("NAME", VNull)]] |}.

(** ** Definitions for termination *)

(** The nesting depth of a value: scalars 0, a container one more than its
    deepest member. *)
Fixpoint depth (v : Value) : nat :=
  match v with
  | VArr l => S (fold_right (fun x m => Nat.max (depth x) m) 0%nat l)
  | VObj kvs => S (fold_right (fun kv m => Nat.max (depth (snd kv)) m) 0%nat kvs)
  | _ => 0%nat
  end.

Definition row_depth (r : Row) : nat :=
  fold_right (fun cv m => Nat.max (depth (snd cv)) m) 0%nat r.

Definition table_depth (df : DataFrame) : nat :=
  fold_right (fun r m => Nat.max (row_depth r) m) 0%nat (rows df).

Definition column_depth_le (df : DataFrame) (c : string) (n : nat) : Prop :=
  forall r, In r (rows df) -> (depth (row_get r c) <= n)%nat.

(** The unprocessed columns of the table nest at most [n] deep. *)
Definition bounded (df : DataFrame) (processed : pyset) (n : nat) : Prop :=
  forall c, In c (unprocessed_columns df processed) -> column_depth_le df c n.

(** The invariant of the loop of a call whose unprocessed columns nest at
    most [S n] deep: the fields still to visit are unprocessed columns, an
    unprocessed column that is not to visit any more nests at most [n] deep,
    and so do the columns of the child tables scheduled so far. *)
Definition loop_inv (n : nat) (rest : list string)
    (acc : DataFrame * dict DataFrame) (processed : pyset) : Prop :=
  bounded (fst acc) processed (S n)
  /\ (forall y, In y rest -> In y (unprocessed_columns (fst acc) processed))
  /\ (forall c, In c (unprocessed_columns (fst acc) processed) ->
                In c rest \/ column_depth_le (fst acc) c n)
  /\ (forall item, In item (snd acc) -> bounded (snd item) [] n).

(** The state after the turn of the loop for an object field with keys. *)
Definition after_object (x : string) (keys : list string) (st : State) : State :=
  {| processed_fields := set_add' x (processed_fields st);
     globals := globals st;
     log := log st
            ++ [current_field_record x;
                is_a_record x "OBJECT";
                mkLog DEBUG "%s obj has %d subfields: %s"
                  [AStr x; AInt (Z.of_nat (List.length keys)); AStrs keys];
                mkLog DEBUG "Expanded all subfields and drop the parent obj field." [];
                end_of_path_record x] |}.

(** ** Definitions for further properties of the source *)

(** A table with more distinct values than the type detection samples: fifty
    numbers, then an array. *)
Definition wide_sample_table : DataFrame :=
  {| columns := ["V"];
     rows := map (fun n => [("V", VNum (Z.of_nat n))]) (seq 0 50)
             ++ [[("V", VArr [VNum 1; VNum 2])]] |}.

(** [k] is a key of an object that column [f] holds in some row. *)
Definition key_of_column (df : DataFrame) (f k : string) : Prop :=
  exists r kvs, In r (rows df) /\ row_get r f = VObj kvs /\ In k (map fst kvs).

(** The rows of a child table that join with the hash [h]. *)
Definition rows_with_hash (hf : string) (h : Value) (child : DataFrame)
  : list Row :=
  filter (fun c => if Value_eq_dec (row_get c hf) h then true else false)
    (rows child).

(** A table whose field [TAGS] holds an array, an empty array and a string. *)
Definition mixed_array_table : DataFrame :=
  {| columns := ["ID"; "TAGS"];
     rows := [[("ID", VNum 1); ("TAGS", VArr [VStr "a"; VStr "b"])];
              [("ID", VNum 2); ("TAGS", VArr [])];
              [("ID", VNum 3); ("TAGS", VStr "c")]] |}.

Definition distinct_hash (v : Value) : Value :=
  match v with
  | VArr [] => VStr "h-empty"
  | VArr _ => VStr "h-array"
  | VStr _ => VStr "h-string"
  | _ => VStr "h-other"
  end.

(** Over a run, the name [f] is not put into the processed-field set and no
    record says that [f] is classified, exploded or expanded. *)
Definition ignores (f : string) (st st' : State) : Prop :=
  (set_in f (processed_fields st') = true ->
   set_in f (processed_fields st) = true)
  /\ exists l, log st' = log st ++ l
               /\ forall rec, In rec l -> touches f rec = false.

(** A table with a column of load metadata that holds an object. *)
Definition ctrl_table : DataFrame :=
  {| columns := ["ID"; "INGESTION_CTRL_META"];
     rows := [[("ID", VNum 1);
               ("INGESTION_CTRL_META", VObj [("source", VStr "s3")])]] |}.

(** Over a run, no key leaves the namespace, and a key that is no result key
    of the run keeps its table. *)
Definition retains (prefix suffix : string) (st st' : State) : Prop :=
  forall k, (In k (keys (globals st)) -> In k (keys (globals st')))
            /\ ((forall path, k <> result_key prefix suffix path) ->
                dict_get k (globals st') = dict_get k (globals st)).

(** The namespace after an earlier run that recorded a table [OLD_ORDERS]. *)
Definition stale_namespace : dict DataFrame :=
  [("INTERNAL_RESULT_OLD_ORDERS", c4_table)].

(** Over a run, the namespace is left as it is. *)
Definition same_globals (st st' : State) : Prop := globals st' = globals st.

(** The table has rows and all the values of column [c] are objects. *)
Definition object_column (df : DataFrame) (c : string) : Prop :=
  rows df <> [] /\ forall r, In r (rows df) -> exists kvs, row_get r c = VObj kvs.

(** The table of the root after the expansion of the object field [f]. *)
Definition expanded_root (f : string) (df : DataFrame) : exn + DataFrame :=
  drop [f] (with_columns (subfield_columns f (object_keys df f)) df).

(** A root table with a scalar column and the object field [ADDRESS]. *)
Definition object_root_table : DataFrame :=
  {| columns := ["ID"; "ADDRESS"];
     rows := [[("ID", VNum 1);
               ("ADDRESS", VObj [("city", VStr "Oslo"); ("zip", VStr "0150")])];
              [("ID", VNum 2); ("ADDRESS", VObj [("city", VStr "Bergen")])]] |}.

(** The table has rows, and column [c] holds non-empty arrays of arrays of
    scalars. *)
Definition nested_array_column (df : DataFrame) (c : string) : Prop :=
  rows df <> []
  /\ forall r, In r (rows df) ->
       exists l, row_get r c = VArr l /\ l <> []
                 /\ forall e, In e l ->
                      exists l', e = VArr l'
                                 /\ forall e', In e' l' -> is_scalar e' = true.

(** A root table whose field [M] holds arrays of arrays. *)
Definition matrix_table : DataFrame :=
  {| columns := ["ID"; "M"];
     rows := [[("ID", VNum 1);
               ("M", VArr [VArr [VNum 1; VNum 2]; VArr [VNum 3]])]] |}.

Definition element_hash (v : Value) : Value :=
  match v with
  | VArr (VArr _ :: _) => VStr "h-outer"
  | VArr (VNum 1 :: _) => VStr "h-inner-1"
  | VArr _ => VStr "h-inner-2"
  | _ => VStr "h-scalar"
  end.

(** No column of the table bears the name of a column of the explode
    primitive. *)
Definition clean_columns (df : DataFrame) : Prop :=
  forall c, In c (columns df) -> mem c FLATTEN_COLS = false.

(** The two exceptions of the decomposition itself. *)
Definition decomposition_error (e : exn) : Prop :=
  e = TypeError ambiguous_message \/ e = unpack_error.

(** What is known of the outcome of the loop of a call. *)
Definition loop_outcome (new_dfs : dict DataFrame)
    (r : result (DataFrame * dict DataFrame)) : Prop :=
  match r with
  | Ok acc' =>
      clean_columns (fst acc')
      /\ forall item, In item (snd acc') ->
           In item new_dfs \/ clean_columns (snd item)
  | Raise e => decomposition_error e
  | OutOfFuel => False
  end.
(** * Properties *)

(** ** Strings and names *)

#[local] Arguments String.eqb !s1 !s2 : simpl nomatch.

Lemma append_length (a b : string) :
  String.length (a ++ b)%string = (String.length a + String.length b)%nat.
Proof. induction a as [ | c a IH]; simpl; [reflexivity | now rewrite IH]. Qed.

Lemma append_inj_l (p a b : string) : (p ++ a)%string = (p ++ b)%string -> a = b.
Proof. induction p as [ | c p IH]; simpl; intros H; [exact H | inversion H; auto]. Qed.

Lemma append_assoc (a b c : string) :
  ((a ++ b) ++ c)%string = (a ++ (b ++ c))%string.
Proof. induction a as [ | x a IH]; simpl; [reflexivity | now rewrite IH]. Qed.

(** A name obtained by appending a non-empty suffix is a different name. *)
Lemma append_neq (a b : string) : b <> EmptyString -> (a ++ b)%string <> a.
Proof.
  intros Hb H. apply (f_equal String.length) in H. rewrite append_length in H.
  destruct b; [congruence | simpl in H; lia].
Qed.

Lemma mem_In (c : string) (cs : list string) : mem c cs = true <-> In c cs.
Proof.
  unfold mem. rewrite existsb_exists. split.
  - intros [x [Hx He]]. apply String.eqb_eq in He. now subst.
  - intros H. exists c. split; [exact H | apply String.eqb_refl].
Qed.

Lemma mem_false (c : string) (cs : list string) : mem c cs = false <-> ~ In c cs.
Proof.
  rewrite <- mem_In. destruct (mem c cs); split; intros; congruence.
Qed.

(** The hash column of a field is none of the columns FLATTEN produces, and
    not the field. *)
Lemma hash_field_not_flatten (f : string) :
  mem (f ++ "_SHA256")%string FLATTEN_COLS = false.
Proof.
  apply mem_false. intros H.
  assert (L : (String.length (f ++ "_SHA256")%string >= 7)%nat)
    by (rewrite append_length; simpl; lia).
  simpl in H.
  repeat (destruct H as [H | H];
          [rewrite <- H in L; simpl in L; lia | ]).
  exact H.
Qed.

Lemma hash_field_neq (f : string) : (f ++ "_SHA256")%string <> f.
Proof. apply append_neq. discriminate. Qed.

Lemma contains_append_r (sub a b : string) :
  contains sub b = true -> contains sub (a ++ b)%string = true.
Proof.
  intros H. induction a as [ | c a IH]; simpl; [exact H | ].
  rewrite IH. apply orb_true_r.
Qed.

Lemma prefix_append (a b : string) : String.prefix a (a ++ b)%string = true.
Proof.
  induction a as [ | c a IH]; simpl; [now destruct b | ].
  destruct (ascii_dec c c); [exact IH | congruence].
Qed.

Lemma contains_self_append (a b : string) : contains a (a ++ b)%string = true.
Proof.
  destruct a as [ | c a]; [now destruct b | ].
  change (contains (String c a) (String c a ++ b)%string)
    with (String.prefix (String c a) (String c a ++ b)%string
          || contains (String c a) (a ++ b)%string).
  now rewrite prefix_append.
Qed.

(** A field named like no column of FLATTEN is not named [VALUE]. *)
Lemma free_not_value (f : string) : mem f FLATTEN_COLS = false -> f <> "VALUE".
Proof.
  intros H E. apply mem_false in H. apply H. rewrite E.
  unfold FLATTEN_COLS. simpl. tauto.
Qed.

(** A hash column is a bookkeeping column. *)
Lemma hash_field_contains (f : string) :
  contains "SHA256" (f ++ "_SHA256")%string = true.
Proof.
  apply contains_append_r. reflexivity.
Qed.

(** ** Rows *)

Lemma row_get_app_l (r s : Row) (c : string) :
  mem c (map fst r) = true -> row_get (r ++ s) c = row_get r c.
Proof.
  induction r as [ | [c' v] r IH]; simpl; [discriminate | ].
  destruct (String.eqb c c'); [reflexivity | exact IH].
Qed.

Lemma row_get_app_r (r s : Row) (c : string) :
  mem c (map fst r) = false -> row_get (r ++ s) c = row_get s c.
Proof.
  induction r as [ | [c' v] r IH]; simpl; [reflexivity | ].
  destruct (String.eqb c c'); [discriminate | exact IH].
Qed.

Lemma row_get_filter (p : string -> bool) (r : Row) (c : string) :
  p c = true -> row_get (filter (fun cv => p (fst cv)) r) c = row_get r c.
Proof.
  intros Hp. induction r as [ | [c' v] r IH]; simpl; [reflexivity | ].
  destruct (String.eqb c c') eqn:E.
  - apply String.eqb_eq in E. subst c'. rewrite Hp. simpl.
    now rewrite String.eqb_refl.
  - destruct (p c'); simpl; [rewrite E | ]; exact IH.
Qed.

Lemma mem_filter_false (p : string -> bool) (r : Row) (c : string) :
  p c = false -> mem c (map fst (filter (fun cv => p (fst cv)) r)) = false.
Proof.
  intros Hp. induction r as [ | [c' v] r IH]; simpl; [reflexivity | ].
  destruct (p c') eqn:E; simpl; [ | exact IH].
  rewrite IH, orb_false_r. apply String.eqb_neq. intros ->. congruence.
Qed.

(** ** The array flattener *)



Lemma logged_logged st l l' : logged (logged st l) l' = logged st (l ++ l').
Proof. unfold logged; simpl. now rewrite app_assoc. Qed.

Section FlattenArray.

Variable f : string.
Hypothesis f_free : f <> "VALUE".

Let hf : string := (f ++ "_SHA256")%string.
Let dropped : string -> bool :=
  fun c => negb (mem c (DROPPED_COLS ++ [f])).

Lemma value_neq_f : String.eqb "VALUE" f = false.
Proof. apply String.eqb_neq. intros E. apply f_free. now rewrite E. Qed.

Lemma dropped_hf : dropped hf = true.
Proof.
  unfold dropped. apply negb_true_iff, mem_false. intros H.
  apply in_app_or in H. destruct H as [H | [H | []]].
  - pose proof (hash_field_not_flatten f) as N. apply mem_false in N.
    apply N. unfold DROPPED_COLS in H. unfold FLATTEN_COLS. simpl in *.
    intuition.
  - symmetry in H. now apply hash_field_neq in H.
Qed.

Lemma dropped_f : dropped f = false.
Proof.
  unfold dropped. apply negb_false_iff, mem_In, in_or_app. right. now left.
Qed.

Lemma dropped_flatten_row seq key path index value this :
  filter (fun cv => dropped (fst cv)) (flatten_row seq key path index value this)
  = [("VALUE", value)].
Proof.
  unfold flatten_row, dropped, DROPPED_COLS, mem. simpl.
  rewrite value_neq_f.
  reflexivity.
Qed.

Lemma dropped_flatten_cols : filter dropped FLATTEN_COLS = ["VALUE"].
Proof.
  unfold dropped, FLATTEN_COLS, DROPPED_COLS, mem. simpl.
  rewrite value_neq_f. reflexivity.
Qed.

Lemma dropped_pair (h v : Value) (o : Row) :
  filter (fun cv => dropped (fst cv)) ([(hf, h); (f, v)] ++ o)
  = (hf, h) :: filter (fun cv => dropped (fst cv)) o.
Proof.
  simpl. now rewrite dropped_hf, dropped_f.
Qed.

Lemma flatten_elements_values seq this i (l : list Value) :
  map (filter (fun cv => dropped (fst cv))) (flatten_elements seq this i l)
  = map (fun e => [("VALUE", e)]) l.
Proof.
  revert i. induction l as [ | x l IH]; intros i; [reflexivity | ].
  cbn [flatten_elements map]. rewrite IH. f_equal. apply dropped_flatten_row.
Qed.

Lemma flatten_values seq (v : Value) :
  map (filter (fun cv => dropped (fst cv))) (flatten seq ARRAY v)
  = map (fun e => [("VALUE", e)]) (explode_outer v).
Proof.
  destruct v as [ | b | n | s | [ | x l] | l ];
    try (cbn [flatten explode_outer map]; now rewrite dropped_flatten_row).
  unfold flatten, explode_outer. apply flatten_elements_values.
Qed.


(** Dropping and renaming, on the rows joined to one (hash, array) pair. *)
Lemma joined_pair_rows seq (h v : Value) :
  map (map (fun cv => (renamed f (fst cv), snd cv)))
    (map (filter (fun cv => dropped (fst cv)))
       (map (fun o => [(hf, h); (f, v)] ++ o) (flatten seq ARRAY v)))
  = map (fun e => [(hf, h); (f, e)]) (explode_outer v).
Proof.
  assert (D : map (filter (fun cv => dropped (fst cv)))
                (map (fun o => [(hf, h); (f, v)] ++ o) (flatten seq ARRAY v))
              = map (cons (hf, h)) (map (fun e => [("VALUE", e)]) (explode_outer v))).
  { rewrite <- (flatten_values seq), !map_map. apply map_ext. intros o.
    apply dropped_pair. }
  rewrite D, !map_map. apply map_ext. intros e. cbn [map fst snd].
  unfold renamed. rewrite String.eqb_refl.
  replace (String.eqb hf "VALUE") with false; [reflexivity | ].
  symmetry. apply String.eqb_neq. intros E.
  pose proof (hash_field_not_flatten f) as N. apply mem_false in N. apply N.
  fold hf. rewrite E. unfold FLATTEN_COLS. simpl. tauto.
Qed.

Lemma row_get_pair_hf (h v : Value) : row_get [(hf, h); (f, v)] hf = h.
Proof. cbn [row_get]. now rewrite String.eqb_refl. Qed.

Lemma row_get_pair_f (h v : Value) : row_get [(hf, h); (f, v)] f = v.
Proof.
  cbn [row_get]. rewrite String.eqb_refl.
  replace (String.eqb f hf) with false; [reflexivity | ].
  symmetry; apply String.eqb_neq; intros E; symmetry in E.
  now apply hash_field_neq in E.
Qed.

Lemma join_rows_pairs seq (rs : list Row) :
  Forall (fun r => exists h v, r = [(hf, h); (f, v)]) rs ->
  map (map (fun cv => (renamed f (fst cv), snd cv)))
    (map (filter (fun cv => dropped (fst cv))) (join_rows f ARRAY seq rs))
  = child_rows f rs.
Proof.
  revert seq. induction rs as [ | r rs IH]; intros seq H; [reflexivity | ].
  inversion H as [ | ? ? Hr Hrs]; subst. destruct Hr as [h [v ->]].
  cbn [join_rows child_rows flat_map].
  rewrite !map_app, IH by exact Hrs. f_equal.
  fold hf. rewrite row_get_pair_f, row_get_pair_hf.
  apply joined_pair_rows.
Qed.

Lemma select_pairs (df : DataFrame) :
  Forall (fun r => exists h v, r = [(hf, h); (f, v)])
    (rows (distinct (select [hf; f] df))).
Proof.
  apply Forall_forall. intros r Hr. cbn [rows distinct select] in Hr.
  apply nodup_In in Hr.
  apply in_map_iff in Hr. destruct Hr as [r0 [<- _]]. cbn [map].
  eexists; eexists; reflexivity.
Qed.

(** What [flatten_array] returns, and what it logs on the way. *)
Lemma flatten_array_spec (df : DataFrame) (st : State) :
  let child := {| columns := [hf; f];
                  rows := child_rows f (rows (distinct (select [hf; f] df))) |} in
  flatten_array df f st
  = (Ok child,
     logged st
       [mkLog DEBUG ("Flattening array " ++ dq ++ "%s" ++ dq ++ ".............")%string
          [AStr f];
        mkLog DEBUG (dq ++ "%s" ++ dq ++ " after flatten generated a new df of %d rows")%string
          [AStr f; AInt (count child)]]).
Proof.
  intros child. unfold flatten_array, bind, logger, ret, lift.
  cbv beta zeta.
  assert (D : drop (DROPPED_COLS ++ [f])
                (join_table_function f ARRAY (distinct (select [hf; f] df)))
              = inr {| columns := [hf; "VALUE"];
                       rows := map (filter (fun cv => dropped (fst cv)))
                                 (join_rows f ARRAY 1
                                    (rows (distinct (select [hf; f] df)))) |}).
  { unfold drop, join_table_function. cbn [columns rows distinct select app].
    change (fun c => negb (mem c (DROPPED_COLS ++ [f]))) with dropped.
    cbn [filter]. rewrite dropped_hf, dropped_f, dropped_flatten_cols.
    reflexivity. }
  fold hf. rewrite D. unfold ret, with_column_renamed. cbn [columns rows].
  replace (mem "VALUE" [hf; "VALUE"]) with true
    by (symmetry; apply mem_In; simpl; tauto).
  change (fun cv : string * Value =>
            (if String.eqb (fst cv) "VALUE" then f else fst cv, snd cv))
    with (fun cv : string * Value => (renamed f (fst cv), snd cv)).
  rewrite (join_rows_pairs 1 (select_pairs df)).
  cbn [map]. rewrite String.eqb_refl.
  replace (String.eqb hf "VALUE") with false.
  2:{ symmetry. apply String.eqb_neq. intros E.
      pose proof (hash_field_not_flatten f) as N. apply mem_false in N. apply N.
      fold hf. rewrite E. unfold FLATTEN_COLS. simpl. tauto. }
  unfold logged. cbn [processed_fields globals log]. rewrite <- app_assoc.
  reflexivity.
Qed.

End FlattenArray.

(** ** Adding columns *)

Lemma row_get_not_mem (r : Row) (c : string) :
  mem c (map fst r) = false -> row_get r c = VNull.
Proof.
  induction r as [ | [c' v] r IH]; [reflexivity | ].
  cbn [map fst mem existsb row_get]. intros E.
  apply orb_false_iff in E. destruct E as [E1 E2]. rewrite E1. now apply IH.
Qed.


Lemma with_columns_rows new df :
  rows (with_columns new df) = map (with_row new) (rows df).
Proof. reflexivity. Qed.

Lemma with_row_old new (r : Row) (c : string) :
  mem c (map fst new) = false -> row_get (with_row new r) c = row_get r c.
Proof.
  intros Hc. unfold with_row.
  assert (P : (fun c => negb (mem c (map fst new))) c = true)
    by (cbv beta; now rewrite Hc).
  pose proof (row_get_filter (fun c => negb (mem c (map fst new))) r c P) as F.
  destruct (mem c (map fst (filter (fun cv => negb (mem (fst cv) (map fst new))) r)))
    eqn:E.
  - rewrite row_get_app_l by exact E. exact F.
  - rewrite row_get_app_r by exact E. rewrite <- F.
    rewrite (row_get_not_mem _ _ E). apply row_get_not_mem.
    rewrite map_map. cbn [fst]. exact Hc.
Qed.

Lemma with_row_new new (r : Row) (c : string) :
  mem c (map fst new) = true ->
  row_get (with_row new r) c = row_get (map (fun ne => (fst ne, snd ne r)) new) c.
Proof.
  intros Hc. unfold with_row. apply row_get_app_r.
  apply (mem_filter_false (fun c => negb (mem c (map fst new)))).
  cbv beta. now rewrite Hc.
Qed.

(** ** Deduplication *)

Lemma nodup_constant (A : Type) (dec : forall a b : A, {a = b} + {a <> b})
    (x : A) (l : list A) :
  l <> [] -> (forall y, In y l -> y = x) -> nodup dec l = [x].
Proof.
  induction l as [ | a l IH]; intros Hne Hall; [congruence | ].
  cbn [nodup]. destruct (in_dec dec a l) as [Hin | Hnin].
  - apply IH; [intros ->; contradiction | intros y Hy; apply Hall; now right].
  - assert (a = x) by (apply Hall; now left). subst a.
    destruct l as [ | b l]; [reflexivity | ].
    exfalso. apply Hnin. left. apply Hall. right. now left.
Qed.

Section ArrayHash.

Variable content_hash : Value -> Value.
Variable f : string.



Lemma with_hash_rows df : rows (with_hash content_hash f df) = map (hash_row content_hash f) (rows df).
Proof. reflexivity. Qed.

Lemma hash_row_f (r : Row) : row_get (hash_row content_hash f r) f = row_get r f.
Proof.
  apply with_row_old. apply mem_false. intros [E | []].
  now apply hash_field_neq in E.
Qed.

Lemma hash_row_hash (r : Row) :
  row_get (hash_row content_hash f r) (f ++ "_SHA256")%string = content_hash (row_get r f).
Proof.
  unfold hash_row. rewrite with_row_new by (apply mem_In; now left).
  cbn [map fst snd row_get]. now rewrite String.eqb_refl.
Qed.

Lemma hash_row_other (r : Row) (c : string) :
  c <> (f ++ "_SHA256")%string -> row_get (hash_row content_hash f r) c = row_get r c.
Proof.
  intros N. apply with_row_old. apply mem_false. cbn [map fst].
  intros [E | []]. apply N. now rewrite E.
Qed.

(** The (hash, array) pairs of a table before deduplication. *)
Lemma select_with_hash_rows df :
  rows (select [(f ++ "_SHA256")%string; f] (with_hash content_hash f df))
  = map (fun r => [((f ++ "_SHA256")%string, content_hash (row_get r f));
                   (f, row_get r f)]) (rows df).
Proof.
  cbn [rows select]. rewrite with_hash_rows, map_map. apply map_ext.
  intros r. cbn [map]. now rewrite hash_row_f, hash_row_hash.
Qed.

End ArrayHash.

(** ** Claims on the array flattener *)

(** C6. For an array field [f] (named like none of the columns FLATTEN
    produces), [flatten_array] succeeds and returns the table with the two
    columns hash and [f]: each distinct (hash, array) pair of the input gives
    one row per element of the array, the pair of that hash and that element;
    an empty array, a null and a value that is no array give exactly one row,
    with a null element. The columns SEQ, KEY, PATH, INDEX and THIS and the
    array itself do not occur in the result, and nothing but the log changes
    in the state. *)
Theorem c6_flatten_array_rows_are_hash_element_pairs :
  forall (f : string) (df : DataFrame) (st : State),
    mem f FLATTEN_COLS = false ->
    let hf := (f ++ "_SHA256")%string in
    let elements := fun v => match v with
                             | VArr (x :: l) => x :: l
                             | _ => [VNull]
                             end in
    exists child st',
      flatten_array df f st = (Ok child, st')
      /\ columns child = [hf; f]
      /\ rows child
         = flat_map (fun p => map (fun e => [(hf, row_get p hf); (f, e)])
                               (elements (row_get p f)))
             (rows (distinct (select [hf; f] df)))
      /\ elements (VArr []) = [VNull]
      /\ elements VNull = [VNull]
      /\ (forall c, In c DROPPED_COLS -> ~ In c (columns child))
      /\ processed_fields st' = processed_fields st
      /\ globals st' = globals st.
Proof.
  intros f df st Hf hf elements.
  eexists. eexists. split; [apply flatten_array_spec; apply free_not_value; exact Hf | ].
  cbn [columns rows]. repeat split.
  intros c Hc [E | [E | []]].
  - pose proof (hash_field_not_flatten f) as N. apply mem_false in N. apply N.
    unfold hf in E. rewrite E. unfold DROPPED_COLS, FLATTEN_COLS in *.
    simpl in *. intuition.
  - apply mem_false in Hf. apply Hf. rewrite E.
    unfold DROPPED_COLS, FLATTEN_COLS in *. simpl in *. intuition.
Qed.


Lemma c6_flatten_array_rows_are_hash_element_pairs_witness :
  mem "ITEMS" FLATTEN_COLS = false
  /\ exists child st',
       flatten_array
         {| columns := ["ITEMS_SHA256"; "ITEMS"];
            rows := [[("ITEMS_SHA256", VStr "h1"); ("ITEMS", VArr [VNum 1; VNum 2])];
                     [("ITEMS_SHA256", VStr "h0"); ("ITEMS", VArr [])]] |}
         "ITEMS" (init_state []) = (Ok child, st')
       /\ columns child = ["ITEMS_SHA256"; "ITEMS"]
       /\ rows child = [[("ITEMS_SHA256", VStr "h1"); ("ITEMS", VNum 1)];
                        [("ITEMS_SHA256", VStr "h1"); ("ITEMS", VNum 2)];
                        [("ITEMS_SHA256", VStr "h0"); ("ITEMS", VNull)]].
Proof.
  split; [reflexivity | ].
  destruct (@c6_flatten_array_rows_are_hash_element_pairs "ITEMS"
              {| columns := ["ITEMS_SHA256"; "ITEMS"];
                 rows := [[("ITEMS_SHA256", VStr "h1"); ("ITEMS", VArr [VNum 1; VNum 2])];
                          [("ITEMS_SHA256", VStr "h0"); ("ITEMS", VArr [])]] |}
              (init_state []) eq_refl)
    as [child [st' [H1 [H2 [H3 _]]]]].
  exists child, st'. split; [exact H1 | ]. split; [exact H2 | ].
  rewrite H3. vm_compute. reflexivity.
Defined.

(** C4, amended. If the array field [f] holds the same value [v] in all the
    rows of a table that has at least one row, then the (hash, array) pairs
    are one pair after deduplication, whatever the number of rows, and the
    child table has one row per element of [v] when [v] is an array with
    elements, and exactly one row, with a null element, when [v] is the
    empty array. *)
Theorem c4_identical_arrays_are_exploded_once :
  forall (content_hash : Value -> Value) (f : string) (df : DataFrame)
         (l : list Value) (st : State),
    mem f FLATTEN_COLS = false ->
    rows df <> [] ->
    (forall r, In r (rows df) -> row_get r f = VArr l) ->
    let hf := (f ++ "_SHA256")%string in
    let df' := with_column hf (fun r => content_hash (row_get r f)) df in
    rows (distinct (select [hf; f] df')) = [[(hf, content_hash (VArr l)); (f, VArr l)]]
    /\ exists child st',
         flatten_array df' f st = (Ok child, st')
         /\ List.length (rows child) = Nat.max 1 (List.length l)
         /\ (l <> [] ->
             rows child = map (fun e => [(hf, content_hash (VArr l)); (f, e)]) l).
Proof.
  intros content_hash f df l st Hf Hne Hall hf df'.
  assert (P : rows (distinct (select [hf; f] df'))
              = [[(hf, content_hash (VArr l)); (f, VArr l)]]).
  { subst df' hf. change (with_column (f ++ "_SHA256")%string
                             (fun r => content_hash (row_get r f)) df)
      with (with_hash content_hash f df).
    unfold distinct. cbn [rows].
    rewrite select_with_hash_rows. apply nodup_constant.
    - destruct (rows df); [congruence | discriminate].
    - intros y Hy. apply in_map_iff in Hy. destruct Hy as [r [<- Hr]].
      now rewrite (Hall r Hr). }
  split; [exact P | ].
  eexists. eexists. split; [apply flatten_array_spec; apply free_not_value; exact Hf | ].
  cbn [rows]. fold hf. rewrite P. unfold child_rows. cbn [flat_map].
  rewrite app_nil_r. unfold hf. rewrite row_get_pair_f, row_get_pair_hf.
  split.
  - rewrite length_map. destruct l as [ | x l]; [reflexivity | ].
    cbn [explode_outer List.length]. lia.
  - intros Hl. destruct l as [ | x l]; [congruence | reflexivity].
Qed.


Lemma c4_identical_arrays_are_exploded_once_witness :
  let df' := with_column "ITEMS_SHA256"
               (fun r => sample_hash (row_get r "ITEMS")) c4_table in
  List.length (rows (distinct (select ["ITEMS_SHA256"; "ITEMS"] df'))) = 1%nat
  /\ exists child st',
       flatten_array df' "ITEMS" (init_state []) = (Ok child, st')
       /\ List.length (rows child) = 2%nat.
Proof.
  destruct (@c4_identical_arrays_are_exploded_once sample_hash "ITEMS" c4_table
              [VStr "a"; VStr "b"] (init_state []) eq_refl)
    as [H1 [child [st' [H2 [H3 _]]]]].
  - discriminate.
  - intros r Hr. simpl in Hr.
    destruct Hr as [<- | [<- | [<- | []]]]; reflexivity.
  - split.
    + cbv zeta. change ("ITEMS" ++ "_SHA256")%string with "ITEMS_SHA256" in H1.
      now rewrite H1.
    + exists child, st'. split; [exact H2 | exact H3].
Defined.


(** C4 as stated fails on an empty array: the child table has one row, not
    as many rows as the array has elements. *)
Lemma c4_counterexample :
  ~ (forall child st',
       flatten_array
         (with_column "ITEMS_SHA256"
            (fun r => sample_hash (row_get r "ITEMS")) c4_empty_table)
         "ITEMS" (init_state []) = (Ok child, st') ->
       List.length (rows child) = List.length (@nil Value)).
Proof.
  intros H.
  specialize (H _ _ eq_refl). vm_compute in H. discriminate.
Qed.

(** ** Claims on the object expander *)

Lemma expand_object_subfields_spec (df : DataFrame) (f : string) (st : State) :
  object_keys df f <> [] ->
  expand_object_subfields df f st
  = (Ok (with_columns (subfield_columns f (object_keys df f)) df),
     logged st
       [mkLog DEBUG "%s obj has %d subfields: %s"
          [AStr f; AInt (Z.of_nat (List.length (object_keys df f)));
           AStrs (object_keys df f)];
        mkLog DEBUG "Expanded all subfields and drop the parent obj field." []]).
Proof.
  intros Hk. unfold expand_object_subfields, bind, logger, ret, raise.
  fold (subfield_columns f (object_keys df f)).
  destruct (object_keys df f) as [ | k ks] eqn:E; [congruence | ].
  cbn [subfield_columns map]. unfold logged. cbn [processed_fields globals log].
  rewrite <- app_assoc. reflexivity.
Qed.

Lemma expand_object_subfields_no_keys (df : DataFrame) (f : string) (st : State) :
  object_keys df f = [] ->
  expand_object_subfields df f st
  = (Raise (ValueError "not enough values to unpack (expected 2, got 0)"),
     logged st [mkLog DEBUG "%s obj has %d subfields: %s"
                  [AStr f; AInt 0; AStrs []]]).
Proof.
  intros Hk. unfold expand_object_subfields, bind, logger, ret, raise.
  rewrite Hk. reflexivity.
Qed.

Lemma filter_keeps_all (A : Type) (p : A -> bool) (l : list A) :
  (forall x, In x l -> p x = true) -> filter p l = l.
Proof.
  induction l as [ | a l IH]; intros H; [reflexivity | ].
  cbn [filter]. rewrite (H a) by now left.
  f_equal. apply IH. intros x Hx. apply H. now right.
Qed.

Lemma subfield_name_neq (f key : string) : (f ++ "__" ++ key)%string <> f.
Proof. apply append_neq. discriminate. Qed.

(** C5, amended. Let the keys discovered for the object field [f] be [a] and
    [b], and let no column of the table be called [f__a] or [f__b]. Then
    object expansion succeeds and appends exactly the two columns [f__a] and
    [f__b]; the rows are the rows of the input, one for one, with the
    projections [f[a]] and [f[b]] in the new columns and every other column
    as it was; dropping [f] afterwards succeeds and leaves a table without a
    column [f] in which every column but [f] has kept its values. *)
Theorem c5_object_expansion_adds_two_columns :
  forall (df : DataFrame) (f a b : string) (st : State),
    object_keys df f = [a; b] ->
    let fa := (f ++ "__" ++ a)%string in
    let fb := (f ++ "__" ++ b)%string in
    ~ In fa (columns df) ->
    ~ In fb (columns df) ->
    exists df1 st1 df2 g,
      expand_object_subfields df f st = (Ok df1, st1)
      /\ columns df1 = columns df ++ [fa; fb]
      /\ rows df1 = map g (rows df)
      /\ List.length (rows df1) = List.length (rows df)
      /\ (forall r, row_get (g r) fa = subfield (row_get r f) a)
      /\ (forall r, row_get (g r) fb = subfield (row_get r f) b)
      /\ (forall r c, c <> fa -> c <> fb -> row_get (g r) c = row_get r c)
      /\ drop [f] df1 = inr df2
      /\ ~ In f (columns df2)
      /\ columns df2
         = filter (fun c => negb (String.eqb c f)) (columns df) ++ [fa; fb]
      /\ rows df2 = map (filter (fun cv => negb (String.eqb (fst cv) f))) (rows df1)
      /\ (forall r c, c <> f ->
            row_get (filter (fun cv => negb (String.eqb (fst cv) f)) r) c
            = row_get r c).
Proof.
  intros df f a b st Hk fa fb Hfa Hfb.
  pose (new := subfield_columns f [a; b]).
  assert (Hnames : map fst new = [fa; fb]) by reflexivity.
  assert (Hcols : columns (with_columns new df) = columns df ++ [fa; fb]).
  { unfold with_columns. cbn [columns]. rewrite Hnames. f_equal.
    apply filter_keeps_all. intros c Hc. apply negb_true_iff, mem_false.
    intros [E | [E | []]]; subst c; contradiction. }
  assert (Hdrop : filter (fun c => negb (mem c [f])) (columns df ++ [fa; fb])
                  = filter (fun c => negb (String.eqb c f)) (columns df) ++ [fa; fb]).
  { rewrite filter_app. f_equal.
    - apply filter_ext. intros c. unfold mem. cbn [existsb].
      now rewrite orb_false_r.
    - cbn [filter]. unfold mem. cbn [existsb]. rewrite !orb_false_r.
      replace (String.eqb fa f) with false
        by (symmetry; apply String.eqb_neq, subfield_name_neq).
      replace (String.eqb fb f) with false
        by (symmetry; apply String.eqb_neq, subfield_name_neq).
      reflexivity. }
  exists (with_columns new df). eexists.
  exists {| columns := filter (fun c => negb (String.eqb c f)) (columns df) ++ [fa; fb];
            rows := map (filter (fun cv => negb (String.eqb (fst cv) f)))
                      (rows (with_columns new df)) |}.
  exists (with_row new).
  split; [ | split; [ | split; [ | split; [ | split; [ | split; [ | split;
    [ | split; [ | split; [ | split; [ | split ]]]]]]]]]].
  - rewrite expand_object_subfields_spec by (rewrite Hk; discriminate).
    rewrite Hk. reflexivity.
  - exact Hcols.
  - apply with_columns_rows.
  - rewrite with_columns_rows. apply length_map.
  - intros r. rewrite with_row_new by (rewrite Hnames; apply mem_In; now left).
    cbn [new subfield_columns map fst snd row_get]. fold fa.
    now rewrite String.eqb_refl.
  - intros r.
    rewrite with_row_new by (rewrite Hnames; apply mem_In; right; now left).
    cbn [new subfield_columns map fst snd row_get]. fold fa fb.
    rewrite String.eqb_refl. destruct (String.eqb fb fa) eqn:E; [ | reflexivity].
    apply String.eqb_eq in E. unfold fa, fb in E.
    apply append_inj_l in E. apply (append_inj_l "__") in E. now subst.
  - intros r c Ha Hb. apply with_row_old. rewrite Hnames. apply mem_false.
    intros [E | [E | []]]; congruence.
  - unfold drop. rewrite Hcols, Hdrop.
    destruct (filter (fun c => negb (String.eqb c f)) (columns df) ++ [fa; fb])
      as [ | c cs] eqn:E.
    + apply (f_equal (@List.length string)) in E. rewrite length_app in E.
      cbn [List.length] in E. lia.
    + f_equal. f_equal. apply map_ext. intros r. apply filter_ext.
      intros cv. unfold mem. cbn [existsb]. now rewrite orb_false_r.
  - cbn [columns]. intros H. apply in_app_or in H. destruct H as [H | H].
    + apply filter_In in H. destruct H as [_ H].
      now rewrite String.eqb_refl in H.
    + destruct H as [E | [E | []]]; now apply subfield_name_neq in E.
  - reflexivity.
  - reflexivity.
  - intros r c Hc. apply (row_get_filter (fun c => negb (String.eqb c f))).
    apply negb_true_iff, String.eqb_neq. exact Hc.
Qed.

Lemma c5_object_expansion_adds_two_columns_witness :
  exists df1 st1 df2,
    expand_object_subfields c5_plain_table "F" (init_state []) = (Ok df1, st1)
    /\ columns df1 = ["ID"; "F"; "F__b"; "F__a"]
    /\ List.length (rows df1) = 2%nat
    /\ drop ["F"] df1 = inr df2
    /\ columns df2 = ["ID"; "F__b"; "F__a"].
Proof.
  destruct (@c5_object_expansion_adds_two_columns c5_plain_table "F" "b" "a"
              (init_state []))
    as [df1 [st1 [df2 [g [H1 [H2 [H3 [H4 [_ [_ [_ [H5 [_ [H6 _]]]]]]]]]]]]]].
  - vm_compute. reflexivity.
  - simpl. intros [E | [E | []]]; discriminate.
  - simpl. intros [E | [E | []]]; discriminate.
  - exists df1, st1, df2.
    split; [exact H1 | ]. split; [exact H2 | ]. split; [exact H4 | ].
    split; [exact H5 | exact H6].
Defined.

(** C5 as stated fails when the table already has a column [f__a]: the
    column is not kept as it was, its values are replaced by the
    projection. *)
Lemma c5_counterexample :
  ~ (forall df1 st1,
       expand_object_subfields c5_table "F" (init_state []) = (Ok df1, st1) ->
       forall c, In c (columns c5_table) -> c <> "F" ->
         map (fun r => row_get r c) (rows df1)
         = map (fun r => row_get r c) (rows c5_table)).
Proof.
  intros H.
  specialize (H _ _ eq_refl "F__a").
  assert (E : map (fun r => row_get r "F__a")
                (rows (with_columns (subfield_columns "F" ["a"; "b"]) c5_table))
              = map (fun r => row_get r "F__a") (rows c5_table)).
  { apply H; [simpl; tauto | discriminate]. }
  vm_compute in E. discriminate.
Qed.

(** ** Runs: monotonicity and fuel *)

Section Preserves.

Variable R : State -> State -> Prop.
Hypothesis R_refl : forall st, R st st.
Hypothesis R_trans : forall a b c, R a b -> R b c -> R a c.

Lemma preserves_ret (A : Type) (a : A) : preserves R (ret a).
Proof. intros st r st' H. inversion H; subst. apply R_refl. Qed.

Lemma preserves_raise (A : Type) (e : exn) : preserves R (@raise A e).
Proof. intros st r st' H. inversion H; subst. apply R_refl. Qed.

Lemma preserves_lift (A : Type) (x : exn + A) : preserves R (lift x).
Proof. destruct x; [apply preserves_raise | apply preserves_ret]. Qed.

Lemma preserves_bind (A B : Type) (m : M A) (k : A -> M B) :
  preserves R m -> (forall a, preserves R (k a)) -> preserves R (bind m k).
Proof.
  intros Hm Hk st r st' H. unfold bind in H.
  destruct (m st) as [[a | e | ] st1] eqn:E.
  - eapply R_trans; [eapply Hm; exact E | eapply Hk; exact H].
  - inversion H; subst. eapply Hm; exact E.
  - inversion H; subst. eapply Hm; exact E.
Qed.

Lemma preserves_for_each (A B : Type) (xs : list A) (body : A -> B -> M B) :
  (forall x, In x xs -> forall acc, preserves R (body x acc)) ->
  forall acc, preserves R (for_each xs body acc).
Proof.
  induction xs as [ | x xs IH]; intros H acc; cbn [for_each].
  - apply preserves_ret.
  - apply preserves_bind.
    + apply H. now left.
    + intros a. apply IH. intros y Hy. apply H. now right.
Qed.

End Preserves.

Lemma grows_refl st : grows st st.
Proof. intros f H. exact H. Qed.

Lemma grows_trans a b c : grows a b -> grows b c -> grows a c.
Proof. intros H1 H2 f H. apply H2, H1, H. Qed.

Lemma skips_refl f st : skips f st st.
Proof.
  intros H. split; [exact H | ]. exists []. split; [now rewrite app_nil_r | ].
  intros rec [].
Qed.

Lemma skips_trans f a b c : skips f a b -> skips f b c -> skips f a c.
Proof.
  intros H1 H2 H. destruct (H1 H) as [Hb [l1 [E1 N1]]].
  destruct (H2 Hb) as [Hc [l2 [E2 N2]]].
  split; [exact Hc | ]. exists (l1 ++ l2). split.
  - now rewrite E2, E1, app_assoc.
  - intros rec Hin. apply in_app_or in Hin. destruct Hin; auto.
Qed.

Lemma set_in_add (x y : string) (s : pyset) :
  set_in x (set_add' y s) = true <-> x = y \/ set_in x s = true.
Proof.
  unfold set_in, set_add'. split.
  - intros H. apply set_mem_correct1 in H. apply set_add_elim in H.
    destruct H as [H | H]; [now left | right].
    now apply set_mem_correct2.
  - intros H. apply set_mem_correct2. apply set_add_intro.
    destruct H as [H | H]; [now left | right].
    now apply set_mem_correct1 in H.
Qed.

Lemma grows_logger lv f a : preserves grows (logger lv f a).
Proof. intros st r st' H. inversion H; subst. intros x Hx. exact Hx. Qed.

Lemma grows_add x : preserves grows (processed_fields_add x).
Proof.
  intros st r st' H. inversion H; subst. intros y Hy. cbn [processed_fields].
  apply set_in_add. now right.
Qed.

Lemma grows_globals_set k df : preserves grows (globals_set k df).
Proof. intros st r st' H. inversion H; subst. intros x Hx. exact Hx. Qed.

Lemma grows_get : preserves grows get_processed_fields.
Proof. intros st r st' H. inversion H; subst. apply grows_refl. Qed.

Lemma skips_logger f lv fm a :
  touches f (mkLog lv fm a) = false -> preserves (skips f) (logger lv fm a).
Proof.
  intros N st r st' H. inversion H; subst. intros Hf. split; [exact Hf | ].
  cbn [log]. eexists. split; [reflexivity | ].
  intros rec [E | []]. now subst rec.
Qed.

Lemma skips_logger_field f x lv fm a :
  x <> f -> preserves (skips f) (logger lv fm (AStr x :: a)).
Proof.
  intros N. apply skips_logger. unfold touches. cbn [args].
  apply String.eqb_neq in N. rewrite N. apply andb_false_r.
Qed.

Lemma skips_add f x : preserves (skips f) (processed_fields_add x).
Proof.
  intros st r st' H. inversion H; subst. intros Hf. split.
  - cbn [processed_fields]. apply set_in_add. now right.
  - exists []. cbn [log]. split; [now rewrite app_nil_r | intros rec []].
Qed.

Lemma skips_globals_set f k df : preserves (skips f) (globals_set k df).
Proof.
  intros st r st' H. inversion H; subst. intros Hf. split; [exact Hf | ].
  exists []. cbn [log]. split; [now rewrite app_nil_r | intros rec []].
Qed.

Lemma skips_get f : preserves (skips f) get_processed_fields.
Proof. intros st r st' H. inversion H; subst. apply skips_refl. Qed.

Lemma named_refl p s st : named p s st st.
Proof. intros k H. now left. Qed.

Lemma named_trans p s a b c : named p s a b -> named p s b c -> named p s a c.
Proof.
  intros H1 H2 k Hk. destruct (H2 k Hk) as [H | H]; [ | now right].
  apply H1. exact H.
Qed.

Lemma keys_dict_set (A : Type) (k : string) (v : A) (d : dict A) (x : string) :
  In x (keys (dict_set k v d)) -> x = k \/ In x (keys d).
Proof.
  unfold keys. induction d as [ | [k' v'] d IH]; cbn [dict_set map fst In].
  - intros [H | []]. now left.
  - destruct (String.eqb k k') eqn:E; cbn [map fst In].
    + intros [H | H]; [now left | right; now right].
    + intros [H | H]; [right; now left | ].
      destruct (IH H) as [H' | H']; [now left | right; now right].
Qed.

Lemma named_logger p s lv f a : preserves (named p s) (logger lv f a).
Proof. intros st r st' H. inversion H; subst. intros k Hk. now left. Qed.

Lemma named_add p s x : preserves (named p s) (processed_fields_add x).
Proof. intros st r st' H. inversion H; subst. intros k Hk. now left. Qed.

Lemma named_get p s : preserves (named p s) get_processed_fields.
Proof. intros st r st' H. inversion H; subst. apply named_refl. Qed.

Lemma named_globals_set p s path df :
  preserves (named p s) (globals_set (result_key p s path) df).
Proof.
  intros st r st' H. inversion H; subst. intros k Hk. cbn [globals] in Hk.
  apply keys_dict_set in Hk. destruct Hk as [-> | Hk]; [right | now left].
  now exists path.
Qed.

(** Goals [preserves R m] for the functions of the source: split the binds
    and the branches, close the leaves with the lemmas on the primitives. *)
Ltac preserves_step R_refl R_trans :=
  match goal with
  | |- preserves _ (bind _ _) =>
      refine (@preserves_bind _ R_trans _ _ _ _ _ _); [ | intros ]
  | |- preserves _ (ret _) => refine (@preserves_ret _ R_refl _ _)
  | |- preserves _ (raise _) => refine (@preserves_raise _ R_refl _ _)
  | |- preserves _ (lift _) => refine (@preserves_lift _ R_refl _ _)
  | |- preserves _ (let _ := _ in _) => cbv zeta
  | |- preserves _ (if ?b then _ else _) => destruct b
  | |- preserves _ (match ?x with _ => _ end) => destruct x
  | |- preserves grows (logger _ _ _) => apply grows_logger
  | |- preserves grows (processed_fields_add _) => apply grows_add
  | |- preserves grows (globals_set _ _) => apply grows_globals_set
  | |- preserves grows get_processed_fields => apply grows_get
  | |- preserves (skips _) (logger _ _ _) =>
      first [ apply skips_logger; vm_compute; reflexivity
            | apply skips_logger_field; assumption ]
  | |- preserves (named _ _) (logger _ _ _) => apply named_logger
  | |- preserves (named _ _) (processed_fields_add _) => apply named_add
  | |- preserves (named _ _) (globals_set _ _) => apply named_globals_set
  | |- preserves (named _ _) get_processed_fields => apply named_get
  | |- preserves (skips _) (processed_fields_add _) => apply skips_add
  | |- preserves (skips _) (globals_set _ _) => apply skips_globals_set
  | |- preserves (skips _) get_processed_fields => apply skips_get
  end.

Section RunsOfTheSource.

Variable set_iter : list string -> list string.
Variable content_hash : Value -> Value.
Variables output_table_prefix output_table_suffix : string.

Lemma grows_flatten_array df f : preserves grows (flatten_array df f).
Proof. unfold flatten_array. repeat preserves_step grows_refl grows_trans. Qed.

Lemma grows_expand df f : preserves grows (expand_object_subfields df f).
Proof.
  unfold expand_object_subfields. repeat preserves_step grows_refl grows_trans.
Qed.

Lemma grows_loop_body x acc : preserves grows (loop_body content_hash x acc).
Proof.
  unfold loop_body. destruct acc as [df new_dfs].
  repeat first [ apply grows_flatten_array | apply grows_expand
               | preserves_step grows_refl grows_trans ].
Qed.

Lemma grows_model fuel : forall df path counter max,
  preserves grows
    (model_nested_JSON_objects set_iter content_hash output_table_prefix
       output_table_suffix fuel df path counter max).
Proof.
  induction fuel as [ | fuel IH]; intros df path counter max.
  - intros st r st' H. inversion H; subst. apply grows_refl.
  - cbn [model_nested_JSON_objects].
    repeat first [ apply IH
                 | refine (@preserves_for_each _ grows_refl grows_trans _ _ _ _ _ _); intros
                 | apply grows_loop_body
                 | preserves_step grows_refl grows_trans ].
Qed.

Lemma named_flatten_array p s df f : preserves (named p s) (flatten_array df f).
Proof.
  unfold flatten_array. repeat preserves_step (named_refl p s) (@named_trans p s).
Qed.

Lemma named_expand p s df f :
  preserves (named p s) (expand_object_subfields df f).
Proof.
  unfold expand_object_subfields.
  repeat preserves_step (named_refl p s) (@named_trans p s).
Qed.

Lemma named_loop_body p s x acc :
  preserves (named p s) (loop_body content_hash x acc).
Proof.
  unfold loop_body. destruct acc as [df new_dfs].
  repeat first [ apply named_flatten_array | apply named_expand
               | preserves_step (named_refl p s) (@named_trans p s) ].
Qed.

(** Every key that a call adds to the namespace is the marker followed by
    the prefix, a lineage path and the suffix. *)
Lemma named_model fuel : forall df path counter max,
  preserves (named output_table_prefix output_table_suffix)
    (model_nested_JSON_objects set_iter content_hash output_table_prefix
       output_table_suffix fuel df path counter max).
Proof.
  induction fuel as [ | fuel IH]; intros df path counter max.
  - intros st r st' H. inversion H; subst. apply named_refl.
  - cbn [model_nested_JSON_objects].
    repeat first
      [ apply IH
      | refine (@preserves_for_each _
                  (named_refl output_table_prefix output_table_suffix)
                  (@named_trans output_table_prefix output_table_suffix)
                  _ _ _ _ _ _); intros
      | apply named_loop_body
      | preserves_step (named_refl output_table_prefix output_table_suffix)
                       (@named_trans output_table_prefix output_table_suffix) ].
Qed.

Lemma skips_flatten_array f df x :
  x <> f -> preserves (skips f) (flatten_array df x).
Proof.
  intros N. unfold flatten_array. repeat preserves_step (skips_refl f) (@skips_trans f).
Qed.

Lemma skips_expand f df x :
  x <> f -> preserves (skips f) (expand_object_subfields df x).
Proof.
  intros N. unfold expand_object_subfields.
  repeat preserves_step (skips_refl f) (@skips_trans f).
Qed.

(** The turn of the loop for a field [x] does not log the type detection of
    another field [f]. *)
Lemma skips_loop_body f x acc :
  x <> f -> preserves (skips f) (loop_body content_hash x acc).
Proof.
  intros N. unfold loop_body. destruct acc as [df new_dfs].
  repeat first [ apply skips_flatten_array; assumption
               | apply skips_expand; assumption
               | preserves_step (skips_refl f) (@skips_trans f) ].
Qed.

Hypothesis set_iter_incl : forall l x, In x (set_iter l) -> In x l.

Lemma processed_not_unprocessed f df processed :
  set_in f processed = true ->
  ~ In f (cur_unprocessed_fields set_iter df processed).
Proof.
  intros H Hin. apply set_iter_incl in Hin. unfold unprocessed_columns in Hin.
  apply filter_In in Hin. destruct Hin as [_ Hin].
  apply andb_true_iff in Hin. destruct Hin as [_ Hin].
  rewrite H in Hin. discriminate.
Qed.

Lemma skips_model f fuel : forall df path counter max,
  preserves (skips f)
    (model_nested_JSON_objects set_iter content_hash output_table_prefix
       output_table_suffix fuel df path counter max).
Proof.
  induction fuel as [ | fuel IH]; intros df path counter max.
  - intros st r st' H. inversion H; subst. apply skips_refl.
  - intros st r st' Hrun Hpre. cbn [model_nested_JSON_objects] in Hrun.
    unfold bind at 1 in Hrun. unfold get_processed_fields at 1 in Hrun.
    pose proof (@processed_not_unprocessed f df _ Hpre) as Hcur.
    match type of Hrun with
    | ?m st = _ => assert (K : preserves (skips f) m)
    end.
    { repeat first
        [ apply IH
        | refine (@preserves_for_each _ (skips_refl f) (@skips_trans f) _ _ _ _ _ _);
          intros
        | apply skips_loop_body; intros E; subst; contradiction
        | preserves_step (skips_refl f) (@skips_trans f) ]. }
    exact (K st r st' Hrun Hpre).
Qed.

End RunsOfTheSource.

(** ** Fuel *)

Lemma no_oof_ret (A : Type) (a : A) : no_oof (ret a).
Proof. intros st. discriminate. Qed.

Lemma no_oof_raise (A : Type) (e : exn) : no_oof (@raise A e).
Proof. intros st. discriminate. Qed.

Lemma no_oof_lift (A : Type) (x : exn + A) : no_oof (lift x).
Proof. destruct x; [apply no_oof_raise | apply no_oof_ret]. Qed.

Lemma no_oof_logger lv f a : no_oof (logger lv f a).
Proof. intros st. discriminate. Qed.

Lemma no_oof_add x : no_oof (processed_fields_add x).
Proof. intros st. discriminate. Qed.

Lemma no_oof_globals_set k df : no_oof (globals_set k df).
Proof. intros st. discriminate. Qed.

Lemma no_oof_get : no_oof get_processed_fields.
Proof. intros st. discriminate. Qed.

Lemma no_oof_bind (A B : Type) (m : M A) (k : A -> M B) :
  no_oof m -> (forall a, no_oof (k a)) -> no_oof (bind m k).
Proof.
  intros Hm Hk st. unfold bind. specialize (Hm st).
  destruct (m st) as [[a | e | ] st1]; cbn [fst] in *.
  - apply Hk.
  - discriminate.
  - congruence.
Qed.

Lemma no_oof_for_each (A B : Type) (xs : list A) (body : A -> B -> M B) :
  (forall x acc, no_oof (body x acc)) -> forall acc, no_oof (for_each xs body acc).
Proof.
  intros H. induction xs as [ | x xs IH]; intros acc; cbn [for_each].
  - apply no_oof_ret.
  - apply no_oof_bind; [apply H | exact IH].
Qed.

Ltac no_oof_step :=
  match goal with
  | |- no_oof (bind _ _) => apply no_oof_bind; [ | intros ]
  | |- no_oof (ret _) => apply no_oof_ret
  | |- no_oof (raise _) => apply no_oof_raise
  | |- no_oof (lift _) => apply no_oof_lift
  | |- no_oof (logger _ _ _) => apply no_oof_logger
  | |- no_oof (processed_fields_add _) => apply no_oof_add
  | |- no_oof (globals_set _ _) => apply no_oof_globals_set
  | |- no_oof get_processed_fields => apply no_oof_get
  | |- no_oof (let _ := _ in _) => cbv zeta
  | |- no_oof (if ?b then _ else _) => destruct b
  | |- no_oof (match ?x with _ => _ end) => destruct x
  end.

Lemma no_oof_flatten_array df f : no_oof (flatten_array df f).
Proof. unfold flatten_array. repeat no_oof_step. Qed.

Lemma no_oof_expand df f : no_oof (expand_object_subfields df f).
Proof. unfold expand_object_subfields. repeat no_oof_step. Qed.

Lemma no_oof_loop_body content_hash x acc : no_oof (loop_body content_hash x acc).
Proof.
  unfold loop_body. destruct acc as [df new_dfs].
  repeat first [ apply no_oof_flatten_array | apply no_oof_expand | no_oof_step ].
Qed.

(** A call that starts below the depth cap needs no more nested calls than
    the distance to the cap. *)
Lemma no_oof_model set_iter content_hash prefix suffix fuel :
  forall df path counter max,
    counter < max -> max - counter <= Z.of_nat fuel ->
    no_oof (model_nested_JSON_objects set_iter content_hash prefix suffix
              fuel df path counter max).
Proof.
  induction fuel as [ | fuel IH]; intros df path counter max Hlt Hfuel.
  - simpl in Hfuel. lia.
  - cbn [model_nested_JSON_objects].
    apply no_oof_bind; [apply no_oof_get | intros processed].
    apply no_oof_bind; [apply no_oof_logger | intros _].
    destruct (counter + 1 =? max) eqn:E.
    + rewrite orb_true_r. repeat no_oof_step.
    + apply Z.eqb_neq in E.
      assert (IH' : forall df' path',
                 no_oof (model_nested_JSON_objects set_iter content_hash prefix
                           suffix fuel df' path' (counter + 1) max))
        by (intros; apply IH; lia).
      repeat first [ apply IH'
                   | apply no_oof_for_each; intros
                   | apply no_oof_loop_body
                   | no_oof_step ].
Qed.

(** ** Inversion of runs *)

Lemma bind_Ok_inv (A B : Type) (m : M A) (k : A -> M B) st b st' :
  bind m k st = (Ok b, st') ->
  exists a st1, m st = (Ok a, st1) /\ k a st1 = (Ok b, st').
Proof.
  unfold bind. destruct (m st) as [[a | e | ] st1]; intros H;
    [ | discriminate | discriminate].
  exists a, st1. split; [reflexivity | exact H].
Qed.

Lemma lift_Ok_inv (A : Type) (x : exn + A) st a st' :
  lift x st = (Ok a, st') -> x = inr a /\ st' = st.
Proof.
  destruct x; cbn [lift]; unfold raise, ret; intros H; inversion H; auto.
Qed.

Lemma drop_columns names df df' :
  drop names df = inr df' ->
  columns df' = filter (fun c => negb (mem c names)) (columns df).
Proof.
  unfold drop. destruct (filter _ (columns df)); intros H; inversion H.
  reflexivity.
Qed.

Lemma drop_not_in names df df' c :
  drop names df = inr df' -> In c names -> ~ In c (columns df').
Proof.
  intros H Hc Hin. rewrite (@drop_columns names df df' H) in Hin.
  apply filter_In in Hin. destruct Hin as [_ Hin].
  apply mem_In in Hc. rewrite Hc in Hin. discriminate.
Qed.

Lemma not_unprocessed_column df processed x :
  ~ In x (columns df) \/ set_in x processed = true ->
  ~ In x (unprocessed_columns df processed).
Proof.
  intros H Hin. unfold unprocessed_columns in Hin. apply filter_In in Hin.
  destruct Hin as [Hc Hp]. apply andb_true_iff in Hp.
  destruct Hp as [_ Hp]. destruct H as [H | H]; [contradiction | ].
  rewrite H in Hp. discriminate.
Qed.

(** After its turn of the loop, a field is not an unprocessed column of the
    current table any more: it has been dropped, or it is processed. *)
Lemma loop_body_removes content_hash x acc st acc' st' :
  loop_body content_hash x acc st = (Ok acc', st') ->
  ~ In x (unprocessed_columns (fst acc') (processed_fields st')).
Proof.
  unfold loop_body. destruct acc as [df new_dfs]. intros H.
  apply bind_Ok_inv in H. destruct H as [[] [st1 [_ H]]].
  destruct (Z.of_nat (List.length (to_unpack_dtypes df x)) >? 1);
    [discriminate | ].
  destruct (Z.of_nat (List.length (to_unpack_dtypes df x)) =? 1).
  - apply bind_Ok_inv in H. destruct H as [[] [st2 [_ H]]].
    apply bind_Ok_inv in H. destruct H as [a [st3 [_ H]]].
    apply bind_Ok_inv in H. destruct H as [df2 [st4 [Hd H]]].
    apply lift_Ok_inv in Hd. destruct Hd as [Hd _].
    inversion H; subst. cbn [fst]. apply not_unprocessed_column. left.
    eapply drop_not_in; [exact Hd | now left].
  - unfold bind, processed_fields_add, logger, ret in H. inversion H; subst.
    cbn [fst processed_fields]. apply not_unprocessed_column. right.
    apply set_in_add. now left.
Qed.

(** A field that is expanded as an object is processed afterwards. *)
Lemma loop_body_object_processed content_hash x df new_dfs st acc' st' :
  to_unpack_dtypes df x = [[("TYPEOF", VStr "OBJECT")]] ->
  loop_body content_hash x (df, new_dfs) st = (Ok acc', st') ->
  set_in x (processed_fields st') = true.
Proof.
  intros Hk H. unfold loop_body in H. rewrite Hk in H.
  cbn [List.length Z.of_nat Pos.of_succ_nat Z.gtb Z.compare Pos.compare
       Pos.compare_cont Z.eqb Pos.eqb hd row_get str_of] in H.
  change (String.eqb "TYPEOF" "TYPEOF") with true in H. cbv iota in H.
  cbn [str_of] in H.
  change (String.eqb "OBJECT" "ARRAY") with false in H.
  change (String.eqb "OBJECT" "OBJECT") with true in H. cbv iota in H.
  apply bind_Ok_inv in H. destruct H as [[] [st1 [_ H]]].
  apply bind_Ok_inv in H. destruct H as [[] [st2 [_ H]]].
  apply bind_Ok_inv in H. destruct H as [a [st3 [Ha H]]].
  apply bind_Ok_inv in Ha. destruct Ha as [df1 [st4 [_ Ha]]].
  apply bind_Ok_inv in Ha. destruct Ha as [[] [st5 [Hadd Ha]]].
  apply bind_Ok_inv in Ha. destruct Ha as [[] [st6 [Hlog Ha]]].
  apply bind_Ok_inv in H. destruct H as [df2 [st7 [Hd H]]].
  apply lift_Ok_inv in Hd. destruct Hd as [_ ->].
  inversion Ha; subst. inversion H; subst.
  inversion Hlog; subst. inversion Hadd; subst. cbn [processed_fields].
  apply set_in_add. now left.
Qed.

(** ** Claims on the recursion *)

Lemma sample_set_iter_incl (l : list string) (x : string) :
  In x (sample_set_iter l) -> In x l.
Proof. unfold sample_set_iter. apply nodup_In. Qed.

(** C3. The processed-field set is one set for the whole run. Take any call
    of the recursive function, on any table and under any lineage path,
    started in a state where the name [f] is in the set (whichever table
    put it there). Then [f] is not among the unprocessed fields of that
    table, [f] is still in the set when the call and all the calls below it
    are over, and nothing in between has logged a type detection, an
    explosion or an expansion of [f], whatever the values of a column [f]
    are. *)
Theorem c3_processed_field_is_skipped_in_every_table :
  forall (set_iter : list string -> list string)
         (content_hash : Value -> Value) (prefix suffix : string),
    (forall l x, In x (set_iter l) -> In x l) ->
    forall (f : string) (fuel : nat) (df : DataFrame) (path : string)
           (counter max : Z) (st : State) (r : result unit) (st' : State),
      set_in f (processed_fields st) = true ->
      model_nested_JSON_objects set_iter content_hash prefix suffix fuel df
        path counter max st = (r, st') ->
      ~ In f (cur_unprocessed_fields set_iter df (processed_fields st))
      /\ set_in f (processed_fields st') = true
      /\ exists l, log st' = log st ++ l
                   /\ forall rec, In rec l -> touches f rec = false.
Proof.
  intros set_iter content_hash prefix suffix Hincl f fuel df path counter max
    st r st' Hf Hrun.
  split.
  - apply processed_not_unprocessed; assumption.
  - exact (@skips_model set_iter content_hash prefix suffix Hincl f fuel df
             path counter max st r st' Hrun Hf).
Qed.

Lemma c3_processed_field_is_skipped_in_every_table_witness :
  let run := model_nested_JSON_objects sample_set_iter sample_hash "" "" 3
               c3_child_table "Y" 1 100 c3_state in
  set_in "Y__K" (processed_fields c3_state) = true
  /\ ~ In "Y__K" (cur_unprocessed_fields sample_set_iter c3_child_table
                    (processed_fields c3_state))
  /\ set_in "Y__K" (processed_fields (snd run)) = true
  /\ exists l, log (snd run) = log c3_state ++ l
               /\ forall rec, In rec l -> touches "Y__K" rec = false.
Proof.
  intros run. split; [reflexivity | ].
  apply (@c3_processed_field_is_skipped_in_every_table sample_set_iter
           sample_hash "" "" sample_set_iter_incl "Y__K" 3 c3_child_table "Y"
           1 100 c3_state (fst run) (snd run)).
  - reflexivity.
  - apply surjective_pairing.
Defined.

(** The set is shared between lineage branches: the root table marks its
    scalar column [Y__K]; the child table of the array [Y] gets a column of
    the same name by object expansion, and that column keeps its arrays. *)
Example processed_name_is_shared_between_branches :
  fst (fst (snowpark_main_handler sample_set_iter sample_hash "" "" 10
              [("DB.RAW", c3_root_table)] "DB.RAW" "OUT" 100 []))
  = Ok [("ENTRY",
         {| columns := ["Y__K"; "Y_SHA256"];
            rows := [[("Y__K", VNum 7);
                      ("Y_SHA256", VStr "sha256-of-array-of-some")]] |});
        ("Y",
         {| columns := ["Y_SHA256"; "Y__K"];
            rows := [[("Y_SHA256", VStr "sha256-of-array-of-some");
                      ("Y__K", VArr [VNum 1; VNum 2])]] |})].
Proof. vm_compute. reflexivity. Qed.

(** ** Evaluating a call *)

(** Membership in the processed-field set after a run of scalar turns. *)
Lemma after_scalars_processed xs st x :
  set_in x (processed_fields (after_scalars xs st)) = true
  <-> In x xs \/ set_in x (processed_fields st) = true.
Proof.
  unfold after_scalars. cbn [processed_fields].
  generalize (processed_fields st) as s.
  induction xs as [ | y xs IH]; intros s; cbn [fold_left].
  - cbn [In]. tauto.
  - rewrite IH, set_in_add. cbn [In]. split.
    + intros [H | [H | H]]; auto.
    + intros [[H | H] | H]; auto.
Qed.

Section Evaluation.

Variable set_iter : list string -> list string.
Variable content_hash : Value -> Value.
Variables prefix suffix : string.

Abbreviation model := (model_nested_JSON_objects set_iter content_hash prefix suffix).
Abbreviation handler := (snowpark_main_handler set_iter content_hash prefix suffix).

Lemma model_terminal fuel df path counter max st :
  cur_unprocessed_fields set_iter df (processed_fields st) = []
  \/ counter + 1 = max ->
  model (S fuel) df path counter max st
  = (Ok tt, logged st [start_record (counter + 1) df (processed_fields st);
                       terminated_record (counter + 1)]).
Proof.
  intros H. cbn [model_nested_JSON_objects].
  unfold bind at 1. unfold get_processed_fields at 1.
  unfold bind at 1. unfold logger at 1.
  cbn [processed_fields globals log].
  replace ((Z.of_nat (List.length
              (cur_unprocessed_fields set_iter df (processed_fields st))) =? 0)
           || (counter + 1 =? max)) with true.
  - unfold bind, logger, ret, logged, start_record, terminated_record.
    cbn [processed_fields globals log]. rewrite <- app_assoc. reflexivity.
  - symmetry. destruct H as [H | H].
    + rewrite H. reflexivity.
    + apply Z.eqb_eq in H. rewrite H. apply orb_true_r.
Qed.

Lemma model_step fuel df path counter max st :
  cur_unprocessed_fields set_iter df (processed_fields st) <> [] ->
  counter + 1 <> max ->
  model (S fuel) df path counter max st
  = bind (for_each (cur_unprocessed_fields set_iter df (processed_fields st))
            (loop_body content_hash) (df, []))
         (after_loop set_iter content_hash prefix suffix fuel path (counter + 1) max)
         (logged st [start_record (counter + 1) df (processed_fields st)]).
Proof.
  intros Hcur Hmax. cbn [model_nested_JSON_objects].
  unfold bind at 1. unfold get_processed_fields at 1.
  unfold bind at 1. unfold logger at 1.
  replace ((Z.of_nat (List.length
              (cur_unprocessed_fields set_iter df (processed_fields st))) =? 0)
           || (counter + 1 =? max)) with false.
  - unfold logged, start_record, bind at 1.
    symmetry. unfold bind at 1. symmetry.
    destruct (for_each _ _ _ _) as [[[d n] | e | ] st2]; reflexivity.
  - symmetry. apply orb_false_iff. split.
    + destruct (cur_unprocessed_fields set_iter df (processed_fields st));
        [congruence | reflexivity].
    + now apply Z.eqb_neq.
Qed.

Lemma for_each_app (A B : Type) (xs ys : list A) (body : A -> B -> M B) acc st :
  for_each (xs ++ ys) body acc st
  = bind (for_each xs body acc) (for_each ys body) st.
Proof.
  revert acc st. induction xs as [ | x xs IH]; intros acc st; cbn [for_each app].
  - reflexivity.
  - unfold bind at 1 2 3. destruct (body x acc st) as [[a | e | ] st1];
      [rewrite IH; reflexivity | reflexivity | reflexivity].
Qed.

(** The turn of the loop for a field without array or object values. *)
Lemma loop_body_scalar x df new_dfs st :
  to_unpack_dtypes df x = [] ->
  loop_body content_hash x (df, new_dfs) st
  = (Ok (df, new_dfs), after_scalars [x] st).
Proof.
  intros H. unfold loop_body. rewrite H.
  cbn [List.length Z.of_nat Z.gtb Z.compare Z.eqb].
  unfold bind, logger, processed_fields_add, ret, after_scalars.
  cbn [processed_fields globals log fold_left flat_map].
  rewrite <- !app_assoc. reflexivity.
Qed.

Lemma after_scalars_app xs ys st :
  after_scalars (xs ++ ys) st = after_scalars ys (after_scalars xs st).
Proof.
  unfold after_scalars. cbn [processed_fields globals log].
  now rewrite fold_left_app, flat_map_app, app_assoc.
Qed.

Lemma after_scalars_nil st : after_scalars [] st = st.
Proof.
  unfold after_scalars. cbn [fold_left flat_map]. rewrite app_nil_r.
  now destruct st.
Qed.

Lemma for_each_scalars xs df new_dfs st :
  (forall x, In x xs -> to_unpack_dtypes df x = []) ->
  for_each xs (loop_body content_hash) (df, new_dfs) st
  = (Ok (df, new_dfs), after_scalars xs st).
Proof.
  revert st. induction xs as [ | x xs IH]; intros st H; cbn [for_each].
  - now rewrite after_scalars_nil.
  - unfold bind. rewrite loop_body_scalar by (apply H; now left).
    rewrite IH by (intros y Hy; apply H; now right).
    now rewrite (after_scalars_app [x] xs).
Qed.

(** ** The namespace and the results *)

Lemma dict_set_fresh_app (A : Type) (k : string) (v : A) (g t : dict A) :
  ~ In k (keys g) -> dict_set k v (g ++ t) = g ++ dict_set k v t.
Proof.
  induction g as [ | [k' v'] g IH]; intros H; [reflexivity | ].
  cbn [app dict_set]. destruct (String.eqb k k') eqn:E.
  - apply String.eqb_eq in E. subst. exfalso. apply H. now left.
  - f_equal. apply IH. intros Hin. apply H. now right.
Qed.

Lemma collect_results_fresh_app (g t : dict DataFrame) :
  fresh_namespace g -> collect_results (g ++ t) = collect_results t.
Proof.
  intros H. unfold collect_results. rewrite fold_left_app. f_equal.
  induction g as [ | [k v] g IH]; [reflexivity | ].
  cbn [fold_left fst snd]. rewrite (H k) by now left.
  apply IH. intros k' Hk'. apply H. now right.
Qed.

Lemma result_key_marked path :
  contains "INTERNAL_RESULT" (result_key prefix suffix path) = true.
Proof. reflexivity. Qed.

Lemma result_key_not_fresh (g : dict DataFrame) path :
  fresh_namespace g -> ~ In (result_key prefix suffix path) (keys g).
Proof.
  intros H Hin. apply H in Hin. rewrite result_key_marked in Hin. discriminate.
Qed.

Lemma replace_from_none (old new s : string) :
  contains old s = false -> replace_from old new 0 s = s.
Proof.
  induction s as [ | c s IH]; intros H; [reflexivity | ].
  cbn [contains] in H. apply orb_false_iff in H. destruct H as [H1 H2].
  cbn [replace_from]. rewrite H1. f_equal. now apply IH.
Qed.

Lemma replace_from_skip (old new a s : string) :
  replace_from old new (String.length a) (a ++ s)%string
  = replace_from old new 0 s.
Proof.
  induction a as [ | c a IH]; [reflexivity | ].
  cbn [String.length append replace_from]. exact IH.
Qed.

Lemma replace_from_occurrence (c : ascii) (o new s : string) :
  replace_from (String c o) new 0 (String c o ++ s)%string
  = (new ++ replace_from (String c o) new 0 s)%string.
Proof.
  change (String c o ++ s)%string with (String c (o ++ s)%string).
  cbn [replace_from].
  change (String c (o ++ s)%string) with (String c o ++ s)%string.
  rewrite prefix_append. cbn [String.length Nat.sub].
  rewrite Nat.sub_0_r. now rewrite replace_from_skip.
Qed.

(** The key of a result, stripped of its marker, is the table name. *)
Lemma replace_result_key path :
  contains "INTERNAL_RESULT_" (prefix ++ path ++ suffix)%string = false ->
  replace "INTERNAL_RESULT_" "" (result_key prefix suffix path)
  = (prefix ++ path ++ suffix)%string.
Proof.
  intros H. unfold replace, result_key.
  rewrite replace_from_occurrence. cbn [append]. now apply replace_from_none.
Qed.

Lemma persist_spec output_schema results lg s :
  persist output_schema results (lg, s)
  = (lg ++ results_records results, save_all output_schema results s).
Proof.
  unfold persist, results_records, save_all. revert lg s.
  induction results as [ | item results IH]; intros lg s; cbn [fold_left map].
  - now rewrite app_nil_r.
  - cbn [fst snd]. rewrite IH. now rewrite <- app_assoc.
Qed.

End Evaluation.

(** ** Type detection on the data *)

Lemma In_firstn (A : Type) (n : nat) (l : list A) (x : A) :
  In x (firstn n l) -> In x l.
Proof.
  intros H. rewrite <- (firstn_skipn n l). apply in_or_app. now left.
Qed.

Lemma filter_none (A : Type) (p : A -> bool) (l : list A) :
  (forall x, In x l -> p x = false) -> filter p l = [].
Proof.
  induction l as [ | a l IH]; intros H; [reflexivity | ].
  cbn [filter]. rewrite (H a) by now left.
  apply IH. intros x Hx. apply H. now right.
Qed.

Lemma nodup_not_nil (A : Type) (dec : forall a b : A, {a = b} + {a <> b})
    (l : list A) : l <> [] -> nodup dec l <> [].
Proof.
  destruct l as [ | a l]; [congruence | ]. intros _ E.
  assert (H : In a (nodup dec (a :: l))) by (apply nodup_In; now left).
  rewrite E in H. exact H.
Qed.

(** The rows whose type is looked at: the first distinct values of [x]. *)
Lemma sampled_rows df x r' :
  In r' (rows (limit detect_dtype_from_first (distinct (select [x] df)))) ->
  exists r, In r (rows df) /\ r' = [(x, row_get r x)].
Proof.
  cbn [rows limit distinct select]. intros H. apply In_firstn in H.
  apply nodup_In in H. apply in_map_iff in H. destruct H as [r [<- Hr]].
  exists r. split; [exact Hr | reflexivity].
Qed.

Lemma row_get_single x v : row_get [(x, v)] x = v.
Proof. cbn [row_get]. now rewrite String.eqb_refl. Qed.

Lemma to_unpack_scalar df x :
  scalar_column df x -> to_unpack_dtypes df x = [].
Proof.
  intros H. unfold to_unpack_dtypes. cbn [rows filter_isin].
  apply filter_none. intros t Ht. cbn [rows distinct select_exprs] in Ht.
  apply nodup_In in Ht. apply in_map_iff in Ht. destruct Ht as [r' [<- Hr']].
  apply sampled_rows in Hr'. destruct Hr' as [r [Hr ->]].
  cbn [map fst snd]. rewrite row_get_single, row_get_single.
  specialize (H r Hr). destruct (row_get r x); try discriminate; reflexivity.
Qed.

Lemma to_unpack_array df x :
  array_column df x -> to_unpack_dtypes df x = [[("TYPEOF", VStr "ARRAY")]].
Proof.
  intros [Hne H]. unfold to_unpack_dtypes. cbn [rows filter_isin].
  assert (E : rows (distinct
                      (select_exprs [("TYPEOF", fun r => typeof (row_get r x))]
                         (limit detect_dtype_from_first (distinct (select [x] df)))))
              = [[("TYPEOF", VStr "ARRAY")]]).
  { cbn [rows distinct select_exprs]. apply nodup_constant.
    - intros E. apply map_eq_nil in E. revert E.
      cbn [rows limit distinct select].
      destruct (nodup Row_eq_dec (map (fun r => map (fun c => (c, row_get r c)) [x])
                                    (rows df))) as [ | a l] eqn:N.
      + exfalso. revert N. apply nodup_not_nil.
        destruct (rows df); [congruence | discriminate].
      + discriminate.
    - intros t Ht. apply in_map_iff in Ht. destruct Ht as [r' [<- Hr']].
      apply sampled_rows in Hr'. destruct Hr' as [r [Hr ->]].
      cbn [map fst snd]. rewrite row_get_single.
      destruct (H r Hr) as [l ->]. reflexivity. }
  rewrite E. reflexivity.
Qed.

(** The detection only looks at the values of the column. *)
Lemma to_unpack_ext df df' x :
  map (fun r => row_get r x) (rows df) = map (fun r => row_get r x) (rows df') ->
  to_unpack_dtypes df x = to_unpack_dtypes df' x.
Proof.
  intros H. unfold to_unpack_dtypes.
  assert (E : rows (select [x] df) = rows (select [x] df')).
  { cbn [rows select map].
    rewrite <- (map_map (fun r => row_get r x) (fun v => [(x, v)])).
    rewrite <- (map_map (fun r => row_get r x) (fun v => [(x, v)]) (rows df')).
    now rewrite H. }
  unfold filter_isin, distinct, select_exprs, limit. cbn [rows columns].
  now rewrite E.
Qed.

(** ** Claims on whole runs *)

Section WholeRuns.

Variable set_iter : list string -> list string.
Variable content_hash : Value -> Value.
Variables prefix suffix : string.

Abbreviation model := (model_nested_JSON_objects set_iter content_hash prefix suffix).
Abbreviation handler := (snowpark_main_handler set_iter content_hash prefix suffix).

Lemma handler_Ok fuel session input output max g0 df st :
  table session input = Some df ->
  model fuel df "ENTRY" 0 max (init_state g0) = (Ok tt, st) ->
  handler fuel session input output max g0
  = (Ok (collect_results (globals st)),
     logged st (results_records (collect_results (globals st))),
     save_all output (collect_results (globals st)) session).
Proof.
  intros Ht Hm. unfold snowpark_main_handler. rewrite Ht, Hm.
  rewrite persist_spec. reflexivity.
Qed.

Lemma handler_Raise fuel session input output max g0 df e st :
  table session input = Some df ->
  model fuel df "ENTRY" 0 max (init_state g0) = (Raise e, st) ->
  handler fuel session input output max g0 = (Raise e, st, session).
Proof.
  intros Ht Hm. unfold snowpark_main_handler. now rewrite Ht, Hm.
Qed.

Hypothesis set_iter_ok : set_iteration set_iter.

Lemma set_iter_sound l x : In x (set_iter l) -> In x l.
Proof. apply set_iter_ok. Qed.

Lemma set_iter_complete l x : In x l -> In x (set_iter l).
Proof. apply set_iter_ok. Qed.

Lemma set_iter_nil : set_iter [] = [].
Proof.
  destruct (set_iter []) as [ | x l] eqn:E; [reflexivity | ].
  exfalso. apply (proj2 (set_iter_ok [])) with (x := x). rewrite E. now left.
Qed.

Lemma set_iter_not_nil l : l <> [] -> set_iter l <> [].
Proof.
  destruct l as [ | x l]; [congruence | ]. intros _ E.
  assert (H : In x (set_iter (x :: l))) by (apply set_iter_complete; now left).
  rewrite E in H. exact H.
Qed.

Lemma set_iter_single x : set_iter [x] = [x].
Proof.
  destruct (set_iter_ok [x]) as [Hnd Hin].
  destruct (set_iter [x]) as [ | a l] eqn:E.
  - exfalso. apply (Hin x). now left.
  - assert (a = x) by (destruct (proj1 (Hin a) (or_introl eq_refl)) as [H | []];
                       now subst).
    subst a. f_equal. destruct l as [ | b l]; [reflexivity | ].
    exfalso. inversion Hnd as [ | ? ? Hn _]; subst. apply Hn.
    destruct (proj1 (Hin b) (or_intror (or_introl eq_refl))) as [H | []].
    subst b. now left.
Qed.

Lemma unprocessed_columns_In df processed c :
  In c (unprocessed_columns df processed)
  <-> In c (columns df)
      /\ contains "SHA256" c = false
      /\ contains "INGESTION_CTRL" c = false
      /\ set_in c processed = false.
Proof.
  unfold unprocessed_columns. rewrite filter_In. cbn [forallb].
  rewrite !andb_true_iff, !negb_true_iff. tauto.
Qed.

(** Once the fields of the table are processed, the next call finds no
    unprocessed field. *)
Lemma nothing_left df processed :
  (forall c, In c (unprocessed_columns df []) -> set_in c processed = true) ->
  cur_unprocessed_fields set_iter df processed = [].
Proof.
  intros H. unfold cur_unprocessed_fields.
  replace (unprocessed_columns df processed) with (@nil string);
    [apply set_iter_nil | ].
  symmetry. unfold unprocessed_columns. apply filter_none. intros c Hc.
  destruct (forallb (fun x => negb (contains x c)) ["SHA256"; "INGESTION_CTRL"])
    eqn:E; [ | reflexivity].
  rewrite H; [reflexivity | ].
  unfold unprocessed_columns. apply filter_In. split; [exact Hc | ].
  rewrite E. reflexivity.
Qed.

(** A call on a table whose unprocessed fields are all scalar: the table is
    recorded as it is, and the call below finds nothing to do. *)
Lemma flat_call fuel df path counter max st :
  (forall c, In c (unprocessed_columns df (processed_fields st)) ->
             scalar_column df c) ->
  unprocessed_columns df (processed_fields st) <> [] ->
  counter + 1 <> max ->
  exists st',
    model (S (S fuel)) df path counter max st = (Ok tt, st')
    /\ globals st' = dict_set (result_key prefix suffix path) df (globals st)
    /\ grows st st'.
Proof.
  intros Hflat Hne Hmax.
  rewrite model_step; [ | now apply set_iter_not_nil | exact Hmax ].
  unfold bind. rewrite for_each_scalars.
  - unfold after_loop, bind, globals_set. cbn [fst snd].
    rewrite model_terminal.
    + cbn [for_each]. unfold ret. eexists. split; [reflexivity | ].
      split; [reflexivity | ].
      intros x Hx. cbn [logged processed_fields].
      apply after_scalars_processed. right. exact Hx.
    + left. cbn [processed_fields]. apply nothing_left. intros c Hc.
      apply after_scalars_processed. cbn [logged processed_fields].
      destruct (set_in c (processed_fields st)) eqn:E; [now right | left].
      unfold cur_unprocessed_fields. apply set_iter_complete.
      apply unprocessed_columns_In. apply unprocessed_columns_In in Hc.
      tauto.
  - intros x Hx. apply to_unpack_scalar, Hflat.
    unfold cur_unprocessed_fields in Hx. now apply set_iter_sound in Hx.
Qed.

(** The run of the handler on a flat table, from a namespace that holds at
    most the result [ENTRY] of an earlier run. *)
Lemma flat_run fuel session input output max df g0 t :
  table session input = Some df ->
  (forall c, In c (columns df) -> scalar_column df c) ->
  unprocessed_columns df [] <> [] ->
  max <> 1 ->
  fresh_namespace g0 ->
  t = [] \/ (exists old, t = [(result_key prefix suffix "ENTRY", old)]) ->
  contains "INTERNAL_RESULT_" (prefix ++ "ENTRY" ++ suffix)%string = false ->
  exists st,
    handler (S (S fuel)) session input output max (g0 ++ t)
    = (Ok [((prefix ++ "ENTRY" ++ suffix)%string, df)], st,
       save_as_table (output ++ "." ++ prefix ++ "ENTRY" ++ suffix)%string df
         session)
    /\ globals st = g0 ++ [(result_key prefix suffix "ENTRY", df)].
Proof.
  intros Ht Hflat Hne Hmax Hg0 Htail Hname.
  destruct (@flat_call fuel df "ENTRY" 0 max (init_state (g0 ++ t)))
    as [st [Hrun [Hglobals _]]]; try assumption.
  { intros c Hc. apply Hflat. apply unprocessed_columns_In in Hc. tauto. }
  { lia. }
  cbn [init_state globals] in Hglobals.
  rewrite dict_set_fresh_app in Hglobals
    by (now apply result_key_not_fresh).
  assert (Hg : globals st = g0 ++ [(result_key prefix suffix "ENTRY", df)]).
  { rewrite Hglobals. f_equal. destruct Htail as [-> | [old ->]];
      [reflexivity | ].
    cbn [dict_set]. now rewrite String.eqb_refl. }
  eexists. split.
  - erewrite handler_Ok; [ | exact Ht | exact Hrun ]. rewrite Hg.
    rewrite collect_results_fresh_app by exact Hg0.
    unfold collect_results. cbn [fold_left fst snd].
    rewrite result_key_marked, replace_result_key by exact Hname.
    cbn [dict_set save_all fold_left fst snd]. reflexivity.
  - cbn [logged globals]. exact Hg.
Qed.

End WholeRuns.

(** C1, amended. With maximum recursion depth 1 the run of the handler
    completes without an error and logs the warning, and the only call of the
    recursive function returns before it records anything: the namespace and
    the processed-field set are as they were, so the mapping returned holds
    only what the namespace held before the run. From a namespace without
    earlier results the mapping is empty and nothing is written; the input
    table is not in it. This holds for every input table, with nested fields
    or without. *)
Theorem c1_depth_cap_one_records_nothing :
  forall (set_iter : list string -> list string)
         (content_hash : Value -> Value) (prefix suffix : string)
         (fuel : nat) (session : Session) (input output : string)
         (df : DataFrame) (g0 : dict DataFrame),
    table session input = Some df ->
    snowpark_main_handler set_iter content_hash prefix suffix (S fuel) session
      input output 1 g0
    = (Ok (collect_results g0),
       {| processed_fields := [];
          globals := g0;
          log := [start_record 1 df []; terminated_record 1]
                 ++ results_records (collect_results g0) |},
       save_all output (collect_results g0) session)
    /\ collect_results [] = []
    /\ save_all output [] session = session.
Proof.
  intros set_iter content_hash prefix suffix fuel session input output df g0 Ht.
  split; [ | split; reflexivity].
  erewrite handler_Ok; [ | exact Ht | apply model_terminal; now right ].
  reflexivity.
Qed.

Lemma c1_depth_cap_one_records_nothing_witness :
  table [("DB.RAW", c1_nested_table)] "DB.RAW" = Some c1_nested_table
  /\ snowpark_main_handler sample_set_iter sample_hash "" "" 1
       [("DB.RAW", c1_nested_table)] "DB.RAW" "OUT" 1 []
     = (Ok [],
        {| processed_fields := [];
           globals := [];
           log := [start_record 1 c1_nested_table []; terminated_record 1] |},
        [("DB.RAW", c1_nested_table)]).
Proof.
  split; [reflexivity | ].
  exact (proj1 (@c1_depth_cap_one_records_nothing sample_set_iter sample_hash
                  "" "" 0 [("DB.RAW", c1_nested_table)] "DB.RAW" "OUT"
                  c1_nested_table [] eq_refl)).
Defined.

(** C1 as stated fails: with depth cap 1 the input table is not returned as
    the terminal table [ENTRY]. *)
Lemma c1_counterexample :
  ~ (fst (fst (snowpark_main_handler sample_set_iter sample_hash "" "" 10
                 [("DB.RAW", c1_nested_table)] "DB.RAW" "OUT" 1 []))
     = Ok [("ENTRY", c1_nested_table)]).
Proof. vm_compute. discriminate. Qed.

Lemma dict_get_set_same (A : Type) (k : string) (v : A) (d : dict A) :
  dict_get k (dict_set k v d) = Some v.
Proof.
  induction d as [ | [k' v'] d IH]; cbn [dict_set dict_get].
  - now rewrite String.eqb_refl.
  - destruct (String.eqb k k') eqn:E; cbn [dict_get].
    + now rewrite String.eqb_refl.
    + now rewrite E.
Qed.

Lemma dict_set_idem (A : Type) (k : string) (v : A) (d : dict A) :
  dict_set k v (dict_set k v d) = dict_set k v d.
Proof.
  induction d as [ | [k' v'] d IH]; cbn [dict_set].
  - now rewrite String.eqb_refl.
  - destruct (String.eqb k k') eqn:E; cbn [dict_set].
    + now rewrite String.eqb_refl.
    + now rewrite E, IH.
Qed.

Lemma sample_set_iter_ok : set_iteration sample_set_iter.
Proof.
  intros l. split; [apply NoDup_nodup | intros x; apply nodup_In].
Qed.

(** C7, amended. Let a table hold only scalar values and have at least one
    column whose name contains neither [SHA256] nor [INGESTION_CTRL]; let
    the depth cap differ from 1, the namespace hold no earlier result, and
    the table name [prefix ENTRY suffix] contain no result marker. Then the
    run returns exactly one table, the input unchanged, under that name, and
    writes it to the output schema; and a second run, on the table just
    written and from the namespace the first run has left, returns the same
    single table again. *)
Theorem c7_flat_table_is_returned_unchanged :
  forall (set_iter : list string -> list string)
         (content_hash : Value -> Value) (prefix suffix : string)
         (fuel : nat) (session : Session) (input output : string) (max : Z)
         (df : DataFrame) (g0 : dict DataFrame),
    set_iteration set_iter ->
    table session input = Some df ->
    (forall c, In c (columns df) -> scalar_column df c) ->
    (exists c, In c (columns df)
               /\ contains "SHA256" c = false
               /\ contains "INGESTION_CTRL" c = false) ->
    max <> 1 ->
    fresh_namespace g0 ->
    contains "INTERNAL_RESULT_" (prefix ++ "ENTRY" ++ suffix)%string = false ->
    let name := (prefix ++ "ENTRY" ++ suffix)%string in
    let written := (output ++ "." ++ name)%string in
    let session1 := save_as_table written df session in
    exists st1 st2,
      snowpark_main_handler set_iter content_hash prefix suffix (S (S fuel))
        session input output max g0
      = (Ok [(name, df)], st1, session1)
      /\ table session1 written = Some df
      /\ snowpark_main_handler set_iter content_hash prefix suffix (S (S fuel))
           session1 written output max (globals st1)
         = (Ok [(name, df)], st2, session1).
Proof.
  intros set_iter content_hash prefix suffix fuel session input output max df
    g0 Hiter Ht Hflat [c [Hc [Hc1 Hc2]]] Hmax Hg0 Hname name written session1.
  assert (Hne : unprocessed_columns df [] <> []).
  { intros E.
    assert (H : In c (unprocessed_columns df [])).
    { unfold unprocessed_columns. apply filter_In. split; [exact Hc | ].
      cbn [forallb]. rewrite Hc1, Hc2. reflexivity. }
    rewrite E in H. exact H. }
  destruct (@flat_run set_iter content_hash prefix suffix Hiter fuel session
              input output max df g0 [] Ht Hflat Hne Hmax Hg0
              (or_introl eq_refl) Hname) as [st1 [H1 G1]].
  rewrite app_nil_r in H1.
  assert (Ht1 : table session1 written = Some df)
    by apply dict_get_set_same.
  destruct (@flat_run set_iter content_hash prefix suffix Hiter fuel session1
              written output max df g0
              [(result_key prefix suffix "ENTRY", df)] Ht1 Hflat Hne Hmax Hg0
              (or_intror (ex_intro _ df eq_refl)) Hname) as [st2 [H2 _]].
  exists st1, st2. split; [exact H1 | ]. split; [exact Ht1 | ].
  rewrite G1, H2. f_equal. apply dict_set_idem.
Qed.

Lemma c7_flat_table_is_returned_unchanged_witness :
  exists st1 st2,
    snowpark_main_handler sample_set_iter sample_hash "" "" 2
      [("DB.RAW", c7_flat_table)] "DB.RAW" "OUT" 100 []
    = (Ok [("ENTRY", c7_flat_table)], st1,
       [("DB.RAW", c7_flat_table); ("OUT.ENTRY", c7_flat_table)])
    /\ snowpark_main_handler sample_set_iter sample_hash "" "" 2
         [("DB.RAW", c7_flat_table); ("OUT.ENTRY", c7_flat_table)]
         "OUT.ENTRY" "OUT" 100 (globals st1)
       = (Ok [("ENTRY", c7_flat_table)], st2,
          [("DB.RAW", c7_flat_table); ("OUT.ENTRY", c7_flat_table)]).
Proof.
  destruct (@c7_flat_table_is_returned_unchanged sample_set_iter sample_hash
              "" "" 0 [("DB.RAW", c7_flat_table)] "DB.RAW" "OUT" 100
              c7_flat_table [] sample_set_iter_ok eq_refl)
    as [st1 [st2 [H1 [_ H2]]]].
  - intros c Hc r Hr. simpl in Hc, Hr.
    destruct Hr as [<- | [<- | []]];
      destruct Hc as [<- | [<- | [<- | []]]]; reflexivity.
  - exists "ID". split; [now left | split; reflexivity].
  - discriminate.
  - intros k [].
  - reflexivity.
  - exists st1, st2. split; [exact H1 | exact H2].
Defined.

(** The table with only a hash column is an output of the program. *)
Example hash_only_table_is_an_output :
  fst (fst (snowpark_main_handler sample_set_iter sample_hash "" "" 10
              [("DB.RAW", c7_root_table)] "DB.RAW" "OUT" 100 []))
  = Ok [("ENTRY", c7_hash_only_table);
        ("ITEMS",
         {| columns := ["ITEMS_SHA256"; "ITEMS"];
            rows := [[("ITEMS_SHA256", VStr "sha256-of-array-of-some");
                      ("ITEMS", VNum 1)];
                     [("ITEMS_SHA256", VStr "sha256-of-array-of-some");
                      ("ITEMS", VNum 2)]] |})].
Proof. vm_compute. reflexivity. Qed.

(** C7 as stated fails on a table that has only bookkeeping columns, such as
    a root that is left with its hash column: it holds only scalars, but the
    first call finds no unprocessed field and returns before it records the
    table, so the run does not return it. *)
Lemma c7_counterexample :
  ~ (fst (fst (snowpark_main_handler sample_set_iter sample_hash "" "" 10
                 [("DB.RAW", c7_hash_only_table)] "DB.RAW" "OUT" 100 []))
     = Ok [("ENTRY", c7_hash_only_table)]).
Proof. vm_compute. discriminate. Qed.

(** ** Claims on the errors *)

(** The turn of the loop for a field with more than one kind among its
    sampled values: the exception is raised before anything is done to the
    field, and its message is the same for every field. *)
Lemma loop_body_ambiguous content_hash x df new_dfs st :
  (1 < List.length (to_unpack_dtypes df x))%nat ->
  loop_body content_hash x (df, new_dfs) st
  = (Raise (TypeError ambiguous_message), logged st [current_field_record x]).
Proof.
  intros H. unfold loop_body, bind, logger, raise.
  replace (Z.of_nat (List.length (to_unpack_dtypes df x)) >? 1) with true
    by (symmetry; apply Z.gtb_lt; lia).
  reflexivity.
Qed.

(** C2, at the failing input. The field [DATA] holds an array and an object.
    The run raises the type error, returns no mapping and writes nothing, and
    no table has been recorded; but the message of the error is the format
    string itself, with its placeholder, and does not name [DATA]. *)
Theorem c2_ambiguous_field_error_does_not_name_the_field :
  snowpark_main_handler sample_set_iter sample_hash "" "" 10
    [("DB.RAW", c2_ambiguous_table)] "DB.RAW" "OUT" 100 []
  = (Raise (TypeError ambiguous_message),
     {| processed_fields := ["ID"];
        globals := [];
        log := [start_record 1 c2_ambiguous_table [];
                current_field_record "ID"; end_of_path_record "ID";
                current_field_record "DATA"] |},
     [("DB.RAW", c2_ambiguous_table)])
  /\ contains "DATA" ambiguous_message = false
  /\ contains "%s" ambiguous_message = true.
Proof. vm_compute. repeat split. Qed.

Lemma loop_body_object_no_keys content_hash x df new_dfs st :
  to_unpack_dtypes df x = [[("TYPEOF", VStr "OBJECT")]] ->
  object_keys df x = [] ->
  loop_body content_hash x (df, new_dfs) st
  = (Raise unpack_error,
     logged st [current_field_record x; is_a_record x "OBJECT";
                mkLog DEBUG "%s obj has %d subfields: %s"
                  [AStr x; AInt 0; AStrs []]]).
Proof.
  intros Hk Hkeys. unfold loop_body. rewrite Hk.
  cbn [List.length Z.of_nat Pos.of_succ_nat Z.gtb Z.compare Pos.compare
       Pos.compare_cont Z.eqb Pos.eqb hd row_get str_of].
  change (String.eqb "TYPEOF" "TYPEOF") with true. cbv iota. cbn [str_of].
  change (String.eqb "OBJECT" "ARRAY") with false.
  change (String.eqb "OBJECT" "OBJECT") with true. cbv iota.
  unfold bind at 1. unfold logger at 1.
  unfold bind at 1. unfold logger at 1.
  unfold bind at 1. unfold bind at 1.
  rewrite expand_object_subfields_no_keys by exact Hkeys.
  unfold logged. cbn [processed_fields globals log].
  rewrite <- !app_assoc. reflexivity.
Qed.

(** An object column that holds only empty objects is classified as OBJECT
    and has no keys. *)
Lemma empty_objects_column df x :
  x <> "KEY" ->
  rows df <> [] ->
  (forall r, In r (rows df) -> row_get r x = VObj []) ->
  to_unpack_dtypes df x = [[("TYPEOF", VStr "OBJECT")]]
  /\ object_keys df x = [].
Proof.
  intros Hx Hne H. split.
  - unfold to_unpack_dtypes. cbn [rows filter_isin].
    assert (E : rows (distinct
                        (select_exprs [("TYPEOF", fun r => typeof (row_get r x))]
                           (limit detect_dtype_from_first (distinct (select [x] df)))))
                = [[("TYPEOF", VStr "OBJECT")]]).
    { cbn [rows distinct select_exprs]. apply nodup_constant.
      - intros E. apply map_eq_nil in E. revert E.
        cbn [rows limit distinct select].
        destruct (nodup Row_eq_dec
                    (map (fun r => map (fun c => (c, row_get r c)) [x]) (rows df)))
          as [ | a l] eqn:N.
        + exfalso. revert N. apply nodup_not_nil.
          destruct (rows df); [congruence | discriminate].
        + discriminate.
      - intros t Ht. apply in_map_iff in Ht. destruct Ht as [r' [<- Hr']].
        apply sampled_rows in Hr'. destruct Hr' as [r [Hr ->]].
        cbn [map fst snd]. rewrite row_get_single. now rewrite (H r Hr). }
    rewrite E. reflexivity.
  - unfold object_keys.
    assert (E : rows (distinct (select [x] df)) = [[(x, VObj [])]]).
    { cbn [rows distinct select]. apply nodup_constant.
      - destruct (rows df); [congruence | discriminate].
      - intros t Ht. apply in_map_iff in Ht. destruct Ht as [r [<- Hr]].
        cbn [map]. now rewrite (H r Hr). }
    unfold join_table_function. rewrite E.
    cbn [join_rows]. rewrite row_get_single.
    cbn [flatten map app].
    unfold distinct, filter_not_null, select, flatten_row.
    cbn [rows map row_get].
    replace (String.eqb "KEY" x) with false
      by (symmetry; apply String.eqb_neq; congruence).
    reflexivity.
Qed.

(** C10. An object field without keys makes [expand_object_subfields] raise
    the unpacking error instead of returning the table. In the run of
    the handler: if the first call reaches, after successful turns for the
    fields [pre], a field [f] that is classified as OBJECT and has no keys,
    then the handler raises that error, returns no mapping and writes
    nothing. A column, not called [KEY], in which every value is the empty
    object is such a field. *)
Theorem c10_object_without_keys_aborts_the_run :
  forall (set_iter : list string -> list string)
         (content_hash : Value -> Value) (prefix suffix : string),
    (forall df f st,
       object_keys df f = [] ->
       expand_object_subfields df f st
       = (Raise unpack_error,
          logged st [mkLog DEBUG "%s obj has %d subfields: %s"
                       [AStr f; AInt 0; AStrs []]]))
    /\ (forall fuel session input output max df g0 pre f post d new_dfs st1,
          table session input = Some df ->
          max <> 1 ->
          cur_unprocessed_fields set_iter df [] = pre ++ f :: post ->
          for_each pre (loop_body content_hash) (df, [])
            (logged (init_state g0) [start_record 1 df []])
          = (Ok (d, new_dfs), st1) ->
          to_unpack_dtypes d f = [[("TYPEOF", VStr "OBJECT")]] ->
          object_keys d f = [] ->
          exists st,
            snowpark_main_handler set_iter content_hash prefix suffix (S fuel)
              session input output max g0
            = (Raise unpack_error, st, session)
            /\ globals st = globals st1
            /\ processed_fields st = processed_fields st1)
    /\ (forall df f,
          f <> "KEY" ->
          rows df <> [] ->
          (forall r, In r (rows df) -> row_get r f = VObj []) ->
          to_unpack_dtypes df f = [[("TYPEOF", VStr "OBJECT")]]
          /\ object_keys df f = []).
Proof.
  intros set_iter content_hash prefix suffix. split; [ | split].
  - intros df f st H. now apply expand_object_subfields_no_keys.
  - intros fuel session input output max df g0 pre f post d new_dfs st1
      Ht Hmax Hcur Hpre Hk Hkeys.
    eexists. split.
    + eapply handler_Raise; [exact Ht | ].
      rewrite model_step.
      * change (processed_fields (init_state g0)) with (@nil string).
        change (0 + 1) with 1. rewrite Hcur.
        unfold bind at 1. rewrite for_each_app. unfold bind at 1.
        rewrite Hpre. cbn [for_each]. unfold bind at 1.
        rewrite loop_body_object_no_keys by assumption. reflexivity.
      * change (processed_fields (init_state g0)) with (@nil string).
        rewrite Hcur. destruct pre; discriminate.
      * lia.
    + split; reflexivity.
  - intros df f. apply empty_objects_column.
Qed.

Lemma c10_object_without_keys_aborts_the_run_witness :
  exists st,
    snowpark_main_handler sample_set_iter sample_hash "" "" 1
      [("DB.RAW", c10_empty_objects_table)] "DB.RAW" "OUT" 100 []
    = (Raise unpack_error, st, [("DB.RAW", c10_empty_objects_table)])
    /\ globals st = []
    /\ processed_fields st = ["ID"].
Proof.
  destruct (@c10_object_without_keys_aborts_the_run sample_set_iter
              sample_hash "" "") as [_ [H _]].
  apply (H 0%nat [("DB.RAW", c10_empty_objects_table)] "DB.RAW" "OUT" 100
           c10_empty_objects_table [] ["ID"] "META" []
           c10_empty_objects_table []
           (after_scalars ["ID"]
              (logged (init_state []) [start_record 1 c10_empty_objects_table []])));
    solve [reflexivity | discriminate].
Defined.

(** ** The lineage of an array field *)

Lemma reduced_root_columns content_hash f df :
  columns (reduced_root content_hash f df)
  = filter (fun c => negb (mem c [f]))
      (filter (fun c => negb (mem c [(f ++ "_SHA256")%string])) (columns df))
    ++ [(f ++ "_SHA256")%string].
Proof.
  unfold reduced_root, with_hash, with_column, with_columns.
  cbn [columns map fst]. rewrite filter_app. f_equal. cbn [filter].
  replace (mem (f ++ "_SHA256")%string [f]) with false; [reflexivity | ].
  symmetry. apply mem_false. intros [E | []]. symmetry in E.
  now apply hash_field_neq in E.
Qed.

Lemma drop_field_with_hash content_hash f df :
  drop [f] (with_hash content_hash f df) = inr (reduced_root content_hash f df).
Proof.
  unfold drop.
  destruct (filter (fun c => negb (mem c [f]))
              (columns (with_hash content_hash f df))) as [ | c cs] eqn:E.
  - change (columns (reduced_root content_hash f df) = []) in E.
    rewrite reduced_root_columns in E.
    apply app_eq_nil in E. destruct E as [_ E]. discriminate.
  - unfold reduced_root. rewrite E. reflexivity.
Qed.

Lemma reduced_root_not_in content_hash f df :
  ~ In f (columns (reduced_root content_hash f df)).
Proof.
  unfold reduced_root. cbn [columns]. intros H. apply filter_In in H.
  destruct H as [_ H]. unfold mem in H. cbn [existsb] in H.
  now rewrite String.eqb_refl in H.
Qed.

(** The rows of the reduced root keep the values of the other columns. *)
Lemma reduced_root_row_get content_hash f df r' c :
  In r' (rows (reduced_root content_hash f df)) ->
  c <> f -> c <> (f ++ "_SHA256")%string ->
  exists r, In r (rows df) /\ row_get r' c = row_get r c.
Proof.
  unfold reduced_root. cbn [rows]. rewrite with_hash_rows, map_map.
  intros H Hc Hh. apply in_map_iff in H. destruct H as [r [<- Hr]].
  exists r. split; [exact Hr | ].
  rewrite (row_get_filter (fun c => negb (mem c [f]))).
  - now apply hash_row_other.
  - apply negb_true_iff, mem_false. intros [E | []]. congruence.
Qed.

(** The turn of the loop for an array field. *)
Lemma loop_body_array content_hash x df new_dfs st :
  to_unpack_dtypes df x = [[("TYPEOF", VStr "ARRAY")]] ->
  x <> "VALUE" ->
  loop_body content_hash x (df, new_dfs) st
  = (Ok (reduced_root content_hash x df,
         dict_set x (child_table content_hash x df) new_dfs),
     logged st (array_turn_records content_hash x df)).
Proof.
  intros Hk Hx. unfold loop_body. rewrite Hk.
  cbn [List.length Z.of_nat Pos.of_succ_nat Z.gtb Z.compare Pos.compare
       Pos.compare_cont Z.eqb Pos.eqb hd row_get str_of].
  change (String.eqb "TYPEOF" "TYPEOF") with true. cbv iota. cbn [str_of].
  change (String.eqb "ARRAY" "ARRAY") with true. cbv iota. cbv zeta.
  fold (with_hash content_hash x df).
  unfold bind at 1. unfold logger at 1.
  unfold bind at 1. unfold logger at 1.
  unfold bind at 1. unfold bind at 1.
  rewrite flatten_array_spec by exact Hx.
  unfold ret at 1. unfold bind at 1. cbn [fst snd].
  rewrite drop_field_with_hash. unfold lift, ret.
  unfold logged, array_turn_records, child_table, count.
  cbn [processed_fields globals log rows].
  rewrite <- !app_assoc. reflexivity.
Qed.

Lemma child_table_scalar content_hash f df :
  mem f FLATTEN_COLS = false ->
  (forall r l e, In r (rows df) -> row_get r f = VArr l -> In e l ->
                 is_scalar e = true) ->
  scalar_column (child_table content_hash f df) f.
Proof.
  intros Hf H r Hr. unfold child_table in Hr. cbn [rows] in Hr.
  unfold child_rows in Hr. apply in_flat_map in Hr.
  destruct Hr as [p [Hp Hr]]. apply in_map_iff in Hr.
  destruct Hr as [e [<- He]]. rewrite row_get_pair_f.
  cbn [rows distinct] in Hp. apply nodup_In in Hp.
  rewrite select_with_hash_rows in Hp. apply in_map_iff in Hp.
  destruct Hp as [r0 [<- Hr0]]. rewrite row_get_pair_f in He.
  destruct (row_get r0 f) as [ | b | n | s | [ | x l] | l ] eqn:E;
    cbn [explode_outer] in He;
    try (destruct He as [<- | []]; reflexivity).
  eapply H; [exact Hr0 | exact E | exact He].
Qed.

Section ArrayLineage.

Variable set_iter : list string -> list string.
Variable content_hash : Value -> Value.
Variables prefix suffix : string.
Hypothesis set_iter_ok : set_iteration set_iter.

Variable F : string.
Variable df : DataFrame.
Hypothesis F_free : mem F FLATTEN_COLS = false.
Hypothesis F_field : In F (unprocessed_columns df []).
Hypothesis F_arrays : array_column df F.
Hypothesis others_scalar :
  forall c, In c (columns df) -> c <> F -> scalar_column df c.
Hypothesis elements_scalar :
  forall r l e, In r (rows df) -> row_get r F = VArr l -> In e l ->
                is_scalar e = true.

Abbreviation model := (model_nested_JSON_objects set_iter content_hash prefix suffix).
Abbreviation reduced := (reduced_root content_hash F df).
Abbreviation child := (child_table content_hash F df).

Lemma not_bookkeeping_neq_hash c :
  contains "SHA256" c = false -> c <> (F ++ "_SHA256")%string.
Proof.
  intros H E. subst c. rewrite hash_field_contains in H. discriminate.
Qed.

Lemma reduced_scalar c :
  In c (unprocessed_columns df []) -> c <> F -> scalar_column reduced c.
Proof.
  intros Hc Hn r' Hr'. apply unprocessed_columns_In in Hc.
  destruct Hc as [Hc [Hs _]].
  destruct (@reduced_root_row_get content_hash F df r' c Hr' Hn
              (not_bookkeeping_neq_hash Hs)) as [r [Hr ->]].
  now apply others_scalar.
Qed.

(** The loop of the first call: every field but [F] is marked processed,
    [F] is exploded and dropped. *)
Lemma root_loop st :
  processed_fields st = [] ->
  exists st',
    for_each (cur_unprocessed_fields set_iter df []) (loop_body content_hash)
      (df, []) st
    = (Ok (reduced, [(F, child)]), st')
    /\ globals st' = globals st
    /\ (forall x, set_in x (processed_fields st') = true
                  <-> In x (unprocessed_columns df []) /\ x <> F).
Proof.
  intros Hp. unfold cur_unprocessed_fields.
  pose proof (proj1 (set_iter_ok (unprocessed_columns df []))) as Hnd.
  pose proof (set_iter_complete set_iter_ok _ _ F_field) as Hin.
  destruct (in_split _ _ Hin) as [pre [post Hcur]].
  rewrite Hcur in Hnd. apply NoDup_remove_2 in Hnd.
  assert (Hmem : forall x, In x (pre ++ post)
                           <-> In x (unprocessed_columns df []) /\ x <> F).
  { intros x. split.
    - intros Hx. split.
      + apply (set_iter_sound set_iter_ok). rewrite Hcur.
        apply in_app_or in Hx. apply in_or_app.
        destruct Hx; [now left | right; now right].
      + intros ->. contradiction.
    - intros [Hx Hn]. apply (set_iter_complete set_iter_ok) in Hx.
      rewrite Hcur in Hx. apply in_app_or in Hx. apply in_or_app.
      destruct Hx as [Hx | [Hx | Hx]]; [now left | congruence | now right]. }
  rewrite Hcur, for_each_app. unfold bind at 1.
  rewrite for_each_scalars.
  2:{ intros x Hx. apply to_unpack_scalar.
      destruct (proj1 (Hmem x) (in_or_app _ _ _ (or_introl Hx))) as [Hu Hn].
      apply others_scalar; [ | exact Hn].
      apply unprocessed_columns_In in Hu. tauto. }
  cbn [for_each]. unfold bind at 1.
  rewrite loop_body_array
    by (first [apply to_unpack_array; assumption
              | apply free_not_value; assumption]).
  cbn [dict_set]. rewrite for_each_scalars.
  2:{ intros x Hx. apply to_unpack_scalar.
      destruct (proj1 (Hmem x) (in_or_app _ _ _ (or_intror Hx))) as [Hu Hn].
      now apply reduced_scalar. }
  eexists. split; [reflexivity | ]. split; [reflexivity | ].
  intros x. rewrite after_scalars_processed. cbn [logged processed_fields].
  rewrite after_scalars_processed, Hp, <- Hmem, in_app_iff.
  cbn [set_in set_mem]. split.
  - intros [H | [H | H]]; [now right | now left | discriminate].
  - intros [H | H]; [right; now left | now left].
Qed.

Lemma child_unprocessed processed :
  set_in F processed = false ->
  unprocessed_columns child processed = [F].
Proof.
  intros H. apply unprocessed_columns_In in F_field.
  destruct F_field as [_ [H1 [H2 _]]].
  unfold unprocessed_columns, child_table. cbn [columns filter forallb].
  rewrite hash_field_contains, H1, H2, H. reflexivity.
Qed.

(** The call of the first call on the table it has reduced, and then on the
    child table. *)
Lemma after_root_loop fuel max st :
  max <> 2 ->
  (forall x, set_in x (processed_fields st) = true
             <-> In x (unprocessed_columns df []) /\ x <> F) ->
  exists st',
    after_loop set_iter content_hash prefix suffix (S (S fuel)) "ENTRY" 1 max
      (reduced, [(F, child)]) st
    = (Ok tt, st')
    /\ globals st'
       = dict_set (result_key prefix suffix F) child
           (dict_set (result_key prefix suffix "ENTRY") reduced (globals st)).
Proof.
  intros Hmax Hp. unfold after_loop. cbn [fst snd].
  unfold bind at 1. unfold globals_set at 1.
  unfold bind at 1. rewrite model_terminal.
  2:{ left. cbn [processed_fields]. apply (nothing_left set_iter_ok).
      intros c Hc. apply Hp. apply unprocessed_columns_In in Hc.
      destruct Hc as [Hc [H1 [H2 _]]].
      assert (Hn : c <> F).
      { intros ->. now apply (@reduced_root_not_in content_hash F df). }
      split; [ | exact Hn].
      apply unprocessed_columns_In. repeat split; try assumption.
      fold (columns reduced) in Hc. rewrite reduced_root_columns in Hc.
      apply in_app_or in Hc. destruct Hc as [Hc | [Hc | []]].
      - apply filter_In in Hc. destruct Hc as [Hc _].
        apply filter_In in Hc. tauto.
      - subst c. rewrite hash_field_contains in H1. discriminate. }
  cbn [for_each]. unfold bind at 1. unfold bind at 1. unfold logger at 1.
  cbn [fst snd].
  match goal with
  | |- context [model _ child F 1 max ?s] =>
      destruct (@flat_call set_iter content_hash prefix suffix set_iter_ok
                  fuel child F 1 max s) as [st' [Hrun [Hg _]]]
  end.
  - cbn [processed_fields logged]. intros c Hc.
    rewrite child_unprocessed in Hc.
    + destruct Hc as [<- | []].
      now apply child_table_scalar.
    + destruct (set_in F (processed_fields st)) eqn:E; [ | reflexivity].
      apply Hp in E. destruct E as [_ E]. congruence.
  - cbn [processed_fields logged]. rewrite child_unprocessed; [discriminate | ].
    destruct (set_in F (processed_fields st)) eqn:E; [ | reflexivity].
    apply Hp in E. destruct E as [_ E]. congruence.
  - lia.
  - rewrite Hrun. unfold ret. exists st'. split; [reflexivity | ].
    rewrite Hg. reflexivity.
Qed.

End ArrayLineage.

(** ** The results and their persistence *)

Lemma dict_get_set_other (A : Type) (k k' : string) (v : A) (d : dict A) :
  k <> k' -> dict_get k (dict_set k' v d) = dict_get k d.
Proof.
  intros N. induction d as [ | [k2 v2] d IH]; cbn [dict_set dict_get].
  - apply String.eqb_neq in N. now rewrite N.
  - destruct (String.eqb k' k2) eqn:E; cbn [dict_get].
    + apply String.eqb_eq in E. subst k2.
      apply String.eqb_neq in N. now rewrite N.
    + now rewrite IH.
Qed.

Lemma written_name_inj (output a b : string) :
  (output ++ "." ++ a)%string = (output ++ "." ++ b)%string -> a = b.
Proof. intros H. apply append_inj_l in H. now apply (append_inj_l ".") in H. Qed.

Lemma save_all_get_other output results s name :
  ~ In name (keys results) ->
  dict_get (output ++ "." ++ name)%string (save_all output results s)
  = dict_get (output ++ "." ++ name)%string s.
Proof.
  unfold save_all, keys. revert s.
  induction results as [ | [n t] results IH]; intros s H; [reflexivity | ].
  cbn [fold_left fst snd]. rewrite IH.
  - unfold save_as_table. apply dict_get_set_other. intros E.
    apply written_name_inj in E. apply H. now left.
  - intros Hin. apply H. now right.
Qed.

(** Every table of the results is in the session afterwards, under its
    name in the output schema, whatever was there before. *)
Lemma save_all_get output results s name t :
  NoDup (keys results) -> In (name, t) results ->
  table (save_all output results s) (output ++ "." ++ name)%string = Some t.
Proof.
  unfold table. revert s.
  induction results as [ | [n t'] results IH]; intros s Hnd Hin; [destruct Hin | ].
  unfold keys in Hnd. cbn [map fst] in Hnd. inversion Hnd as [ | ? ? Hn Hnd']; subst.
  destruct Hin as [E | Hin].
  - inversion E; subst. unfold save_all. cbn [fold_left fst snd].
    fold (save_all output results (save_as_table (output ++ "." ++ name)%string t s)).
    rewrite save_all_get_other by exact Hn. apply dict_get_set_same.
  - unfold save_all. cbn [fold_left]. apply IH; assumption.
Qed.

Lemma NoDup_keys_dict_set (A : Type) (k : string) (v : A) (d : dict A) :
  NoDup (keys d) -> NoDup (keys (dict_set k v d)).
Proof.
  unfold keys. induction d as [ | [k' v'] d IH]; cbn [dict_set map fst]; intros H.
  - constructor; [intros [] | constructor].
  - inversion H as [ | ? ? Hn Hd]; subst.
    destruct (String.eqb k k') eqn:E; cbn [map fst].
    + apply String.eqb_eq in E. subst k'. now constructor.
    + constructor; [ | now apply IH].
      intros Hin. apply (@keys_dict_set A k v d k') in Hin.
      destruct Hin as [-> | Hin]; [ | contradiction].
      now rewrite String.eqb_refl in E.
Qed.

Lemma collect_results_keys (g : dict DataFrame) :
  NoDup (keys (collect_results g))
  /\ forall name, In name (keys (collect_results g)) ->
       exists k, In k (keys g)
                 /\ contains "INTERNAL_RESULT" k = true
                 /\ name = replace "INTERNAL_RESULT_" "" k.
Proof.
  unfold collect_results.
  assert (G : forall acc,
             NoDup (keys acc) ->
             NoDup (keys (fold_left
                      (fun acc kv =>
                         if contains "INTERNAL_RESULT" (fst kv)
                         then dict_set (replace "INTERNAL_RESULT_" "" (fst kv))
                                (snd kv) acc
                         else acc) g acc))
             /\ forall name,
                  In name (keys (fold_left
                      (fun acc kv =>
                         if contains "INTERNAL_RESULT" (fst kv)
                         then dict_set (replace "INTERNAL_RESULT_" "" (fst kv))
                                (snd kv) acc
                         else acc) g acc)) ->
                  In name (keys acc)
                  \/ exists k, In k (keys g)
                               /\ contains "INTERNAL_RESULT" k = true
                               /\ name = replace "INTERNAL_RESULT_" "" k).
  { induction g as [ | [k v] g IH]; intros acc Hacc; cbn [fold_left fst snd].
    - split; [exact Hacc | intros name H; now left].
    - destruct (contains "INTERNAL_RESULT" k) eqn:E.
      + destruct (IH (dict_set (replace "INTERNAL_RESULT_" "" k) v acc)
                    (@NoDup_keys_dict_set _ _ _ _ Hacc)) as [H1 H2].
        split; [exact H1 | ]. intros name Hn.
        destruct (H2 name Hn) as [H | [k' [Hk' [Hm He]]]].
        * apply keys_dict_set in H. destruct H as [-> | H]; [right | now left].
          exists k. split; [now left | split; [exact E | reflexivity]].
        * right. exists k'. split; [now right | split; assumption].
      + destruct (IH acc Hacc) as [H1 H2]. split; [exact H1 | ].
        intros name Hn. destruct (H2 name Hn) as [H | [k' [Hk' [Hm He]]]];
          [now left | right].
        exists k'. split; [now right | split; assumption]. }
  destruct (G [] (NoDup_nil _)) as [H1 H2]. split; [exact H1 | ].
  intros name Hn. destruct (H2 name Hn) as [[] | H]. exact H.
Qed.

(** What a successful run of the handler returns and writes, for any input:
    the names of the returned tables are result keys without their marker,
    and each returned table is in the session under its name. *)
Lemma handler_results set_iter content_hash prefix suffix fuel session input
    output max g0 results st session' :
  snowpark_main_handler set_iter content_hash prefix suffix fuel session input
    output max g0 = (Ok results, st, session') ->
  fresh_namespace g0 ->
  (forall name, In name (keys results) ->
     exists path,
       name = replace "INTERNAL_RESULT_" "" (result_key prefix suffix path))
  /\ (forall name t, In (name, t) results ->
        table session' (output ++ "." ++ name)%string = Some t).
Proof.
  unfold snowpark_main_handler. intros H Hg0.
  destruct (table session input) as [df | ]; [ | discriminate].
  destruct (model_nested_JSON_objects set_iter content_hash prefix suffix fuel
              df "ENTRY" 0 max (init_state g0)) as [[[] | e | ] st1] eqn:E;
    [ | discriminate | discriminate].
  rewrite persist_spec in H. inversion H; subst. clear H.
  destruct (collect_results_keys (globals st1)) as [Hnd Hkeys]. split.
  - intros name Hn. destruct (Hkeys name Hn) as [k [Hk [Hm ->]]].
    destruct (@named_model set_iter content_hash prefix suffix fuel df "ENTRY"
                0 max _ _ _ E k Hk) as [H0 | [path ->]].
    + apply Hg0 in H0. congruence.
    + now exists path.
  - intros name t Hin. now apply save_all_get.
Qed.

Lemma entry_items_names_differ (prefix suffix : string) :
  (prefix ++ "ENTRY" ++ suffix)%string <> (prefix ++ "ITEMS" ++ suffix)%string.
Proof. intros E. apply append_inj_l in E. discriminate. Qed.

(** C8. Let the root table have the array field [ITEMS], with scalar
    elements, next to scalar columns; let the depth cap be neither 1 nor 2,
    the namespace hold no earlier result and the two table names contain no
    result marker. Then the run returns exactly two tables: under
    [prefix ENTRY suffix] the root with the hash column added and the column
    [ITEMS] dropped, and under [prefix ITEMS suffix] the exploded child with
    the columns hash and [ITEMS]; both are written to the output schema
    under these names. In general, for every input: the name of every
    returned table is the key [INTERNAL_RESULT_ prefix path suffix] of some
    lineage path without the marker, and every returned table is in the
    session afterwards under its name in the output schema, replacing what
    was there. *)
Theorem c8_array_field_gives_entry_and_child_tables :
  forall (set_iter : list string -> list string)
         (content_hash : Value -> Value) (prefix suffix : string),
    (forall (fuel : nat) (session : Session) (input output : string) (max : Z)
            (df : DataFrame) (g0 : dict DataFrame),
       set_iteration set_iter ->
       table session input = Some df ->
       In "ITEMS" (columns df) ->
       array_column df "ITEMS" ->
       (forall c, In c (columns df) -> c <> "ITEMS" -> scalar_column df c) ->
       (forall r l e, In r (rows df) -> row_get r "ITEMS" = VArr l ->
                      In e l -> is_scalar e = true) ->
       max <> 1 -> max <> 2 ->
       fresh_namespace g0 ->
       contains "INTERNAL_RESULT_" (prefix ++ "ENTRY" ++ suffix)%string = false ->
       contains "INTERNAL_RESULT_" (prefix ++ "ITEMS" ++ suffix)%string = false ->
       let entry := (prefix ++ "ENTRY" ++ suffix)%string in
       let items := (prefix ++ "ITEMS" ++ suffix)%string in
       let reduced := reduced_root content_hash "ITEMS" df in
       let child := child_table content_hash "ITEMS" df in
       exists st,
         snowpark_main_handler set_iter content_hash prefix suffix
           (S (S (S fuel))) session input output max g0
         = (Ok [(entry, reduced); (items, child)], st,
            save_as_table (output ++ "." ++ items)%string child
              (save_as_table (output ++ "." ++ entry)%string reduced session))
         /\ ~ In "ITEMS" (columns reduced)
         /\ columns child = ["ITEMS_SHA256"; "ITEMS"])
    /\ (forall fuel session input output max g0 results st session',
          snowpark_main_handler set_iter content_hash prefix suffix fuel
            session input output max g0 = (Ok results, st, session') ->
          fresh_namespace g0 ->
          (forall name, In name (keys results) ->
             exists path,
               name = replace "INTERNAL_RESULT_" ""
                        (result_key prefix suffix path)
               /\ (contains "INTERNAL_RESULT_"
                     (prefix ++ path ++ suffix)%string = false ->
                   name = (prefix ++ path ++ suffix)%string))
          /\ (forall name t, In (name, t) results ->
                table session' (output ++ "." ++ name)%string = Some t)).
Proof.
  intros set_iter content_hash prefix suffix. split.
  - intros fuel session input output max df g0 Hiter Ht Hcol Harr Hscal Helem
      Hmax1 Hmax2 Hg0 HnE HnI entry items reduced child.
    assert (Hfield : In "ITEMS" (unprocessed_columns df [])).
    { apply unprocessed_columns_In. repeat split; try reflexivity. exact Hcol. }
    assert (Hfree : mem "ITEMS" FLATTEN_COLS = false) by reflexivity.
    assert (Hrun : exists st,
               model_nested_JSON_objects set_iter content_hash prefix suffix
                 (S (S (S fuel))) df "ENTRY" 0 max (init_state g0) = (Ok tt, st)
               /\ globals st
                  = dict_set (result_key prefix suffix "ITEMS") child
                      (dict_set (result_key prefix suffix "ENTRY") reduced g0)).
    { rewrite model_step.
      - change (processed_fields (init_state g0)) with (@nil string).
        change (0 + 1) with 1.
        destruct (@root_loop set_iter content_hash Hiter "ITEMS" df Hfree
                    Hfield Harr Hscal
                    (logged (init_state g0) [start_record 1 df []]) eq_refl)
          as [st1 [Hloop [Hg1 Hp1]]].
        unfold bind. rewrite Hloop.
        destruct (@after_root_loop set_iter content_hash prefix suffix Hiter
                    "ITEMS" df Hfree Hfield Helem fuel max st1 Hmax2 Hp1)
          as [st2 [Hafter Hg2]].
        exists st2. split; [exact Hafter | ]. rewrite Hg2, Hg1. reflexivity.
      - change (processed_fields (init_state g0)) with (@nil string).
        apply (set_iter_not_nil Hiter). intros E. rewrite E in Hfield.
        exact Hfield.
      - lia. }
    destruct Hrun as [st [Hrun Hg]].
    eexists. split; [ | split].
    + erewrite handler_Ok; [ | exact Ht | exact Hrun ]. rewrite Hg.
      rewrite <- (app_nil_r g0) at 1 2 3.
      rewrite dict_set_fresh_app by (now apply result_key_not_fresh).
      cbn [dict_set].
      rewrite dict_set_fresh_app by (now apply result_key_not_fresh).
      cbn [dict_set].
      replace (String.eqb (result_key prefix suffix "ITEMS")
                 (result_key prefix suffix "ENTRY")) with false.
      2:{ symmetry. apply String.eqb_neq. unfold result_key. intros E.
          apply (append_inj_l "INTERNAL_RESULT_") in E.
          symmetry in E. now apply entry_items_names_differ in E. }
      rewrite collect_results_fresh_app by exact Hg0.
      unfold collect_results. cbn [fold_left fst snd].
      rewrite !result_key_marked, !replace_result_key by assumption.
      cbn [dict_set].
      replace (String.eqb (prefix ++ "ITEMS" ++ suffix)%string
                 (prefix ++ "ENTRY" ++ suffix)%string) with false.
      2:{ symmetry. apply String.eqb_neq. intros E. symmetry in E.
          now apply entry_items_names_differ in E. }
      reflexivity.
    + apply reduced_root_not_in.
    + reflexivity.
  - intros fuel session input output max g0 results st session' H Hg0.
    destruct (@handler_results set_iter content_hash prefix suffix fuel session
                input output max g0 results st session' H Hg0) as [H1 H2].
    split; [ | exact H2].
    intros name Hn. destruct (H1 name Hn) as [path ->]. exists path.
    split; [reflexivity | ]. intros Hm. now apply replace_result_key.
Qed.

Lemma c8_array_field_gives_entry_and_child_tables_witness :
  exists st,
    snowpark_main_handler sample_set_iter sample_hash "" "" 3
      [("DB.RAW", c8_root_table)] "DB.RAW" "OUT" 100 []
    = (Ok [("ENTRY", reduced_root sample_hash "ITEMS" c8_root_table);
           ("ITEMS", child_table sample_hash "ITEMS" c8_root_table)], st,
       [("DB.RAW", c8_root_table);
        ("OUT.ENTRY", reduced_root sample_hash "ITEMS" c8_root_table);
        ("OUT.ITEMS", child_table sample_hash "ITEMS" c8_root_table)])
    /\ ~ In "ITEMS" (columns (reduced_root sample_hash "ITEMS" c8_root_table))
    /\ columns (child_table sample_hash "ITEMS" c8_root_table)
       = ["ITEMS_SHA256"; "ITEMS"].
Proof.
  destruct (@c8_array_field_gives_entry_and_child_tables sample_set_iter
              sample_hash "" "") as [H _].
  apply (H 0%nat [("DB.RAW", c8_root_table)] "DB.RAW" "OUT" 100 c8_root_table []).
  - exact sample_set_iter_ok.
  - reflexivity.
  - simpl. tauto.
  - split; [discriminate | ]. intros r Hr. simpl in Hr.
    destruct Hr as [<- | [<- | []]]; eexists; reflexivity.
  - intros c Hc Hn r Hr. simpl in Hc, Hr.
    destruct Hr as [<- | [<- | []]];
      destruct Hc as [<- | [<- | [<- | []]]];
      solve [reflexivity | congruence].
  - intros r l e Hr Hl He. simpl in Hr.
    destruct Hr as [<- | [<- | []]]; simpl in Hl; inversion Hl; subst;
      simpl in He; repeat (destruct He as [<- | He]; [reflexivity | ]);
      destruct He.
  - discriminate.
  - discriminate.
  - intros k [].
  - reflexivity.
  - reflexivity.
Defined.

(** ** Termination without the depth cap *)

Lemma depth_element (l : list Value) (e : Value) :
  In e l -> (depth e < depth (VArr l))%nat.
Proof.
  cbn [depth]. induction l as [ | x l IH]; intros H; [destruct H | ].
  cbn [fold_right]. destruct H as [-> | H]; [lia | ].
  specialize (IH H). lia.
Qed.

Lemma depth_member (kvs : list (string * Value)) (k : string) :
  (depth (row_get kvs k) <= pred (depth (VObj kvs)))%nat.
Proof.
  cbn [depth pred]. induction kvs as [ | [k' v] kvs IH]; cbn [row_get fold_right snd].
  - cbn [depth]. lia.
  - destruct (String.eqb k k'); lia.
Qed.

Lemma depth_subfield (v : Value) (k : string) :
  (depth (subfield v k) <= pred (depth v))%nat.
Proof.
  destruct v; try (cbn [subfield depth]; lia). apply depth_member.
Qed.

Lemma depth_explode_outer (v e : Value) :
  In e (explode_outer v) -> (depth e <= pred (depth v))%nat.
Proof.
  destruct v as [ | b | z | s | [ | x l] | kvs ]; cbn [explode_outer];
    try (intros [<- | []]; cbn [depth]; lia).
  intros H. apply depth_element in H. lia.
Qed.

Lemma depth_row_get (r : Row) (c : string) :
  (depth (row_get r c) <= row_depth r)%nat.
Proof.
  unfold row_depth. induction r as [ | [c' v] r IH]; cbn [row_get fold_right snd].
  - cbn [depth]. lia.
  - destruct (String.eqb c c'); lia.
Qed.

Lemma row_depth_table (df : DataFrame) (r : Row) :
  In r (rows df) -> (row_depth r <= table_depth df)%nat.
Proof.
  unfold table_depth. induction (rows df) as [ | r' l IH]; intros H; [destruct H | ].
  cbn [fold_right]. destruct H as [-> | H]; [lia | ].
  specialize (IH H). lia.
Qed.

(** Every table is bounded by its depth. *)
Lemma bounded_table_depth df processed : bounded df processed (table_depth df).
Proof.
  intros c _ r Hr. pose proof (depth_row_get r c).
  pose proof (row_depth_table df r Hr). lia.
Qed.

Lemma depth_0_scalar (v : Value) : (depth v <= 0)%nat -> is_scalar v = true.
Proof. destruct v; cbn [depth is_scalar]; intros H; solve [reflexivity | lia]. Qed.

Lemma unprocessed_columns_mono df processed x c :
  In c (unprocessed_columns df (set_add' x processed)) <->
  In c (unprocessed_columns df processed) /\ c <> x.
Proof.
  unfold unprocessed_columns. rewrite !filter_In, !andb_true_iff, !negb_true_iff.
  split.
  - intros [Hc [Hb Hs]].
    assert (N : c <> x).
    { intros ->. assert (set_in x (set_add' x processed) = true)
        by (apply set_in_add; now left). congruence. }
    repeat split; try assumption.
    destruct (set_in c processed) eqn:E; [ | reflexivity].
    assert (set_in c (set_add' x processed) = true)
      by (apply set_in_add; now right). congruence.
  - intros [[Hc [Hb Hs]] N]. repeat split; try assumption.
    destruct (set_in c (set_add' x processed)) eqn:E; [ | reflexivity].
    apply set_in_add in E. destruct E as [E | E]; congruence.
Qed.

Lemma unprocessed_columns_nil df processed c :
  In c (unprocessed_columns df processed) -> In c (unprocessed_columns df []).
Proof.
  unfold unprocessed_columns. rewrite !filter_In, !andb_true_iff.
  intros [Hc [Hb _]]. repeat split; assumption.
Qed.

Lemma bounded_nil df processed n : bounded df [] n -> bounded df processed n.
Proof. intros H c Hc. apply H. eapply unprocessed_columns_nil. exact Hc. Qed.

(** The rows collected by the type detection say ARRAY or OBJECT. *)
Lemma to_unpack_rows df x r :
  In r (to_unpack_dtypes df x) ->
  r = [("TYPEOF", VStr "ARRAY")] \/ r = [("TYPEOF", VStr "OBJECT")].
Proof.
  unfold to_unpack_dtypes. cbn [rows filter_isin]. intros H.
  apply filter_In in H. destruct H as [H Hp].
  cbn [rows distinct select_exprs] in H. apply nodup_In in H.
  apply in_map_iff in H. destruct H as [r' [<- _]].
  cbn [map fst snd] in *. rewrite row_get_single in Hp.
  destruct (row_get r' x); cbn [typeof] in *; try discriminate; auto.
Qed.

(** An array field called [VALUE] loses the exploded column in the drop,
    and the renaming fails. *)
Lemma flatten_array_value df st :
  exists e st', flatten_array df "VALUE" st = (Raise e, st').
Proof.
  unfold flatten_array, bind, logger, ret, lift.
  eexists. eexists. reflexivity.
Qed.

Lemma loop_body_object_eq content_hash x df new_dfs st :
  to_unpack_dtypes df x = [[("TYPEOF", VStr "OBJECT")]] ->
  object_keys df x <> [] ->
  loop_body content_hash x (df, new_dfs) st
  = match drop [x] (with_columns (subfield_columns x (object_keys df x)) df) with
    | inl e => (Raise e, after_object x (object_keys df x) st)
    | inr df' => (Ok (df', new_dfs), after_object x (object_keys df x) st)
    end.
Proof.
  intros Hk Hkeys. unfold loop_body. rewrite Hk.
  cbn [List.length Z.of_nat Pos.of_succ_nat Z.gtb Z.compare Pos.compare
       Pos.compare_cont Z.eqb Pos.eqb hd row_get str_of].
  change (String.eqb "TYPEOF" "TYPEOF") with true. cbv iota. cbn [str_of].
  change (String.eqb "OBJECT" "ARRAY") with false.
  change (String.eqb "OBJECT" "OBJECT") with true. cbv iota.
  unfold bind at 1. unfold logger at 1.
  unfold bind at 1. unfold logger at 1.
  unfold bind at 1. unfold bind at 1.
  rewrite expand_object_subfields_spec by exact Hkeys.
  unfold bind at 1. unfold processed_fields_add at 1.
  unfold bind at 1. unfold logger at 1. unfold ret at 1.
  unfold bind at 1. cbn [fst snd]. unfold lift, raise, ret, logged, after_object.
  cbn [processed_fields globals log].
  unfold end_of_path_record, is_a_record, current_field_record.
  rewrite <- !app_assoc. cbn [app].
  destruct (drop [x] (with_columns (subfield_columns x (object_keys df x)) df));
    reflexivity.
Qed.

Lemma loop_body_object content_hash x df new_dfs st :
  to_unpack_dtypes df x = [[("TYPEOF", VStr "OBJECT")]] ->
  object_keys df x <> [] ->
  (exists e st', loop_body content_hash x (df, new_dfs) st = (Raise e, st'))
  \/ (exists df' st',
        drop [x] (with_columns (subfield_columns x (object_keys df x)) df)
        = inr df'
        /\ loop_body content_hash x (df, new_dfs) st = (Ok (df', new_dfs), st')
        /\ processed_fields st' = set_add' x (processed_fields st)).
Proof.
  intros Hk Hkeys. rewrite loop_body_object_eq by assumption.
  destruct (drop [x] (with_columns (subfield_columns x (object_keys df x)) df))
    as [e | df'].
  - left. eexists. eexists. reflexivity.
  - right. exists df'. eexists. split; [reflexivity | ].
    split; reflexivity.
Qed.

(** The outcomes of one turn of the loop. *)
Lemma loop_body_cases content_hash x df new_dfs st :
  (exists e st', loop_body content_hash x (df, new_dfs) st = (Raise e, st'))
  \/ (exists st',
        loop_body content_hash x (df, new_dfs) st = (Ok (df, new_dfs), st')
        /\ processed_fields st' = set_add' x (processed_fields st))
  \/ (exists st',
        loop_body content_hash x (df, new_dfs) st
        = (Ok (reduced_root content_hash x df,
               dict_set x (child_table content_hash x df) new_dfs), st')
        /\ processed_fields st' = processed_fields st)
  \/ (exists df' st',
        drop [x] (with_columns (subfield_columns x (object_keys df x)) df)
        = inr df'
        /\ loop_body content_hash x (df, new_dfs) st = (Ok (df', new_dfs), st')
        /\ processed_fields st' = set_add' x (processed_fields st)).
Proof.
  destruct (to_unpack_dtypes df x) as [ | r [ | r' l]] eqn:E.
  - right. left. rewrite loop_body_scalar by exact E.
    eexists. split; [reflexivity | reflexivity].
  - destruct (@to_unpack_rows df x r) as [-> | ->];
      [rewrite E; now left | | ].
    + destruct (string_dec x "VALUE") as [-> | N].
      * left. unfold loop_body. rewrite E.
        cbn [List.length Z.of_nat Pos.of_succ_nat Z.gtb Z.compare Pos.compare
             Pos.compare_cont Z.eqb Pos.eqb hd row_get str_of].
        change (String.eqb "TYPEOF" "TYPEOF") with true. cbv iota.
        cbn [str_of]. change (String.eqb "ARRAY" "ARRAY") with true.
        cbv iota. cbv zeta.
        unfold bind at 1. unfold logger at 1.
        unfold bind at 1. unfold logger at 1.
        unfold bind at 1. unfold bind at 1.
        match goal with
        | |- context [flatten_array ?d "VALUE" ?s] =>
            destruct (flatten_array_value d s) as [e [st' ->]]
        end.
        eexists. eexists. reflexivity.
      * right. right. left. rewrite loop_body_array by assumption.
        eexists. split; reflexivity.
    + destruct (object_keys df x) as [ | k ks] eqn:K.
      * left. rewrite loop_body_object_no_keys by assumption.
        eexists. eexists. reflexivity.
      * destruct (@loop_body_object content_hash x df new_dfs st E) as [H | H].
        -- rewrite K. discriminate.
        -- now left.
        -- right. right. right. rewrite K in H. exact H.
  - left. rewrite loop_body_ambiguous by (rewrite E; cbn [List.length]; lia).
    eexists. eexists. reflexivity.
Qed.

(** *** The invariant of the loop *)

Lemma In_dict_set (A : Type) (k : string) (v : A) (d : dict A) (item : string * A) :
  In item (dict_set k v d) -> item = (k, v) \/ In item d.
Proof.
  induction d as [ | [k' v'] d IH]; cbn [dict_set].
  - intros [H | []]. now left.
  - destruct (String.eqb k k').
    + intros [H | H]; [now left | right; now right].
    + intros [H | H]; [right; now left | ].
      destruct (IH H) as [H' | H']; [now left | right; now right].
Qed.

Lemma drop_rows names df df' :
  drop names df = inr df' ->
  rows df' = map (filter (fun cv => negb (mem (fst cv) names))) (rows df).
Proof.
  unfold drop. destruct (filter _ (columns df)); intros H; inversion H.
  reflexivity.
Qed.

Lemma loop_inv_scalar n x rest df new_dfs processed :
  ~ In x rest ->
  loop_inv n (x :: rest) (df, new_dfs) processed ->
  loop_inv n rest (df, new_dfs) (set_add' x processed).
Proof.
  intros Hx [I0 [I1 [I2 I3]]]. cbn [fst snd] in *.
  split; [ | split; [ | split]]; cbn [fst snd].
  - intros c Hc. apply unprocessed_columns_mono in Hc. apply I0. tauto.
  - intros y Hy. apply unprocessed_columns_mono. split.
    + apply I1. now right.
    + intros ->. contradiction.
  - intros c Hc. apply unprocessed_columns_mono in Hc. destruct Hc as [Hc N].
    destruct (I2 c Hc) as [[E | H] | H]; [congruence | now left | now right].
  - exact I3.
Qed.

Lemma child_table_bounded content_hash x df n :
  column_depth_le df x (S n) ->
  bounded (child_table content_hash x df) [] n.
Proof.
  intros H c Hc r' Hr'. apply unprocessed_columns_In in Hc.
  destruct Hc as [Hc [Hs _]]. unfold child_table in Hc. cbn [columns] in Hc.
  destruct Hc as [<- | [<- | []]].
  - rewrite hash_field_contains in Hs. discriminate.
  - unfold child_table in Hr'. cbn [rows] in Hr'. unfold child_rows in Hr'.
    apply in_flat_map in Hr'. destruct Hr' as [p [Hp Hr']].
    apply in_map_iff in Hr'. destruct Hr' as [e [<- He]].
    rewrite row_get_pair_f.
    cbn [rows distinct] in Hp. apply nodup_In in Hp.
    rewrite select_with_hash_rows in Hp. apply in_map_iff in Hp.
    destruct Hp as [r0 [<- Hr0]]. rewrite row_get_pair_f in He.
    apply depth_explode_outer in He. specialize (H r0 Hr0). lia.
Qed.

Lemma reduced_root_unprocessed content_hash x df processed c :
  In c (unprocessed_columns (reduced_root content_hash x df) processed) ->
  In c (unprocessed_columns df processed)
  /\ c <> x /\ c <> (x ++ "_SHA256")%string.
Proof.
  intros Hc. apply unprocessed_columns_In in Hc.
  destruct Hc as [Hc [H1 [H2 H3]]].
  assert (Nh : c <> (x ++ "_SHA256")%string).
  { intros ->. rewrite hash_field_contains in H1. discriminate. }
  assert (Nx : c <> x).
  { intros ->. now apply (@reduced_root_not_in content_hash x df). }
  split; [ | split; assumption].
  apply unprocessed_columns_In. repeat split; try assumption.
  rewrite reduced_root_columns in Hc. apply in_app_or in Hc.
  destruct Hc as [Hc | [Hc | []]]; [ | congruence].
  apply filter_In in Hc. destruct Hc as [Hc _].
  apply filter_In in Hc. tauto.
Qed.

Lemma reduced_root_depth content_hash x df c m :
  c <> x -> c <> (x ++ "_SHA256")%string ->
  column_depth_le df c m ->
  column_depth_le (reduced_root content_hash x df) c m.
Proof.
  intros Nx Nh H r' Hr'.
  destruct (@reduced_root_row_get content_hash x df r' c Hr' Nx Nh)
    as [r [Hr ->]].
  now apply H.
Qed.

Lemma loop_inv_array content_hash n x rest df new_dfs processed :
  ~ In x rest ->
  loop_inv n (x :: rest) (df, new_dfs) processed ->
  loop_inv n rest
    (reduced_root content_hash x df,
     dict_set x (child_table content_hash x df) new_dfs) processed.
Proof.
  intros Hx [I0 [I1 [I2 I3]]]. cbn [fst snd] in *.
  split; [ | split; [ | split]]; cbn [fst snd].
  - intros c Hc. apply reduced_root_unprocessed in Hc.
    destruct Hc as [Hc [Nx Nh]]. apply reduced_root_depth; auto.
  - intros y Hy.
    assert (Hu : In y (unprocessed_columns df processed))
      by (apply I1; now right).
    apply unprocessed_columns_In in Hu. destruct Hu as [Hc [H1 [H2 H3]]].
    apply unprocessed_columns_In. repeat split; try assumption.
    rewrite reduced_root_columns. apply in_or_app. left.
    apply filter_In. split.
    + apply filter_In. split; [exact Hc | ].
      apply negb_true_iff, mem_false. intros [E | []]. subst y.
      rewrite hash_field_contains in H1. discriminate.
    + apply negb_true_iff, mem_false. intros [E | []]. subst y. contradiction.
  - intros c Hc. apply reduced_root_unprocessed in Hc.
    destruct Hc as [Hc [Nx Nh]].
    destruct (I2 c Hc) as [[E | H] | H]; [congruence | now left | right].
    apply reduced_root_depth; auto.
  - intros item Hitem. apply In_dict_set in Hitem.
    destruct Hitem as [-> | Hitem]; [ | now apply I3].
    cbn [snd]. apply child_table_bounded. apply I0. apply I1. now left.
Qed.

Lemma new_value_depth x ks (r : Row) c :
  (depth (row_get (map (fun ne : string * (Row -> Value) => (fst ne, snd ne r))
                     (subfield_columns x ks)) c)
   <= pred (depth (row_get r x)))%nat.
Proof.
  induction ks as [ | k ks IH]; cbn [subfield_columns map fst snd row_get].
  - cbn [depth]. lia.
  - destruct (String.eqb c (x ++ "__" ++ k)%string);
      [apply depth_subfield | exact IH].
Qed.

(** The values of a table after the expansion of [x] and the drop of [x]. *)
Lemma expanded_row_get x ks df df' r' c :
  drop [x] (with_columns (subfield_columns x ks) df) = inr df' ->
  In r' (rows df') -> c <> x ->
  exists r, In r (rows df)
            /\ row_get r' c = row_get (with_row (subfield_columns x ks) r) c.
Proof.
  intros D Hr' Nx. rewrite (@drop_rows [x] _ df' D) in Hr'.
  rewrite with_columns_rows, map_map in Hr'. apply in_map_iff in Hr'.
  destruct Hr' as [r [<- Hr]]. exists r. split; [exact Hr | ].
  apply (row_get_filter (fun c => negb (mem c [x]))).
  apply negb_true_iff, mem_false. intros [E | []]. congruence.
Qed.

Lemma expanded_depth_new x ks df df' c n :
  drop [x] (with_columns (subfield_columns x ks) df) = inr df' ->
  c <> x -> mem c (map fst (subfield_columns x ks)) = true ->
  column_depth_le df x (S n) ->
  column_depth_le df' c n.
Proof.
  intros D Nx Hm H r' Hr'.
  destruct (@expanded_row_get x ks df df' r' c D Hr' Nx) as [r [Hr ->]].
  rewrite with_row_new by exact Hm.
  pose proof (new_value_depth x ks r c). specialize (H r Hr). lia.
Qed.

Lemma expanded_depth_old x ks df df' c m :
  drop [x] (with_columns (subfield_columns x ks) df) = inr df' ->
  c <> x -> mem c (map fst (subfield_columns x ks)) = false ->
  column_depth_le df c m ->
  column_depth_le df' c m.
Proof.
  intros D Nx Hm H r' Hr'.
  destruct (@expanded_row_get x ks df df' r' c D Hr' Nx) as [r [Hr ->]].
  rewrite with_row_old by exact Hm. now apply H.
Qed.

Lemma expanded_columns x ks df df' c :
  drop [x] (with_columns (subfield_columns x ks) df) = inr df' ->
  (In c (columns df') <->
   c <> x /\ (In c (columns df) \/ mem c (map fst (subfield_columns x ks)) = true)).
Proof.
  intros D. rewrite (@drop_columns [x] _ df' D).
  unfold with_columns. cbn [columns]. rewrite filter_In, in_app_iff, filter_In.
  assert (X : negb (mem c [x]) = true <-> c <> x).
  { rewrite negb_true_iff, mem_false. cbn [In]. split.
    - intros H E. apply H. left. now rewrite E.
    - intros H [E | []]. apply H. now rewrite E. }
  rewrite X, mem_In. split.
  - intros [[[Hc _] | Hc] N]; split; auto.
  - intros [N [Hc | Hc]].
    + split; [ | exact N].
      destruct (mem c (map fst (subfield_columns x ks))) eqn:E.
      * right. now apply mem_In.
      * left. split; [exact Hc | reflexivity].
    + split; [right; exact Hc | exact N].
Qed.

Lemma loop_inv_object n x ks rest df new_dfs processed df' :
  ~ In x rest ->
  loop_inv n (x :: rest) (df, new_dfs) processed ->
  drop [x] (with_columns (subfield_columns x ks) df) = inr df' ->
  loop_inv n rest (df', new_dfs) (set_add' x processed).
Proof.
  intros Hx [I0 [I1 [I2 I3]]] D. cbn [fst snd] in *.
  assert (Hxd : column_depth_le df x (S n)) by (apply I0, I1; now left).
  assert (A : forall c, In c (unprocessed_columns df' (set_add' x processed)) ->
                c <> x
                /\ (mem c (map fst (subfield_columns x ks)) = true
                    \/ (mem c (map fst (subfield_columns x ks)) = false
                        /\ In c (unprocessed_columns df processed)))).
  { intros c Hc. apply unprocessed_columns_In in Hc.
    destruct Hc as [Hc [H1 [H2 H3]]].
    apply (@expanded_columns x ks df df' c D) in Hc. destruct Hc as [N Hc].
    split; [exact N | ].
    destruct (mem c (map fst (subfield_columns x ks))) eqn:E; [now left | right].
    split; [reflexivity | ]. destruct Hc as [Hc | Hc]; [ | discriminate].
    apply unprocessed_columns_In. repeat split; try assumption.
    destruct (set_in c processed) eqn:S; [ | reflexivity].
    assert (set_in c (set_add' x processed) = true)
      by (apply set_in_add; now right). congruence. }
  split; [ | split; [ | split]]; cbn [fst snd].
  - intros c Hc. destruct (A c Hc) as [N [Hm | [Hm Hu]]].
    + intros r Hr. pose proof (@expanded_depth_new x ks df df' c n D N Hm Hxd r Hr). lia.
    + apply (@expanded_depth_old x ks df df' c (S n) D N Hm). now apply I0.
  - intros y Hy.
    assert (Hu : In y (unprocessed_columns df processed))
      by (apply I1; now right).
    assert (N : y <> x) by (intros ->; contradiction).
    apply unprocessed_columns_In in Hu. destruct Hu as [Hc [H1 [H2 H3]]].
    apply unprocessed_columns_In. repeat split; try assumption.
    + apply (@expanded_columns x ks df df' y D). split; [exact N | now left].
    + destruct (set_in y (set_add' x processed)) eqn:S; [ | reflexivity].
      apply set_in_add in S. destruct S; congruence.
  - intros c Hc. destruct (A c Hc) as [N [Hm | [Hm Hu]]].
    + right. now apply (@expanded_depth_new x ks df df' c n D N Hm).
    + destruct (I2 c Hu) as [[E | H] | H]; [congruence | now left | right].
      now apply (@expanded_depth_old x ks df df' c n D N Hm).
  - exact I3.
Qed.

(** The loop keeps its invariant, turn after turn. *)
Lemma loop_keeps_inv content_hash n rest :
  forall acc st r st',
    NoDup rest ->
    loop_inv n rest acc (processed_fields st) ->
    for_each rest (loop_body content_hash) acc st = (r, st') ->
    (exists e, r = Raise e)
    \/ (exists acc', r = Ok acc' /\ loop_inv n [] acc' (processed_fields st')).
Proof.
  induction rest as [ | x rest IH]; intros [df new_dfs] st r st' Hnd Hinv Hrun.
  - cbn [for_each] in Hrun. inversion Hrun; subst. right.
    eexists. split; [reflexivity | exact Hinv].
  - inversion Hnd as [ | ? ? Hx Hnd']; subst.
    cbn [for_each] in Hrun. unfold bind in Hrun.
    destruct (loop_body_cases content_hash x df new_dfs st)
      as [[e [s1 E]] | [[s1 [E P]] | [[s1 [E P]] | [df' [s1 [D [E P]]]]]]];
      rewrite E in Hrun.
    + inversion Hrun; subst. left. now exists e.
    + apply (IH _ _ _ _ Hnd') in Hrun; [exact Hrun | ].
      rewrite P. now apply loop_inv_scalar.
    + apply (IH _ _ _ _ Hnd') in Hrun; [exact Hrun | ].
      rewrite P. now apply loop_inv_array.
    + apply (IH _ _ _ _ Hnd') in Hrun; [exact Hrun | ].
      rewrite P. eapply loop_inv_object; eassumption.
Qed.

Lemma no_oof_for_each_In (A B : Type) (xs : list A) (body : A -> B -> M B) :
  (forall x, In x xs -> forall acc, no_oof (body x acc)) ->
  forall acc, no_oof (for_each xs body acc).
Proof.
  induction xs as [ | x xs IH]; intros H acc; cbn [for_each].
  - apply no_oof_ret.
  - apply no_oof_bind.
    + apply H. now left.
    + intros a. apply IH. intros y Hy. apply H. now right.
Qed.

Section Terminates.

Variable set_iter : list string -> list string.
Variable content_hash : Value -> Value.
Variables prefix suffix : string.
Hypothesis set_iter_ok : set_iteration set_iter.

Abbreviation model := (model_nested_JSON_objects set_iter content_hash prefix suffix).

Lemma terminal_or_not df processed counter max :
  (cur_unprocessed_fields set_iter df processed = [] \/ counter + 1 = max)
  \/ (cur_unprocessed_fields set_iter df processed <> []
      /\ counter + 1 <> max).
Proof.
  destruct (cur_unprocessed_fields set_iter df processed) as [ | c l].
  - left. now left.
  - destruct (Z.eq_dec (counter + 1) max) as [E | N].
    + left. now right.
    + right. split; [discriminate | exact N].
Qed.

(** A call on a table whose unprocessed columns nest at most [n] deep
    needs no more than [n + 2] nested calls, whatever the depth cap. *)
Lemma model_terminates n :
  forall fuel df path counter max st,
    bounded df (processed_fields st) n ->
    (n + 2 <= fuel)%nat ->
    fst (model fuel df path counter max st) <> OutOfFuel.
Proof.
  induction n as [ | n IH]; intros fuel df path counter max st Hb Hfuel.
  - destruct fuel as [ | [ | fuel]]; [lia | lia | ].
    destruct (terminal_or_not df (processed_fields st) counter max)
      as [T | [Hcur Hmax]].
    + rewrite model_terminal by exact T. discriminate.
    + destruct (@flat_call set_iter content_hash prefix suffix set_iter_ok fuel
                  df path counter max st) as [st' [E _]].
      * intros c Hc r Hr. apply depth_0_scalar. now apply (Hb c Hc).
      * intros E. apply Hcur. unfold cur_unprocessed_fields. rewrite E.
        now apply set_iter_nil.
      * exact Hmax.
      * rewrite E. discriminate.
  - destruct fuel as [ | fuel]; [lia | ].
    destruct (terminal_or_not df (processed_fields st) counter max)
      as [T | [Hcur Hmax]].
    + rewrite model_terminal by exact T. discriminate.
    + rewrite model_step by assumption. unfold bind.
      destruct (for_each (cur_unprocessed_fields set_iter df (processed_fields st))
                  (loop_body content_hash) (df, [])
                  (logged st [start_record (counter + 1) df (processed_fields st)]))
        as [[acc' | e | ] st2] eqn:L.
      * destruct (@loop_keeps_inv content_hash n _ _ _ _ _
                    (proj1 (set_iter_ok _))
                    (conj (Hb : bounded (fst (df, @nil (string * DataFrame)))
                                  (processed_fields
                                     (logged st [start_record (counter + 1) df
                                                   (processed_fields st)])) (S n))
                       (conj (fun y Hy => set_iter_sound set_iter_ok _ _ Hy)
                          (conj (fun c Hc =>
                                   or_introl (set_iter_complete set_iter_ok _ _ Hc))
                             (fun item (Hi : In item []) => match Hi with end))))
                    L) as [[e E] | [a [E Hinv]]]; [discriminate | ].
        inversion E; subst a. clear E.
        destruct Hinv as [_ [_ [I2 I3]]].
        unfold after_loop. unfold bind at 1. unfold globals_set at 1.
        unfold bind at 1.
        match goal with
        | |- context [model fuel (fst acc') path (counter + 1) max ?s] =>
            pose proof (IH fuel (fst acc') path (counter + 1) max s) as M;
            destruct (model fuel (fst acc') path (counter + 1) max s)
              as [[u | e | ] st4]
        end.
        -- apply no_oof_for_each_In. intros item Hitem acc.
           apply no_oof_bind; [apply no_oof_logger | intros _].
           intros s. apply IH; [ | lia].
           apply bounded_nil. now apply I3.
        -- discriminate.
        -- exfalso. apply M; [ | lia | reflexivity].
           intros c Hc. cbn [processed_fields] in Hc.
           destruct (I2 c Hc) as [[] | H]. exact H.
      * discriminate.
      * exfalso.
        pose proof (@no_oof_for_each _ _
                      (cur_unprocessed_fields set_iter df (processed_fields st))
                      (loop_body content_hash)
                      (no_oof_loop_body content_hash) (df, [])
                      (logged st [start_record (counter + 1) df (processed_fields st)]))
          as N.
        rewrite L in N. now apply N.
Qed.

(** The recursion terminates on every table, with or without a depth cap
    that can be reached. *)
Lemma model_always_terminates df path counter max st :
  forall fuel, (table_depth df + 2 <= fuel)%nat ->
    exists r st',
      model fuel df path counter max st = (r, st') /\ r <> OutOfFuel.
Proof.
  intros fuel Hfuel.
  destruct (model fuel df path counter max st) as [r st'] eqn:E.
  exists r, st'. split; [reflexivity | ].
  pose proof (@model_terminates (table_depth df) fuel df path counter max st
                (bounded_table_depth df (processed_fields st)) Hfuel) as N.
  rewrite E in N. exact N.
Qed.

End Terminates.

(** C9. The recursion terminates on every input: with [table_depth df + 2]
    nested calls or more at its disposal, a call of the recursive function
    on the table [df] returns or raises, whatever the depth cap, because the
    unprocessed columns of the tables it passes on nest less deep than its
    own. A call that starts below the depth cap stays within the cap: the
    distance from the counter to the cap is enough, and the processed-field
    set it leaves contains the one it found. In a turn of the loop that
    succeeds, a field expanded as an object ends in the processed-field set,
    and the field of the turn, dropped or processed, is no unprocessed column
    of the current table afterwards. *)
Theorem c9_recursion_terminates_within_depth_cap :
  forall (set_iter : list string -> list string)
         (content_hash : Value -> Value) (prefix suffix : string)
         (df : DataFrame) (path : string) (counter max : Z) (st : State),
    (set_iteration set_iter ->
     forall fuel, (table_depth df + 2 <= fuel)%nat ->
       exists r st',
         model_nested_JSON_objects set_iter content_hash prefix suffix fuel
           df path counter max st = (r, st')
         /\ r <> OutOfFuel)
    /\ (counter < max ->
        forall fuel, max - counter <= Z.of_nat fuel ->
          exists r st',
            model_nested_JSON_objects set_iter content_hash prefix suffix fuel
              df path counter max st = (r, st')
            /\ r <> OutOfFuel
            /\ grows st st')
    /\ (forall x d new_dfs s acc' s',
          loop_body content_hash x (d, new_dfs) s = (Ok acc', s') ->
          grows s s'
          /\ (to_unpack_dtypes d x = [[("TYPEOF", VStr "OBJECT")]] ->
              set_in x (processed_fields s') = true)
          /\ ~ In x (unprocessed_columns (fst acc') (processed_fields s'))).
Proof.
  intros set_iter content_hash prefix suffix df path counter max st.
  split; [ | split].
  - intros Hiter fuel Hfuel. now apply model_always_terminates.
  - intros Hlt fuel Hfuel.
    destruct (model_nested_JSON_objects set_iter content_hash prefix suffix
                fuel df path counter max st) as [r st'] eqn:E.
    exists r, st'. split; [reflexivity | ]. split.
    + pose proof (@no_oof_model set_iter content_hash prefix suffix fuel df
                    path counter max Hlt Hfuel st) as N.
      rewrite E in N. exact N.
    + eapply grows_model. exact E.
  - intros x d new_dfs s acc' s' H. split; [ | split].
    + eapply grows_loop_body. exact H.
    + intros Hk. eapply loop_body_object_processed; eassumption.
    + eapply loop_body_removes. exact H.
Qed.

Lemma c9_recursion_terminates_within_depth_cap_witness :
  (exists r st',
     model_nested_JSON_objects sample_set_iter sample_hash "" "" 5
       c3_root_table "ENTRY" 0 0 (init_state []) = (r, st')
     /\ r <> OutOfFuel)
  /\ 0 < 100
  /\ (exists r st',
        model_nested_JSON_objects sample_set_iter sample_hash "" "" 100
          c3_root_table "ENTRY" 0 100 (init_state []) = (r, st')
        /\ r <> OutOfFuel).
Proof.
  destruct (@c9_recursion_terminates_within_depth_cap sample_set_iter
              sample_hash "" "" c3_root_table "ENTRY" 0 0 (init_state []))
    as [H0 _].
  destruct (@c9_recursion_terminates_within_depth_cap sample_set_iter
              sample_hash "" "" c3_root_table "ENTRY" 0 100 (init_state []))
    as [_ [H1 _]].
  split; [ | split; [reflexivity | ]].
  - apply (H0 sample_set_iter_ok 5%nat). vm_compute. lia.
  - destruct (H1 eq_refl 100%nat) as [r [st' [E [N _]]]].
    + vm_compute. discriminate.
    + exists r, st'. split; [exact E | exact N].
Defined.

(** * Further properties of the source *)

(** ** The depth cap is compared by equality *)

Lemma for_each_ext_In (A B : Type) (xs : list A) (body body' : A -> B -> M B) :
  (forall x, In x xs -> forall acc st, body x acc st = body' x acc st) ->
  forall acc st, for_each xs body acc st = for_each xs body' acc st.
Proof.
  induction xs as [ | x xs IH]; intros H acc st; cbn [for_each]; [reflexivity | ].
  unfold bind. rewrite (H x (or_introl eq_refl)).
  destruct (body' x acc st) as [[a | e | ] st1]; try reflexivity.
  apply IH. intros y Hy. apply H. now right.
Qed.

(** X1. The counter is incremented before it is compared with the cap, and
    the comparison is an equality: a call whose counter has already reached
    the cap (a cap of zero or a negative cap at the first call) never stops
    because of the cap, and runs exactly as under any other cap that is out
    of reach. *)
Theorem cap_out_of_reach_is_ignored :
  forall (set_iter : list string -> list string)
         (content_hash : Value -> Value) (prefix suffix : string)
         (fuel : nat) (df : DataFrame) (path : string)
         (counter max max' : Z) (st : State),
    max <= counter -> max' <= counter ->
    model_nested_JSON_objects set_iter content_hash prefix suffix fuel df path
      counter max st
    = model_nested_JSON_objects set_iter content_hash prefix suffix fuel df path
        counter max' st.
Proof.
  intros set_iter content_hash prefix suffix fuel.
  induction fuel as [ | fuel IH]; intros df path counter max max' st H H';
    [reflexivity | ].
  cbn [model_nested_JSON_objects].
  unfold bind at 1. unfold get_processed_fields at 1.
  unfold bind at 1. unfold logger at 1.
  symmetry.
  unfold bind at 1. unfold get_processed_fields at 1.
  unfold bind at 1. unfold logger at 1.
  symmetry.
  replace (counter + 1 =? max) with false by (symmetry; apply Z.eqb_neq; lia).
  replace (counter + 1 =? max') with false by (symmetry; apply Z.eqb_neq; lia).
  destruct (Z.of_nat _ =? 0); [reflexivity | ]. cbn [orb].
  unfold bind at 1. symmetry. unfold bind at 1. symmetry.
  destruct (for_each _ _ _ _) as [[[d n] | e | ] st2]; try reflexivity.
  unfold bind at 1. symmetry. unfold bind at 1. symmetry.
  destruct (globals_set _ _ st2) as [[u | e | ] st3]; try reflexivity.
  unfold bind at 1. symmetry. unfold bind at 1. symmetry.
  rewrite (IH d path (counter + 1) max max' st3) by lia.
  destruct (model_nested_JSON_objects _ _ _ _ _ _ _ _ _ _) as [[u' | e | ] st4];
    try reflexivity.
  apply for_each_ext_In. intros item _ acc s. unfold bind.
  destruct (logger _ _ _ s) as [[u'' | e | ] s']; try reflexivity.
  apply IH; lia.
Qed.

Lemma cap_out_of_reach_is_ignored_witness :
  0 <= 0 /\ -7 <= 0
  /\ model_nested_JSON_objects sample_set_iter sample_hash "" "" 6
       c8_root_table "ENTRY" 0 0 (init_state [])
     = model_nested_JSON_objects sample_set_iter sample_hash "" "" 6
         c8_root_table "ENTRY" 0 (-7) (init_state []).
Proof.
  split; [discriminate | split; [discriminate | ]].
  apply cap_out_of_reach_is_ignored; discriminate.
Defined.

(** ** The kind of a field is decided on a sample *)

(** The values that the type detection of [x] looks at are all scalars. *)
Lemma to_unpack_sampled_scalar df x :
  (forall r, In r (rows (limit detect_dtype_from_first
                           (distinct (select [x] df)))) ->
             is_scalar (row_get r x) = true) ->
  to_unpack_dtypes df x = [].
Proof.
  intros H. unfold to_unpack_dtypes. cbn [rows filter_isin].
  apply filter_none. intros t Ht. cbn [rows distinct select_exprs] in Ht.
  apply nodup_In in Ht. apply in_map_iff in Ht. destruct Ht as [r' [<- Hr']].
  specialize (H r' Hr'). cbn [map fst snd]. rewrite row_get_single.
  destruct (row_get r' x); try discriminate; reflexivity.
Qed.

Section SettledTables.

Variable set_iter : list string -> list string.
Variable content_hash : Value -> Value.
Variables prefix suffix : string.
Hypothesis set_iter_ok : set_iteration set_iter.

(** A call on a table in which no unprocessed field is found to be an array
    or an object: the table is recorded as it is, and the call below finds
    nothing to do. *)
Lemma settled_call fuel df path counter max st :
  (forall c, In c (unprocessed_columns df (processed_fields st)) ->
             to_unpack_dtypes df c = []) ->
  unprocessed_columns df (processed_fields st) <> [] ->
  counter + 1 <> max ->
  exists st',
    model_nested_JSON_objects set_iter content_hash prefix suffix (S (S fuel))
      df path counter max st = (Ok tt, st')
    /\ globals st' = dict_set (result_key prefix suffix path) df (globals st)
    /\ (forall x, set_in x (processed_fields st') = true
                  <-> In x (unprocessed_columns df (processed_fields st))
                      \/ set_in x (processed_fields st) = true).
Proof.
  intros Hflat Hne Hmax.
  rewrite model_step;
    [ | now apply (set_iter_not_nil set_iter_ok) | exact Hmax ].
  unfold bind. rewrite for_each_scalars.
  - unfold after_loop, bind, globals_set. cbn [fst snd].
    rewrite model_terminal.
    + cbn [for_each]. unfold ret. eexists. split; [reflexivity | ].
      split; [reflexivity | ].
      intros x. cbn [logged processed_fields].
      rewrite after_scalars_processed. cbn [logged processed_fields].
      unfold cur_unprocessed_fields. split.
      * intros [H | H]; [left | now right].
        now apply (set_iter_sound set_iter_ok) in H.
      * intros [H | H]; [left | now right].
        now apply (set_iter_complete set_iter_ok).
    + left. cbn [processed_fields]. apply (nothing_left set_iter_ok).
      intros c Hc.
      apply after_scalars_processed. cbn [logged processed_fields].
      destruct (set_in c (processed_fields st)) eqn:E; [now right | left].
      unfold cur_unprocessed_fields. apply (set_iter_complete set_iter_ok).
      apply unprocessed_columns_In. apply unprocessed_columns_In in Hc.
      tauto.
  - intros x Hx. apply Hflat.
    unfold cur_unprocessed_fields in Hx.
    now apply (set_iter_sound set_iter_ok) in Hx.
Qed.

End SettledTables.

(** X2. The kind of a field is read off the first [detect_dtype_from_first]
    distinct values of its column only. A table in which these values are
    scalars for every field is returned as it is, as the only table of the
    run, whatever the other rows hold: an array or an object that first shows
    up outside the sample stays nested, and its field is marked processed. *)
Theorem table_with_scalar_samples_is_returned_as_it_is :
  forall (set_iter : list string -> list string)
         (content_hash : Value -> Value) (prefix suffix : string)
         (fuel : nat) (session : Session) (input output : string) (max : Z)
         (df : DataFrame) (g0 : dict DataFrame),
    set_iteration set_iter ->
    table session input = Some df ->
    unprocessed_columns df [] <> [] ->
    (forall c r,
       In c (unprocessed_columns df []) ->
       In r (rows (limit detect_dtype_from_first (distinct (select [c] df)))) ->
       is_scalar (row_get r c) = true) ->
    max <> 1 ->
    fresh_namespace g0 ->
    contains "INTERNAL_RESULT_" (prefix ++ "ENTRY" ++ suffix)%string = false ->
    let name := (prefix ++ "ENTRY" ++ suffix)%string in
    exists st,
      snowpark_main_handler set_iter content_hash prefix suffix (S (S fuel))
        session input output max g0
      = (Ok [(name, df)], st,
         save_as_table (output ++ "." ++ name)%string df session)
      /\ (forall c, In c (unprocessed_columns df []) ->
                    set_in c (processed_fields st) = true).
Proof.
  intros set_iter content_hash prefix suffix fuel session input output max df
    g0 Hset Ht Hne Hsample Hmax Hg0 Hname name.
  destruct (@settled_call set_iter content_hash prefix suffix Hset fuel df
              "ENTRY" 0 max (init_state g0)) as [st [Hrun [Hglobals Hp]]].
  { intros c Hc. apply to_unpack_sampled_scalar. intros r Hr.
    now apply Hsample. }
  { exact Hne. }
  { lia. }
  cbn [init_state globals processed_fields] in Hglobals, Hp.
  eexists. split.
  - erewrite handler_Ok; [ | exact Ht | exact Hrun ]. rewrite Hglobals.
    rewrite <- (app_nil_r g0).
    rewrite dict_set_fresh_app by (now apply result_key_not_fresh).
    rewrite collect_results_fresh_app by exact Hg0.
    unfold collect_results. cbn [dict_set fold_left fst snd].
    rewrite result_key_marked, replace_result_key by exact Hname.
    cbn [dict_set save_all fold_left fst snd]. reflexivity.
  - intros c Hc. cbn [logged processed_fields]. apply Hp. now left.
Qed.

Lemma table_with_scalar_samples_is_returned_as_it_is_witness :
  In [("V", VArr [VNum 1; VNum 2])] (rows wide_sample_table)
  /\ exists st,
       snowpark_main_handler sample_set_iter sample_hash "" "" 2
         [("DB.RAW", wide_sample_table)] "DB.RAW" "OUT" 100 []
       = (Ok [("ENTRY", wide_sample_table)], st,
          [("DB.RAW", wide_sample_table); ("OUT.ENTRY", wide_sample_table)])
       /\ (forall c, In c (unprocessed_columns wide_sample_table []) ->
                     set_in c (processed_fields st) = true).
Proof.
  split.
  - unfold wide_sample_table. cbn [rows]. apply in_or_app. right. now left.
  - apply (@table_with_scalar_samples_is_returned_as_it_is sample_set_iter
             sample_hash "" "" 0 [("DB.RAW", wide_sample_table)] "DB.RAW" "OUT"
             100 wide_sample_table []).
    + exact sample_set_iter_ok.
    + reflexivity.
    + discriminate.
    + intros c r Hc Hr. vm_compute in Hc. destruct Hc as [<- | []].
      vm_compute in Hr.
      repeat (destruct Hr as [<- | Hr]; [reflexivity | ]). destruct Hr.
    + discriminate.
    + intros k [].
    + reflexivity.
Defined.

(** ** The subfields of an object field *)

Section ObjectKeys.

Variable f : string.
Hypothesis f_free : f <> "KEY".

Lemma key_neq_f : String.eqb "KEY" f = false.
Proof. apply String.eqb_neq. congruence. Qed.

(** The [KEY] of a row of the join of [(f, v)] with its flattening. *)
Lemma joined_key (v : Value) seq key path index value this :
  row_get ([(f, v)] ++ flatten_row seq key path index value this) "KEY" = key.
Proof.
  cbn [app row_get flatten_row]. rewrite key_neq_f. reflexivity.
Qed.

Lemma flatten_object_keys seq (v : Value) (o : Row) :
  In o (flatten seq OBJECT v) ->
  row_get ([(f, v)] ++ o) "KEY" = VNull
  \/ exists kvs k, v = VObj kvs /\ In k (map fst kvs)
                   /\ row_get ([(f, v)] ++ o) "KEY" = VStr k.
Proof.
  intros H.
  assert (Hnull : In o [flatten_row seq VNull VNull VNull VNull VNull] ->
                  row_get ([(f, v)] ++ o) "KEY" = VNull).
  { intros [<- | []]. apply joined_key. }
  destruct v as [ | b | n | s | l | [ | kv l] ]; cbn [flatten] in H;
    try (left; now apply Hnull).
  right. unfold flatten_members in H. apply in_map_iff in H.
  destruct H as [kv' [<- Hkv]]. exists (kv :: l), (fst kv').
  split; [reflexivity | ]. split; [now apply in_map | apply joined_key].
Qed.

Lemma flatten_object_member seq (kvs : list (string * Value)) (k : string) :
  In k (map fst kvs) ->
  exists o, In o (flatten seq OBJECT (VObj kvs))
            /\ row_get ([(f, VObj kvs)] ++ o) "KEY" = VStr k.
Proof.
  intros H. apply in_map_iff in H. destruct H as [kv [<- Hkv]].
  destruct kvs as [ | kv0 l]; [destruct Hkv | ]. cbn [flatten].
  exists (flatten_row seq (VStr (fst kv)) (VStr (fst kv)) VNull (snd kv)
            (VObj (kv0 :: l))).
  split; [ | apply joined_key].
  unfold flatten_members.
  apply (in_map (fun kv => flatten_row seq (VStr (fst kv)) (VStr (fst kv)) VNull
                             (snd kv) (VObj (kv0 :: l)))).
  exact Hkv.
Qed.

Lemma join_rows_keys seq (rs : list Row) (jr : Row) :
  Forall (fun r => exists v, r = [(f, v)]) rs ->
  In jr (join_rows f OBJECT seq rs) ->
  row_get jr "KEY" = VNull
  \/ exists kvs k, In [(f, VObj kvs)] rs /\ In k (map fst kvs)
                   /\ row_get jr "KEY" = VStr k.
Proof.
  revert seq. induction rs as [ | r rs IH]; intros seq HF H; [destruct H | ].
  cbn [join_rows] in H. apply in_app_or in H.
  inversion HF as [ | ? ? [v ->] HF']; subst.
  destruct H as [H | H].
  - apply in_map_iff in H. destruct H as [o [<- Ho]].
    rewrite row_get_single in Ho.
    destruct (flatten_object_keys _ _ _ Ho) as [E | [kvs [k [-> [Hk E]]]]];
      [now left | right].
    exists kvs, k. split; [now left | now split].
  - destruct (IH _ HF' H) as [E | [kvs [k [Hin [Hk E]]]]]; [now left | right].
    exists kvs, k. split; [now right | now split].
Qed.

Lemma join_rows_member seq (rs : list Row) (kvs : list (string * Value))
    (k : string) :
  In [(f, VObj kvs)] rs -> In k (map fst kvs) ->
  exists jr, In jr (join_rows f OBJECT seq rs) /\ row_get jr "KEY" = VStr k.
Proof.
  revert seq. induction rs as [ | r rs IH]; intros seq H Hk; [destruct H | ].
  cbn [join_rows]. destruct H as [-> | H].
  - rewrite row_get_single.
    destruct (flatten_object_member seq kvs k Hk) as [o [Ho E]].
    exists ([(f, VObj kvs)] ++ o). split; [ | exact E].
    apply in_or_app. left.
    apply (in_map (fun o => [(f, VObj kvs)] ++ o)). exact Ho.
  - destruct (IH (seq + 1) H Hk) as [jr [Hjr E]].
    exists jr. split; [apply in_or_app; now right | exact E].
Qed.

Lemma selected_singletons (df : DataFrame) :
  Forall (fun r => exists v, r = [(f, v)]) (rows (distinct (select [f] df))).
Proof.
  apply Forall_forall. intros r Hr. cbn [rows distinct select] in Hr.
  apply nodup_In in Hr. apply in_map_iff in Hr. destruct Hr as [r0 [<- _]].
  eexists. reflexivity.
Qed.

(** The rows that the source collects the keys from. *)
Lemma key_rows (df : DataFrame) (row : Row) :
  In row (rows (distinct
                  (filter_not_null "KEY"
                     (select ["KEY"]
                        (join_table_function f OBJECT
                           (distinct (select [f] df)))))))
  <-> exists k, row = [("KEY", VStr k)] /\ key_of_column df f k.
Proof.
  cbn [rows distinct filter_not_null select join_table_function map].
  rewrite nodup_In, filter_In, in_map_iff. split.
  - intros [[jr [<- Hjr]] Hnn]. rewrite row_get_single in Hnn.
    destruct (@join_rows_keys 1 _ jr (selected_singletons df) Hjr)
      as [E | [kvs [k [Hin [Hk E]]]]].
    + rewrite E in Hnn. discriminate.
    + exists k. rewrite E. split; [reflexivity | ].
      cbn [rows distinct select] in Hin. apply nodup_In in Hin.
      apply in_map_iff in Hin. destruct Hin as [r [Er Hr]].
      exists r, kvs. cbn [map] in Er. injection Er as Er. now repeat split.
  - intros [k [-> [r [kvs [Hr [Ef Hk]]]]]].
    destruct (@join_rows_member 1 (rows (distinct (select [f] df))) kvs k)
      as [jr [Hjr E]]; [ | exact Hk | ].
    + cbn [rows distinct select]. apply nodup_In. apply in_map_iff.
      exists r. cbn [map]. rewrite Ef. now split.
    + split; [ | now rewrite row_get_single].
      exists jr. rewrite E. now split.
Qed.

Lemma object_keys_In (df : DataFrame) (k : string) :
  In k (object_keys df f) <-> key_of_column df f k.
Proof.
  unfold object_keys. rewrite in_map_iff. split.
  - intros [row [E Hrow]]. apply key_rows in Hrow.
    destruct Hrow as [k' [-> Hk']]. rewrite row_get_single in E.
    cbn [str_of] in E. now subst.
  - intros Hk. exists [("KEY", VStr k)]. split.
    + now rewrite row_get_single.
    + apply key_rows. now exists k.
Qed.

Lemma object_keys_NoDup (df : DataFrame) : NoDup (object_keys df f).
Proof.
  unfold object_keys. apply NoDup_map_NoDup_ForallPairs.
  - intros a b Ha Hb E. apply key_rows in Ha, Hb.
    destruct Ha as [ka [-> _]], Hb as [kb [-> _]].
    rewrite !row_get_single in E. cbn [str_of] in E. now subst.
  - cbn [rows distinct]. apply NoDup_nodup.
Qed.

End ObjectKeys.

(** X3. The subfield keys of an object field are collected from all the rows
    of the table, not from the sample that decides its kind: a key is found
    exactly when some row holds an object with that key, and each key is
    found once. Rows that hold something else in the field add no key. *)
Theorem object_keys_are_the_keys_of_all_rows :
  forall (df : DataFrame) (f : string),
    f <> "KEY" ->
    NoDup (object_keys df f)
    /\ (forall k, In k (object_keys df f)
                  <-> exists r kvs, In r (rows df) /\ row_get r f = VObj kvs
                                    /\ In k (map fst kvs))
    /\ (object_keys df f = []
        <-> forall r kvs, In r (rows df) -> row_get r f = VObj kvs -> kvs = []).
Proof.
  intros df f Hf. split; [now apply object_keys_NoDup | ].
  split; [intros k; now apply object_keys_In | ].
  split.
  - intros E r [ | [k v] kvs] Hr Ef; [reflexivity | exfalso].
    assert (H : In k (object_keys df f)).
    { apply object_keys_In; [exact Hf | ]. exists r, ((k, v) :: kvs).
      repeat split; [exact Hr | exact Ef | now left]. }
    rewrite E in H. exact H.
  - intros H. destruct (object_keys df f) as [ | k ks] eqn:E; [reflexivity | ].
    exfalso.
    assert (Hk : In k (object_keys df f)) by (rewrite E; now left).
    apply object_keys_In in Hk; [ | exact Hf].
    destruct Hk as [r [kvs [Hr [Ef Hk]]]].
    rewrite (H r kvs Hr Ef) in Hk. exact Hk.
Qed.

Lemma object_keys_are_the_keys_of_all_rows_witness :
  "F" <> "KEY"
  /\ object_keys c5_plain_table "F" = ["b"; "a"]
  /\ NoDup (object_keys c5_plain_table "F")
  /\ (In "b" (object_keys c5_plain_table "F")
      <-> exists r kvs, In r (rows c5_plain_table) /\ row_get r "F" = VObj kvs
                        /\ In "b" (map fst kvs)).
Proof.
  assert (Hf : "F" <> "KEY") by discriminate.
  split; [exact Hf | ]. split; [reflexivity | ].
  destruct (object_keys_are_the_keys_of_all_rows c5_plain_table Hf)
    as [Hnd [Hin _]].
  split; [exact Hnd | apply Hin].
Defined.

(** ** The expansion of an object field with any number of keys *)

Lemma subfield_name_inj (f k k' : string) :
  (f ++ "__" ++ k)%string = (f ++ "__" ++ k')%string -> k = k'.
Proof.
  intros E. apply append_inj_l in E. now apply (append_inj_l "__") in E.
Qed.

Lemma subfield_columns_names (f : string) (ks : list string) (c : string) :
  mem c (map fst (subfield_columns f ks)) = true
  <-> exists k, In k ks /\ c = (f ++ "__" ++ k)%string.
Proof.
  rewrite mem_In. unfold subfield_columns. rewrite map_map. cbn [fst].
  rewrite in_map_iff. split; intros [k [H1 H2]]; exists k;
    [now split | now split].
Qed.

(** The value of the new column of key [k] in a row. *)
Lemma subfield_columns_value (f : string) (ks : list string) (r : Row)
    (k : string) :
  In k ks ->
  row_get (map (fun ne : string * (Row -> Value) => (fst ne, snd ne r))
             (subfield_columns f ks)) (f ++ "__" ++ k)%string
  = subfield (row_get r f) k.
Proof.
  induction ks as [ | k' ks IH]; intros H; [destruct H | ].
  cbn [subfield_columns map fst snd row_get].
  destruct (String.eqb (f ++ "__" ++ k) (f ++ "__" ++ k')) eqn:E.
  - apply String.eqb_eq, subfield_name_inj in E. now subst.
  - destruct H as [-> | H]; [now rewrite String.eqb_refl in E | ].
    now apply IH.
Qed.

(** X4. Object expansion with the keys found in the column, however many:
    it succeeds as soon as there is one key; the columns of the result are
    those of the input and one column [f__k] per key; the rows correspond one
    for one; in every row the column [f__k] holds the projection [f[k]], which
    is null where the object has no key [k] or the field holds no object; a
    column that bears none of the new names keeps its values; the
    processed-field set and the namespace are not touched. *)
Theorem object_expansion_gives_every_row_every_key :
  forall (df : DataFrame) (f : string) (st : State),
    f <> "KEY" ->
    (exists k, key_of_column df f k) ->
    exists df1 st1 g,
      expand_object_subfields df f st = (Ok df1, st1)
      /\ (forall c, In c (columns df1)
                    <-> In c (columns df)
                        \/ exists k, key_of_column df f k
                                     /\ c = (f ++ "__" ++ k)%string)
      /\ rows df1 = map g (rows df)
      /\ (forall r k, key_of_column df f k ->
            row_get (g r) (f ++ "__" ++ k)%string = subfield (row_get r f) k)
      /\ (forall r k, key_of_column df f k ->
            (forall kvs, row_get r f = VObj kvs -> ~ In k (map fst kvs)) ->
            row_get (g r) (f ++ "__" ++ k)%string = VNull)
      /\ (forall r c,
            (forall k, key_of_column df f k -> c <> (f ++ "__" ++ k)%string) ->
            row_get (g r) c = row_get r c)
      /\ processed_fields st1 = processed_fields st
      /\ globals st1 = globals st.
Proof.
  intros df f st Hf [k0 Hk0].
  assert (Hne : object_keys df f <> []).
  { apply (object_keys_In Hf) in Hk0. intros E. rewrite E in Hk0. exact Hk0. }
  pose (new := subfield_columns f (object_keys df f)).
  assert (Hnames : forall c, mem c (map fst new) = true
                             <-> exists k, key_of_column df f k
                                           /\ c = (f ++ "__" ++ k)%string).
  { intros c. unfold new. rewrite subfield_columns_names.
    split; intros [k [H1 H2]]; exists k; (split; [ | exact H2]);
      now apply (object_keys_In Hf). }
  assert (Hval : forall r k, key_of_column df f k ->
                   row_get (with_row new r) (f ++ "__" ++ k)%string
                   = subfield (row_get r f) k).
  { intros r k Hk. rewrite with_row_new by (apply Hnames; now exists k).
    apply subfield_columns_value. now apply (object_keys_In Hf). }
  exists (with_columns new df). eexists. exists (with_row new).
  split; [ | split; [ | split; [ | split; [ | split; [ | split; [ | split ]]]]]].
  - rewrite expand_object_subfields_spec by exact Hne. reflexivity.
  - intros c. unfold with_columns. cbn [columns]. fold new.
    rewrite in_app_iff, filter_In, <- Hnames, <- (mem_In c (map fst new)).
    destruct (mem c (map fst new)) eqn:E; cbn [negb].
    + split; intros _; now right.
    + split.
      * intros [[H _] | H]; [now left | discriminate].
      * intros [H | H]; [left; now split | discriminate].
  - apply with_columns_rows.
  - exact Hval.
  - intros r k Hk Hmiss. rewrite Hval by exact Hk.
    destruct (row_get r f) as [ | b | n | s | l | kvs] eqn:E; try reflexivity.
    cbn [subfield]. apply row_get_not_mem. apply mem_false.
    now apply Hmiss.
  - intros r c Hc. apply with_row_old.
    destruct (mem c (map fst new)) eqn:E; [ | reflexivity].
    apply Hnames in E. destruct E as [k [Hk E]]. now apply Hc in Hk.
  - reflexivity.
  - reflexivity.
Qed.

Lemma object_expansion_gives_every_row_every_key_witness :
  "F" <> "KEY"
  /\ key_of_column c5_plain_table "F" "b"
  /\ exists df1 st1,
       expand_object_subfields c5_plain_table "F" (init_state []) = (Ok df1, st1)
       /\ columns df1 = ["ID"; "F"; "F__b"; "F__a"]
       /\ map (fun r => row_get r "F__b") (rows df1) = [VNum 2; VNull].
Proof.
  assert (Hf : "F" <> "KEY") by discriminate.
  assert (Hk : key_of_column c5_plain_table "F" "b").
  { eexists. eexists. split; [left; reflexivity | ].
    split; [reflexivity | right; now left]. }
  split; [exact Hf | ]. split; [exact Hk | ].
  destruct (@object_expansion_gives_every_row_every_key c5_plain_table "F"
              (init_state []) Hf (ex_intro _ "b" Hk))
    as [df1 [st1 [g [Hrun _]]]].
  exists df1, st1. split; [exact Hrun | ].
  vm_compute in Hrun. injection Hrun as <- _. split; reflexivity.
Defined.

(** ** The turn of the loop for an array field *)

Lemma filter_single (A : Type) (p : A -> bool) (a : A) (l : list A) :
  NoDup l -> In a l -> p a = true ->
  (forall y, In y l -> p y = true -> y = a) ->
  filter p l = [a].
Proof.
  induction l as [ | b l IH]; intros Hnd Hin Hpa Huniq; [destruct Hin | ].
  inversion Hnd as [ | ? ? Hnb Hnd']; subst. cbn [filter].
  destruct Hin as [-> | Hin].
  - rewrite Hpa. f_equal. apply filter_none. intros y Hy.
    destruct (p y) eqn:E; [ | reflexivity].
    assert (y = a) by (apply Huniq; [now right | exact E]).
    subst y. contradiction.
  - destruct (p b) eqn:E.
    + assert (b = a) by (apply Huniq; [now left | exact E]).
      subst b. contradiction.
    + apply IH; try assumption. intros y Hy. apply Huniq. now right.
Qed.

(** The sample of [x] holds an array and no object: [x] is taken for an
    array field. *)
Lemma to_unpack_sampled_array df x :
  (exists r l, In r (rows (limit detect_dtype_from_first
                             (distinct (select [x] df))))
               /\ row_get r x = VArr l) ->
  (forall r kvs, In r (rows (limit detect_dtype_from_first
                               (distinct (select [x] df)))) ->
                 row_get r x <> VObj kvs) ->
  to_unpack_dtypes df x = [[("TYPEOF", VStr "ARRAY")]].
Proof.
  intros [r0 [l0 [Hr0 E0]]] Hno. unfold to_unpack_dtypes.
  cbn [rows filter_isin distinct select_exprs]. apply filter_single.
  - apply NoDup_nodup.
  - apply nodup_In. apply in_map_iff. exists r0. split; [ | exact Hr0].
    cbn [map fst snd]. now rewrite E0.
  - reflexivity.
  - intros t Ht Hp. apply nodup_In in Ht. apply in_map_iff in Ht.
    destruct Ht as [r [<- Hr]]. cbn [map fst snd] in *.
    rewrite row_get_single in Hp. specialize (Hno r).
    destruct (row_get r x) as [ | b | n | s | l | kvs]; try discriminate.
    + reflexivity.
    + exfalso. now apply (Hno kvs).
Qed.

Section ArrayTurn.

Variable content_hash : Value -> Value.
Variable f : string.

Abbreviation hf := (f ++ "_SHA256")%string.

(** What the turn does to a row of the table. *)
Lemma reduced_root_rows df :
  rows (reduced_root content_hash f df)
  = map (fun r => filter (fun cv => negb (mem (fst cv) [f]))
                    (hash_row content_hash f r)) (rows df).
Proof.
  unfold reduced_root. cbn [rows]. now rewrite with_hash_rows, map_map.
Qed.

Lemma not_in_single (c : string) :
  c <> f -> (fun c => negb (mem c [f])) c = true.
Proof.
  intros H. cbv beta. apply negb_true_iff, mem_false. intros [E | []].
  congruence.
Qed.

Lemma reduced_row_hash (r : Row) :
  row_get (filter (fun cv => negb (mem (fst cv) [f]))
             (hash_row content_hash f r)) hf
  = content_hash (row_get r f).
Proof.
  rewrite (row_get_filter (fun c => negb (mem c [f])))
    by (apply not_in_single, hash_field_neq).
  apply hash_row_hash.
Qed.

Lemma reduced_row_other (r : Row) (c : string) :
  c <> f -> c <> hf ->
  row_get (filter (fun cv => negb (mem (fst cv) [f]))
             (hash_row content_hash f r)) c
  = row_get r c.
Proof.
  intros H1 H2.
  rewrite (row_get_filter (fun c => negb (mem c [f])))
    by (now apply not_in_single).
  now apply hash_row_other.
Qed.

Lemma reduced_row_field (r : Row) :
  row_get (filter (fun cv => negb (mem (fst cv) [f]))
             (hash_row content_hash f r)) f
  = VNull.
Proof.
  apply row_get_not_mem.
  apply (mem_filter_false (fun c => negb (mem c [f]))).
  cbv beta. apply negb_false_iff, mem_In. now left.
Qed.

Lemma reduced_root_columns_In df c :
  In c (columns (reduced_root content_hash f df))
  <-> (In c (columns df) /\ c <> f) \/ c = hf.
Proof.
  rewrite reduced_root_columns, in_app_iff, !filter_In, !negb_true_iff,
    !mem_false.
  cbn [In]. split.
  - intros [[[H1 H2] H3] | [H | []]]; [left | now right].
    split; [exact H1 | ]. intros ->. apply H3. now left.
  - intros [[H1 H2] | ->].
    + destruct (string_dec c hf) as [-> | Hn]; [right; now left | left].
      repeat split; [exact H1 | | ]; intros [E | []]; congruence.
    + right. now left.
Qed.

(** The rows of the child table that join with the hash of a value. *)
Lemma child_rows_filter (h : Value) (pairs : list Row) :
  filter (fun c => if Value_eq_dec (row_get c hf) h then true else false)
    (child_rows f pairs)
  = child_rows f
      (filter (fun p => if Value_eq_dec (row_get p hf) h then true else false)
         pairs).
Proof.
  induction pairs as [ | p pairs IH]; [reflexivity | ].
  change (child_rows f (p :: pairs))
    with (map (fun e => [(hf, row_get p hf); (f, e)])
            (explode_outer (row_get p f)) ++ child_rows f pairs).
  rewrite filter_app.
  apply (eq_trans (f_equal (fun t => _ ++ t) IH)). cbn [filter].
  destruct (Value_eq_dec (row_get p hf) h) as [E | E].
  - change (child_rows f (p :: filter _ pairs))
      with (map (fun e => [(hf, row_get p hf); (f, e)])
              (explode_outer (row_get p f)) ++ child_rows f (filter
                (fun p => if Value_eq_dec (row_get p hf) h then true else false)
                pairs)).
    f_equal. apply filter_keeps_all. intros c Hc. apply in_map_iff in Hc.
    destruct Hc as [e [<- _]]. cbn [row_get]. rewrite String.eqb_refl.
    destruct (Value_eq_dec (row_get p hf) h); [reflexivity | contradiction].
  - replace (filter _ (map _ (explode_outer (row_get p f)))) with (@nil Row);
      [reflexivity | ].
    symmetry. apply filter_none. intros c Hc. apply in_map_iff in Hc.
    destruct Hc as [e [<- _]]. cbn [row_get]. rewrite String.eqb_refl.
    destruct (Value_eq_dec (row_get p hf) h); [contradiction | reflexivity].
Qed.

Lemma pair_hash (h v : Value) : row_get [(hf, h); (f, v)] hf = h.
Proof. cbn [row_get]. now rewrite String.eqb_refl. Qed.

Lemma pair_field (h v : Value) : row_get [(hf, h); (f, v)] f = v.
Proof.
  cbn [row_get].
  replace (String.eqb f hf) with false; [now rewrite String.eqb_refl | ].
  symmetry. apply String.eqb_neq. intros E. symmetry in E.
  now apply hash_field_neq in E.
Qed.

Lemma child_rows_of_value df (r : Row) :
  (forall r1 r2, In r1 (rows df) -> In r2 (rows df) ->
     content_hash (row_get r1 f) = content_hash (row_get r2 f) ->
     row_get r1 f = row_get r2 f) ->
  In r (rows df) ->
  rows_with_hash hf (content_hash (row_get r f))
    (child_table content_hash f df)
  = map (fun e => [(hf, content_hash (row_get r f)); (f, e)])
      (explode_outer (row_get r f)).
Proof.
  intros Hinj Hr. unfold rows_with_hash, child_table. cbn [rows distinct].
  rewrite child_rows_filter, select_with_hash_rows.
  rewrite (@filter_single _ _
             [(hf, content_hash (row_get r f)); (f, row_get r f)]).
  - cbn [child_rows flat_map]. rewrite app_nil_r, pair_hash, pair_field.
    reflexivity.
  - apply NoDup_nodup.
  - apply nodup_In.
    apply (in_map (fun r => [(hf, content_hash (row_get r f)); (f, row_get r f)])).
    exact Hr.
  - rewrite pair_hash.
    destruct (Value_eq_dec (content_hash (row_get r f))
                (content_hash (row_get r f))); [reflexivity | contradiction].
  - intros p Hp Hh. apply nodup_In in Hp. apply in_map_iff in Hp.
    destruct Hp as [r' [<- Hr']]. rewrite pair_hash in Hh.
    destruct (Value_eq_dec (content_hash (row_get r' f))
                (content_hash (row_get r f))) as [E | E]; [ | discriminate].
    rewrite E, (Hinj r' r Hr' Hr E). reflexivity.
Qed.

End ArrayTurn.

(** X5. The turn of the loop for a field [x] whose sample holds an array and
    no object. The table keeps its rows, one for one; the column [x] is
    gone; the column [x_SHA256] holds the hash of what [x] held, in place of
    a column that bore this name before; every other column keeps its
    values. The exploded table is scheduled under the name [x], with the
    columns [x_SHA256] and [x]. The field [x] is not marked processed and
    nothing is recorded yet. *)
Theorem array_turn_replaces_the_field_by_its_hash :
  forall (content_hash : Value -> Value) (x : string) (df : DataFrame)
         (new_dfs : dict DataFrame) (st : State),
    mem x FLATTEN_COLS = false ->
    (exists r l, In r (rows (limit detect_dtype_from_first
                               (distinct (select [x] df))))
                 /\ row_get r x = VArr l) ->
    (forall r kvs, In r (rows (limit detect_dtype_from_first
                                 (distinct (select [x] df)))) ->
                   row_get r x <> VObj kvs) ->
    let hx := (x ++ "_SHA256")%string in
    exists df' child st' g,
      loop_body content_hash x (df, new_dfs) st
      = (Ok (df', dict_set x child new_dfs), st')
      /\ (forall c, In c (columns df')
                    <-> (In c (columns df) /\ c <> x) \/ c = hx)
      /\ rows df' = map g (rows df)
      /\ (forall r, row_get (g r) hx = content_hash (row_get r x))
      /\ (forall r, row_get (g r) x = VNull)
      /\ (forall r c, c <> x -> c <> hx -> row_get (g r) c = row_get r c)
      /\ columns child = [hx; x]
      /\ processed_fields st' = processed_fields st
      /\ globals st' = globals st.
Proof.
  intros content_hash x df new_dfs st Hx Harr Hobj hx.
  exists (reduced_root content_hash x df), (child_table content_hash x df).
  eexists.
  exists (fun r => filter (fun cv => negb (mem (fst cv) [x]))
                     (hash_row content_hash x r)).
  split; [ | split; [ | split; [ | split; [ | split; [ | split;
    [ | split; [ | split ]]]]]]].
  - apply loop_body_array.
    + now apply to_unpack_sampled_array.
    + now apply free_not_value.
  - intros c. apply reduced_root_columns_In.
  - apply reduced_root_rows.
  - intros r. apply reduced_row_hash.
  - intros r. apply reduced_row_field.
  - intros r c. apply reduced_row_other.
  - reflexivity.
  - reflexivity.
  - reflexivity.
Qed.

Lemma array_turn_replaces_the_field_by_its_hash_witness :
  mem "TAGS" FLATTEN_COLS = false
  /\ exists df' child st',
       loop_body distinct_hash "TAGS" (mixed_array_table, []) (init_state [])
       = (Ok (df', [("TAGS", child)]), st')
       /\ columns df' = ["ID"; "TAGS_SHA256"]
       /\ map (fun r => row_get r "TAGS_SHA256") (rows df')
          = [VStr "h-array"; VStr "h-empty"; VStr "h-string"]
       /\ processed_fields st' = [].
Proof.
  assert (Hx : mem "TAGS" FLATTEN_COLS = false) by reflexivity.
  split; [exact Hx | ].
  destruct (@array_turn_replaces_the_field_by_its_hash distinct_hash "TAGS"
              mixed_array_table [] (init_state []) Hx)
    as [df' [child [st' [g [Hrun _]]]]].
  - exists [("TAGS", VArr [VStr "a"; VStr "b"])], [VStr "a"; VStr "b"].
    split; [vm_compute; now left | reflexivity].
  - intros r kvs Hr. vm_compute in Hr.
    destruct Hr as [<- | [<- | [<- | []]]]; discriminate.
  - exists df', child, st'. split; [exact Hrun | ].
    vm_compute in Hrun. injection Hrun as <- _ <-.
    repeat split; reflexivity.
Defined.

(** X6. The exploded table of an array field can be joined back: when the
    hash tells apart the values that the field holds, the rows of the child
    table that bear the hash of a row of the parent are the elements of the
    array of that row, in their order, each with that hash. For an empty
    array, a null, or a value that is no array, this is one row with a null
    element: what such a row held in the field is kept neither in the parent
    nor in the child. *)
Theorem child_rows_join_back_to_the_parent :
  forall (content_hash : Value -> Value) (x : string) (df : DataFrame)
         (new_dfs : dict DataFrame) (st : State),
    mem x FLATTEN_COLS = false ->
    (exists r l, In r (rows (limit detect_dtype_from_first
                               (distinct (select [x] df))))
                 /\ row_get r x = VArr l) ->
    (forall r kvs, In r (rows (limit detect_dtype_from_first
                                 (distinct (select [x] df)))) ->
                   row_get r x <> VObj kvs) ->
    (forall r1 r2, In r1 (rows df) -> In r2 (rows df) ->
       content_hash (row_get r1 x) = content_hash (row_get r2 x) ->
       row_get r1 x = row_get r2 x) ->
    let hx := (x ++ "_SHA256")%string in
    exists df' child st' g,
      loop_body content_hash x (df, new_dfs) st
      = (Ok (df', dict_set x child new_dfs), st')
      /\ rows df' = map g (rows df)
      /\ (forall r, In r (rows df) ->
            rows_with_hash hx (row_get (g r) hx) child
            = map (fun e => [(hx, row_get (g r) hx); (x, e)])
                (match row_get r x with
                 | VArr (e :: l) => e :: l
                 | _ => [VNull]
                 end)).
Proof.
  intros content_hash x df new_dfs st Hx Harr Hobj Hinj hx.
  exists (reduced_root content_hash x df), (child_table content_hash x df).
  eexists.
  exists (fun r => filter (fun cv => negb (mem (fst cv) [x]))
                     (hash_row content_hash x r)).
  split; [ | split ].
  - apply loop_body_array.
    + now apply to_unpack_sampled_array.
    + now apply free_not_value.
  - apply reduced_root_rows.
  - intros r Hr. cbv beta. unfold hx. rewrite reduced_row_hash.
    now apply child_rows_of_value.
Qed.

Lemma child_rows_join_back_to_the_parent_witness :
  mem "TAGS" FLATTEN_COLS = false
  /\ exists df' child st',
       loop_body distinct_hash "TAGS" (mixed_array_table, []) (init_state [])
       = (Ok (df', [("TAGS", child)]), st')
       /\ rows_with_hash "TAGS_SHA256" (VStr "h-array") child
          = [[("TAGS_SHA256", VStr "h-array"); ("TAGS", VStr "a")];
             [("TAGS_SHA256", VStr "h-array"); ("TAGS", VStr "b")]]
       /\ rows_with_hash "TAGS_SHA256" (VStr "h-string") child
          = [[("TAGS_SHA256", VStr "h-string"); ("TAGS", VNull)]].
Proof.
  assert (Hx : mem "TAGS" FLATTEN_COLS = false) by reflexivity.
  split; [exact Hx | ].
  destruct (@child_rows_join_back_to_the_parent distinct_hash "TAGS"
              mixed_array_table [] (init_state []) Hx)
    as [df' [child [st' [g [Hrun _]]]]].
  - exists [("TAGS", VArr [VStr "a"; VStr "b"])], [VStr "a"; VStr "b"].
    split; [vm_compute; now left | reflexivity].
  - intros r kvs Hr. vm_compute in Hr.
    destruct Hr as [<- | [<- | [<- | []]]]; discriminate.
  - intros r1 r2 H1 H2.
    destruct H1 as [<- | [<- | [<- | []]]];
      destruct H2 as [<- | [<- | [<- | []]]];
      vm_compute; intros E; try reflexivity; discriminate E.
  - exists df', child, st'. split; [exact Hrun | ].
    vm_compute in Hrun. injection Hrun as _ <- _.
    split; reflexivity.
Defined.

(** ** Columns that the decomposition passes over by their name *)

Lemma ignores_refl f st : ignores f st st.
Proof.
  split; [tauto | ]. exists []. split; [now rewrite app_nil_r | ].
  intros rec [].
Qed.

Lemma ignores_trans f a b c : ignores f a b -> ignores f b c -> ignores f a c.
Proof.
  intros [P1 [l1 [E1 N1]]] [P2 [l2 [E2 N2]]]. split; [tauto | ].
  exists (l1 ++ l2). split.
  - now rewrite E2, E1, app_assoc.
  - intros rec Hin. apply in_app_or in Hin. destruct Hin; auto.
Qed.

Lemma ignores_logger f lv fm a :
  touches f (mkLog lv fm a) = false -> preserves (ignores f) (logger lv fm a).
Proof.
  intros N st r st' H. inversion H; subst. split; [tauto | ].
  cbn [log]. eexists. split; [reflexivity | ].
  intros rec [E | []]. now subst rec.
Qed.

Lemma ignores_logger_field f x lv fm a :
  x <> f -> preserves (ignores f) (logger lv fm (AStr x :: a)).
Proof.
  intros N. apply ignores_logger. unfold touches. cbn [args].
  apply String.eqb_neq in N. rewrite N. apply andb_false_r.
Qed.

Lemma ignores_add f x : x <> f -> preserves (ignores f) (processed_fields_add x).
Proof.
  intros N st r st' H. inversion H; subst. split.
  - cbn [processed_fields]. intros Hf. apply set_in_add in Hf.
    destruct Hf as [E | Hf]; [congruence | exact Hf].
  - exists []. cbn [log]. split; [now rewrite app_nil_r | intros rec []].
Qed.

Lemma ignores_globals_set f k df : preserves (ignores f) (globals_set k df).
Proof.
  intros st r st' H. inversion H; subst. split; [tauto | ].
  exists []. cbn [log]. split; [now rewrite app_nil_r | intros rec []].
Qed.

Lemma ignores_get f : preserves (ignores f) get_processed_fields.
Proof. intros st r st' H. inversion H; subst. apply ignores_refl. Qed.

Ltac ignores_step f :=
  match goal with
  | |- preserves (ignores _) (logger _ _ _) =>
      first [ apply ignores_logger; vm_compute; reflexivity
            | apply ignores_logger_field; assumption ]
  | |- preserves (ignores _) (processed_fields_add _) =>
      apply ignores_add; assumption
  | |- preserves (ignores _) (globals_set _ _) => apply ignores_globals_set
  | |- preserves (ignores _) get_processed_fields => apply ignores_get
  | |- _ => preserves_step (ignores_refl f) (@ignores_trans f)
  end.

Section PassedOver.

Variable set_iter : list string -> list string.
Variable content_hash : Value -> Value.
Variables prefix suffix : string.
Hypothesis set_iter_incl : forall l x, In x (set_iter l) -> In x l.

Lemma ignores_flatten_array f df x :
  x <> f -> preserves (ignores f) (flatten_array df x).
Proof. intros N. unfold flatten_array. repeat ignores_step f. Qed.

Lemma ignores_expand f df x :
  x <> f -> preserves (ignores f) (expand_object_subfields df x).
Proof. intros N. unfold expand_object_subfields. repeat ignores_step f. Qed.

Lemma ignores_loop_body f x acc :
  x <> f -> preserves (ignores f) (loop_body content_hash x acc).
Proof.
  intros N. unfold loop_body. destruct acc as [df new_dfs].
  repeat first [ apply ignores_flatten_array; assumption
               | apply ignores_expand; assumption
               | ignores_step f ].
Qed.

Lemma bookkeeping_not_unprocessed f df processed :
  contains "SHA256" f = true \/ contains "INGESTION_CTRL" f = true ->
  ~ In f (cur_unprocessed_fields set_iter df processed).
Proof.
  intros H Hin. apply set_iter_incl in Hin. unfold unprocessed_columns in Hin.
  apply filter_In in Hin. destruct Hin as [_ Hin].
  apply andb_true_iff in Hin. destruct Hin as [Hin _].
  cbn [forallb] in Hin. rewrite !andb_true_iff, !negb_true_iff in Hin.
  destruct H as [H | H]; rewrite H in Hin; destruct Hin as [H1 [H2 _]];
    discriminate.
Qed.

Lemma ignores_model f fuel :
  contains "SHA256" f = true \/ contains "INGESTION_CTRL" f = true ->
  forall df path counter max,
    preserves (ignores f)
      (model_nested_JSON_objects set_iter content_hash prefix suffix fuel df
         path counter max).
Proof.
  intros Hf. induction fuel as [ | fuel IH]; intros df path counter max.
  - intros st r st' H. inversion H; subst. apply ignores_refl.
  - cbn [model_nested_JSON_objects].
    repeat first
      [ apply IH
      | refine (@preserves_for_each _ (ignores_refl f) (@ignores_trans f)
                  _ _ _ _ _ _); intros
      | apply ignores_loop_body; intros E; subst;
        eapply bookkeeping_not_unprocessed; eassumption
      | ignores_step f ].
Qed.

End PassedOver.

(** X7. A column whose name contains [SHA256] or [INGESTION_CTRL] is passed
    over by its name alone, in every table of the run and whatever it holds:
    it is never among the fields of a call, no call puts its name into the
    processed-field set, and nothing logs a type detection, an explosion or
    an expansion of it. An object or an array in such a column, or in a
    subfield whose name contains one of the two markers, stays nested. *)
Theorem bookkeeping_columns_are_passed_over :
  forall (set_iter : list string -> list string)
         (content_hash : Value -> Value) (prefix suffix : string),
    (forall l x, In x (set_iter l) -> In x l) ->
    forall (f : string) (fuel : nat) (df : DataFrame) (path : string)
           (counter max : Z) (st : State) (r : result unit) (st' : State),
      contains "SHA256" f = true \/ contains "INGESTION_CTRL" f = true ->
      model_nested_JSON_objects set_iter content_hash prefix suffix fuel df
        path counter max st = (r, st') ->
      ~ In f (cur_unprocessed_fields set_iter df (processed_fields st))
      /\ (set_in f (processed_fields st') = true ->
          set_in f (processed_fields st) = true)
      /\ exists l, log st' = log st ++ l
                   /\ forall rec, In rec l -> touches f rec = false.
Proof.
  intros set_iter content_hash prefix suffix Hincl f fuel df path counter max
    st r st' Hf Hrun.
  split.
  - now apply bookkeeping_not_unprocessed.
  - exact (@ignores_model set_iter content_hash prefix suffix Hincl f fuel Hf
             df path counter max st r st' Hrun).
Qed.

Lemma bookkeeping_columns_are_passed_over_witness :
  let run := model_nested_JSON_objects sample_set_iter sample_hash "" "" 3
               ctrl_table "ENTRY" 0 100 (init_state []) in
  (contains "SHA256" "INGESTION_CTRL_META" = true
   \/ contains "INGESTION_CTRL" "INGESTION_CTRL_META" = true)
  /\ fst run = Ok tt
  /\ globals (snd run) = [("INTERNAL_RESULT_ENTRY", ctrl_table)]
  /\ ~ In "INGESTION_CTRL_META"
         (cur_unprocessed_fields sample_set_iter ctrl_table [])
  /\ (set_in "INGESTION_CTRL_META" (processed_fields (snd run)) = true ->
      set_in "INGESTION_CTRL_META" [] = true)
  /\ exists l, log (snd run) = [] ++ l
               /\ forall rec, In rec l -> touches "INGESTION_CTRL_META" rec = false.
Proof.
  intros run.
  assert (Hf : contains "SHA256" "INGESTION_CTRL_META" = true
               \/ contains "INGESTION_CTRL" "INGESTION_CTRL_META" = true)
    by (right; reflexivity).
  split; [exact Hf | ]. split; [reflexivity | ]. split; [reflexivity | ].
  apply (@bookkeeping_columns_are_passed_over sample_set_iter sample_hash ""
           "" sample_set_iter_incl "INGESTION_CTRL_META" 3 ctrl_table "ENTRY"
           0 100 (init_state []) (fst run) (snd run) Hf).
  apply surjective_pairing.
Defined.

(** ** The namespace across runs, and the tables that a run writes *)

Lemma keys_dict_set_mono (A : Type) (k : string) (v : A) (d : dict A)
    (x : string) :
  In x (keys d) -> In x (keys (dict_set k v d)).
Proof.
  unfold keys. induction d as [ | [k' v'] d IH]; cbn [dict_set map fst In].
  - intros [].
  - destruct (String.eqb k k') eqn:E; cbn [map fst In].
    + apply String.eqb_eq in E. subst k'. tauto.
    + intros [H | H]; [now left | right; now apply IH].
Qed.

Lemma keys_dict_set_new (A : Type) (k : string) (v : A) (d : dict A) :
  In k (keys (dict_set k v d)).
Proof.
  unfold keys. induction d as [ | [k' v'] d IH]; cbn [dict_set map fst In].
  - now left.
  - destruct (String.eqb k k') eqn:E; cbn [map fst In]; [now left | now right].
Qed.

Lemma retains_refl p s st : retains p s st st.
Proof. intros k. split; [tauto | reflexivity]. Qed.

Lemma retains_trans p s a b c :
  retains p s a b -> retains p s b c -> retains p s a c.
Proof.
  intros H1 H2 k. destruct (H1 k) as [K1 V1], (H2 k) as [K2 V2]. split.
  - tauto.
  - intros H. now rewrite V2, V1.
Qed.

Lemma retains_logger p s lv f a : preserves (retains p s) (logger lv f a).
Proof.
  intros st r st' H. inversion H; subst. intros k. cbn [globals].
  split; [tauto | reflexivity].
Qed.

Lemma retains_add p s x : preserves (retains p s) (processed_fields_add x).
Proof.
  intros st r st' H. inversion H; subst. intros k. cbn [globals].
  split; [tauto | reflexivity].
Qed.

Lemma retains_get p s : preserves (retains p s) get_processed_fields.
Proof. intros st r st' H. inversion H; subst. apply retains_refl. Qed.

Lemma retains_globals_set p s path df :
  preserves (retains p s) (globals_set (result_key p s path) df).
Proof.
  intros st r st' H. inversion H; subst. intros k. cbn [globals]. split.
  - apply keys_dict_set_mono.
  - intros Hk. apply dict_get_set_other. apply Hk.
Qed.

Ltac retains_step p s :=
  match goal with
  | |- preserves (retains _ _) (logger _ _ _) => apply retains_logger
  | |- preserves (retains _ _) (processed_fields_add _) => apply retains_add
  | |- preserves (retains _ _) (globals_set _ _) => apply retains_globals_set
  | |- preserves (retains _ _) get_processed_fields => apply retains_get
  | |- _ => preserves_step (retains_refl p s) (@retains_trans p s)
  end.

Lemma retains_loop_body p s content_hash x acc :
  preserves (retains p s) (loop_body content_hash x acc).
Proof.
  unfold loop_body, flatten_array, expand_object_subfields.
  destruct acc as [df new_dfs]. repeat retains_step p s.
Qed.

Lemma retains_model set_iter content_hash p s fuel :
  forall df path counter max,
    preserves (retains p s)
      (model_nested_JSON_objects set_iter content_hash p s fuel df path
         counter max).
Proof.
  induction fuel as [ | fuel IH]; intros df path counter max.
  - intros st r st' H. inversion H; subst. apply retains_refl.
  - cbn [model_nested_JSON_objects].
    repeat first
      [ apply IH
      | refine (@preserves_for_each _ (retains_refl p s) (@retains_trans p s)
                  _ _ _ _ _ _); intros
      | apply retains_loop_body
      | retains_step p s ].
Qed.

(** Every marked key of the namespace gives a name of the results. *)
Lemma collect_results_complete (g : dict DataFrame) (k : string) :
  In k (keys g) -> contains "INTERNAL_RESULT" k = true ->
  In (replace "INTERNAL_RESULT_" "" k) (keys (collect_results g)).
Proof.
  unfold collect_results. intros Hk Hm.
  assert (G : forall acc,
             In (replace "INTERNAL_RESULT_" "" k) (keys acc) \/ In k (keys g) ->
             In (replace "INTERNAL_RESULT_" "" k)
               (keys (fold_left
                        (fun acc kv =>
                           if contains "INTERNAL_RESULT" (fst kv)
                           then dict_set (replace "INTERNAL_RESULT_" "" (fst kv))
                                  (snd kv) acc
                           else acc) g acc))).
  { clear Hk. induction g as [ | [k' v] g IH]; intros acc H;
      cbn [fold_left fst snd].
    - destruct H as [H | []]. exact H.
    - apply IH. destruct H as [H | [E | H]].
      + left. destruct (contains "INTERNAL_RESULT" k'); [ | exact H].
        now apply keys_dict_set_mono.
      + cbn [fst] in E. subst k'. rewrite Hm. left. apply keys_dict_set_new.
      + now right. }
  apply G. now right.
Qed.

(** X8. The handler never clears the namespace. An entry whose key contains
    [INTERNAL_RESULT] when the handler is entered (a result of an earlier run
    in the same process) is still there when the handler is left, with its
    table if the key is no result key of this run; and a run that returns
    returns a table under the name of that entry and writes it to the output
    schema, whatever the input of the run is. *)
Theorem earlier_results_are_returned_again :
  forall (set_iter : list string -> list string)
         (content_hash : Value -> Value) (prefix suffix : string)
         (fuel : nat) (session : Session) (input output : string) (max : Z)
         (g0 : dict DataFrame) (r : result (dict DataFrame)) (st : State)
         (session' : Session) (k : string),
    snowpark_main_handler set_iter content_hash prefix suffix fuel session
      input output max g0 = (r, st, session') ->
    In k (keys g0) ->
    contains "INTERNAL_RESULT" k = true ->
    let name := replace "INTERNAL_RESULT_" "" k in
    In k (keys (globals st))
    /\ ((forall path, k <> result_key prefix suffix path) ->
        dict_get k (globals st) = dict_get k g0)
    /\ (forall results, r = Ok results ->
          exists t, In (name, t) results
                    /\ table session' (output ++ "." ++ name)%string = Some t).
Proof.
  intros set_iter content_hash prefix suffix fuel session input output max g0
    r st session' k H Hk Hm name.
  unfold snowpark_main_handler in H.
  destruct (table session input) as [df | ].
  2:{ inversion H; subst. cbn [init_state globals].
      split; [exact Hk | ]. split; [reflexivity | discriminate]. }
  destruct (model_nested_JSON_objects set_iter content_hash prefix suffix fuel
              df "ENTRY" 0 max (init_state g0)) as [[[] | e | ] st1] eqn:E.
  - rewrite persist_spec in H. inversion H; subst. clear H.
    destruct (@retains_model set_iter content_hash prefix suffix fuel df
                "ENTRY" 0 max _ _ _ E k) as [K V].
    cbn [init_state globals] in K, V. cbn [globals].
    split; [now apply K | ]. split; [exact V | ].
    intros results Hr. inversion Hr; subst. clear Hr.
    assert (Hn : In name (keys (collect_results (globals st1))))
      by (apply collect_results_complete; [now apply K | exact Hm]).
    unfold keys in Hn. apply in_map_iff in Hn. destruct Hn as [[n t] [En Hin]].
    cbn [fst] in En. subst n. exists t. split; [exact Hin | ].
    apply save_all_get; [ | exact Hin].
    apply collect_results_keys.
  - inversion H; subst.
    destruct (@retains_model set_iter content_hash prefix suffix fuel df
                "ENTRY" 0 max _ _ _ E k) as [K V].
    cbn [init_state globals] in K, V.
    split; [now apply K | ]. split; [exact V | discriminate].
  - inversion H; subst.
    destruct (@retains_model set_iter content_hash prefix suffix fuel df
                "ENTRY" 0 max _ _ _ E k) as [K V].
    cbn [init_state globals] in K, V.
    split; [now apply K | ]. split; [exact V | discriminate].
Qed.

Lemma earlier_results_are_returned_again_witness :
  let run := snowpark_main_handler sample_set_iter sample_hash "" "" 2
               [("DB.RAW", c7_flat_table)] "DB.RAW" "OUT" 100 stale_namespace in
  In "INTERNAL_RESULT_OLD_ORDERS" (keys stale_namespace)
  /\ contains "INTERNAL_RESULT" "INTERNAL_RESULT_OLD_ORDERS" = true
  /\ fst (fst run) = Ok [("OLD_ORDERS", c4_table); ("ENTRY", c7_flat_table)]
  /\ In "INTERNAL_RESULT_OLD_ORDERS" (keys (globals (snd (fst run))))
  /\ (forall results, fst (fst run) = Ok results ->
        exists t, In ("OLD_ORDERS", t) results
                  /\ table (snd run) "OUT.OLD_ORDERS" = Some t).
Proof.
  intros run.
  assert (Hk : In "INTERNAL_RESULT_OLD_ORDERS" (keys stale_namespace))
    by (now left).
  assert (Hm : contains "INTERNAL_RESULT" "INTERNAL_RESULT_OLD_ORDERS" = true)
    by reflexivity.
  split; [exact Hk | ]. split; [exact Hm | ].
  split; [vm_compute; reflexivity | ].
  assert (E : snowpark_main_handler sample_set_iter sample_hash "" "" 2
                [("DB.RAW", c7_flat_table)] "DB.RAW" "OUT" 100 stale_namespace
              = (fst (fst run), snd (fst run), snd run))
    by (subst run; now rewrite <- !surjective_pairing).
  destruct (@earlier_results_are_returned_again _ _ _ _ _ _ _ _ _ _ _ _ _ _
              E Hk Hm) as [H1 [_ H3]].
  split; [exact H1 | exact H3].
Defined.

(** A table that is not written keeps what it held. *)
Lemma save_all_frame output results s a :
  (forall name, In name (keys results) -> a <> (output ++ "." ++ name)%string) ->
  dict_get a (save_all output results s) = dict_get a s.
Proof.
  unfold save_all, keys. revert s.
  induction results as [ | [n t] results IH]; intros s H; [reflexivity | ].
  cbn [fold_left fst snd]. rewrite IH.
  - unfold save_as_table. apply dict_get_set_other. apply H. now left.
  - intros name Hin. apply H. now right.
Qed.

(** X9. The handler writes the tables it returns and nothing else: a run
    that raises leaves the session as it was, and after a run that returns,
    every address that is not the output schema followed by the name of a
    returned table holds what it held before; no table is removed. *)
Theorem run_writes_only_the_returned_tables :
  forall (set_iter : list string -> list string)
         (content_hash : Value -> Value) (prefix suffix : string)
         (fuel : nat) (session : Session) (input output : string) (max : Z)
         (g0 : dict DataFrame) (r : result (dict DataFrame)) (st : State)
         (session' : Session),
    snowpark_main_handler set_iter content_hash prefix suffix fuel session
      input output max g0 = (r, st, session') ->
    (forall e, r = Raise e -> session' = session)
    /\ (forall results, r = Ok results ->
          (forall a,
             (forall name, In name (keys results) ->
                           a <> (output ++ "." ++ name)%string) ->
             table session' a = table session a)
          /\ (forall a, In a (keys session) -> In a (keys session'))).
Proof.
  intros set_iter content_hash prefix suffix fuel session input output max g0
    r st session' H.
  unfold snowpark_main_handler in H.
  destruct (table session input) as [df | ].
  2:{ inversion H; subst. split; [reflexivity | discriminate]. }
  destruct (model_nested_JSON_objects set_iter content_hash prefix suffix fuel
              df "ENTRY" 0 max (init_state g0)) as [[[] | e | ] st1] eqn:E.
  - rewrite persist_spec in H. inversion H; subst. clear H.
    split; [discriminate | ]. intros results Hr. inversion Hr; subst. split.
    + intros a Ha. now apply save_all_frame.
    + intros a Ha. unfold save_all.
      generalize (collect_results (globals st1)). intros results.
      revert session Ha. clear.
      induction results as [ | [n t] results IH]; intros session Ha;
        cbn [fold_left fst snd]; [exact Ha | ].
      apply IH. unfold save_as_table. now apply keys_dict_set_mono.
  - inversion H; subst. split; [reflexivity | discriminate].
  - inversion H; subst. split; [reflexivity | discriminate].
Qed.

Lemma run_writes_only_the_returned_tables_witness :
  let session := [("DB.RAW", c8_root_table); ("OUT.OTHER", c4_table)] in
  let run := snowpark_main_handler sample_set_iter sample_hash "" "" 3
               session "DB.RAW" "OUT" 100 [] in
  keys (snd run) = ["DB.RAW"; "OUT.OTHER"; "OUT.ENTRY"; "OUT.ITEMS"]
  /\ (forall results, fst (fst run) = Ok results ->
        (forall a,
           (forall name, In name (keys results) ->
                         a <> ("OUT" ++ "." ++ name)%string) ->
           table (snd run) a = table session a)
        /\ (forall a, In a (keys session) -> In a (keys (snd run)))).
Proof.
  intros session run. split; [vm_compute; reflexivity | ].
  assert (E : snowpark_main_handler sample_set_iter sample_hash "" "" 3
                session "DB.RAW" "OUT" 100 []
              = (fst (fst run), snd (fst run), snd run))
    by (subst run; now rewrite <- !surjective_pairing).
  exact (proj2 (@run_writes_only_the_returned_tables _ _ _ _ _ _ _ _ _ _ _ _
                  _ E)).
Defined.

(** ** The call next to the depth cap *)

Lemma same_globals_refl st : same_globals st st.
Proof. reflexivity. Qed.

Lemma same_globals_trans a b c :
  same_globals a b -> same_globals b c -> same_globals a c.
Proof. unfold same_globals. intros H1 H2. now rewrite H2. Qed.

Lemma same_globals_logger lv f a : preserves same_globals (logger lv f a).
Proof. intros st r st' H. inversion H; subst. reflexivity. Qed.

Lemma same_globals_add x : preserves same_globals (processed_fields_add x).
Proof. intros st r st' H. inversion H; subst. reflexivity. Qed.

Ltac same_globals_step :=
  match goal with
  | |- preserves same_globals (logger _ _ _) => apply same_globals_logger
  | |- preserves same_globals (processed_fields_add _) => apply same_globals_add
  | |- _ => preserves_step same_globals_refl same_globals_trans
  end.

(** A turn of the loop records nothing. *)
Lemma same_globals_loop_body content_hash x acc :
  preserves same_globals (loop_body content_hash x acc).
Proof.
  unfold loop_body, flatten_array, expand_object_subfields.
  destruct acc as [df new_dfs]. repeat same_globals_step.
Qed.

Lemma same_globals_loop content_hash xs acc :
  preserves same_globals (for_each xs (loop_body content_hash) acc).
Proof.
  revert acc.
  refine (@preserves_for_each _ same_globals_refl same_globals_trans _ _ _ _ _).
  intros x _ acc. apply same_globals_loop_body.
Qed.

Section NextToTheCap.

Variable set_iter : list string -> list string.
Variable content_hash : Value -> Value.
Variables prefix suffix : string.

Abbreviation model := (model_nested_JSON_objects set_iter content_hash prefix suffix).

(** The calls on the scheduled tables, when the next call reaches the cap:
    each of them stops at once. *)
Lemma scheduled_calls_at_cap fuel counter max (new_dfs : dict DataFrame) :
  counter + 1 = max ->
  forall st,
    exists st',
      for_each new_dfs
        (fun item (_ : unit) =>
           logger DEBUG "Process new df %s" [AStr (fst item)] ;;
           model (S fuel) (snd item) (fst item) counter max)
        tt st
      = (Ok tt, st')
      /\ globals st' = globals st
      /\ processed_fields st' = processed_fields st.
Proof.
  intros Hcap. induction new_dfs as [ | item new_dfs IH]; intros st.
  - exists st. now repeat split.
  - cbn [for_each]. unfold bind at 1. unfold bind at 1. unfold logger at 1.
    rewrite model_terminal by (right; exact Hcap).
    match goal with
    | |- context [for_each new_dfs _ tt ?s] =>
        destruct (IH s) as [st' [E [G P]]]
    end.
    exists st'. split; [exact E | ]. split; [rewrite G | rewrite P]; reflexivity.
Qed.

Lemma records_at_most_its_own_table fuel df path counter max st r st' :
  counter + 2 = max ->
  model (S (S fuel)) df path counter max st = (r, st') ->
  globals st' = globals st
  \/ (r = Ok tt
      /\ exists d new_dfs s1,
           for_each (cur_unprocessed_fields set_iter df (processed_fields st))
             (loop_body content_hash) (df, [])
             (logged st [start_record (counter + 1) df (processed_fields st)])
           = (Ok (d, new_dfs), s1)
           /\ globals st'
              = dict_set (result_key prefix suffix path) d (globals st)
           /\ processed_fields st' = processed_fields s1).
Proof.
  intros Hcap H.
  destruct (list_eq_dec string_dec
              (cur_unprocessed_fields set_iter df (processed_fields st)) [])
    as [E | E].
  - left. rewrite model_terminal in H by (left; exact E).
    inversion H; subst. reflexivity.
  - rewrite model_step in H; [ | exact E | lia].
    unfold bind at 1 in H.
    destruct (for_each (cur_unprocessed_fields set_iter df (processed_fields st))
                (loop_body content_hash) (df, [])
                (logged st [start_record (counter + 1) df (processed_fields st)]))
      as [[[d new_dfs] | e | ] s1] eqn:L.
    + right. pose proof (@same_globals_loop _ _ _ _ _ _ L) as G.
      unfold same_globals in G. cbn [logged globals] in G.
      unfold after_loop in H. cbn [fst snd] in H.
      unfold bind at 1 in H. unfold globals_set at 1 in H.
      unfold bind at 1 in H.
      rewrite model_terminal in H by (right; lia).
      match type of H with
      | for_each new_dfs _ tt ?s = _ =>
          destruct (@scheduled_calls_at_cap fuel (counter + 1) max new_dfs
                      ltac:(lia) s) as [s2 [E2 [G2 P2]]]
      end.
      rewrite E2 in H. inversion H; subst. split; [reflexivity | ].
      exists d, new_dfs, s1. split; [reflexivity | ].
      split; [rewrite G2 | rewrite P2]; cbn [logged globals processed_fields];
        [now rewrite G | reflexivity].
    + left. inversion H; subst.
      exact (@same_globals_loop _ _ _ _ _ _ L).
    + left. inversion H; subst.
      exact (@same_globals_loop _ _ _ _ _ _ L).
Qed.

End NextToTheCap.

(** X10. A call whose counter is two below the depth cap records at most its
    own table. If its loop goes through, the table it has reduced is recorded
    under its lineage path and the call returns normally, but every table
    that the loop has exploded out of an array field is handed to a call that
    stops at once: the arrays have left the recorded table and their elements
    are recorded nowhere. With a depth cap of two this is the first call of
    the run. *)
Theorem call_next_to_the_cap_drops_the_exploded_tables :
  forall (set_iter : list string -> list string)
         (content_hash : Value -> Value) (prefix suffix : string)
         (fuel : nat) (df : DataFrame) (path : string) (counter max : Z)
         (st : State) (r : result unit) (st' : State),
    counter + 2 = max ->
    model_nested_JSON_objects set_iter content_hash prefix suffix (S (S fuel))
      df path counter max st = (r, st') ->
    globals st' = globals st
    \/ (r = Ok tt
        /\ exists d new_dfs s1,
             for_each (cur_unprocessed_fields set_iter df (processed_fields st))
               (loop_body content_hash) (df, [])
               (logged st [start_record (counter + 1) df (processed_fields st)])
             = (Ok (d, new_dfs), s1)
             /\ globals st'
                = dict_set (result_key prefix suffix path) d (globals st)
             /\ processed_fields st' = processed_fields s1).
Proof.
  intros set_iter content_hash prefix suffix fuel df path counter max st r st'.
  apply records_at_most_its_own_table.
Qed.

Lemma call_next_to_the_cap_drops_the_exploded_tables_witness :
  let st := init_state [] in
  let run := model_nested_JSON_objects sample_set_iter sample_hash "" "" 2
               c8_root_table "ENTRY" 0 2 st in
  0 + 2 = 2
  /\ fst (for_each (cur_unprocessed_fields sample_set_iter c8_root_table [])
            (loop_body sample_hash) (c8_root_table, [])
            (logged st [start_record 1 c8_root_table []]))
     = Ok (reduced_root sample_hash "ITEMS" c8_root_table,
           [("ITEMS", child_table sample_hash "ITEMS" c8_root_table)])
  /\ globals (snd run)
     = [("INTERNAL_RESULT_ENTRY", reduced_root sample_hash "ITEMS" c8_root_table)]
  /\ (globals (snd run) = globals st
      \/ (fst run = Ok tt
          /\ exists d new_dfs s1,
               for_each (cur_unprocessed_fields sample_set_iter c8_root_table
                           (processed_fields st))
                 (loop_body sample_hash) (c8_root_table, [])
                 (logged st [start_record (0 + 1) c8_root_table
                               (processed_fields st)])
               = (Ok (d, new_dfs), s1)
               /\ globals (snd run) = dict_set (result_key "" "" "ENTRY") d (globals st)
               /\ processed_fields (snd run) = processed_fields s1)).
Proof.
  intros st run. split; [reflexivity | ].
  split; [vm_compute; reflexivity | ]. split; [vm_compute; reflexivity | ].
  apply (@call_next_to_the_cap_drops_the_exploded_tables sample_set_iter
           sample_hash "" "" 0 c8_root_table "ENTRY" 0 2 st (fst run) (snd run)).
  - reflexivity.
  - apply surjective_pairing.
Defined.

(** ** The run on a table with an object field *)

Lemma sample_not_nil df x :
  rows df <> [] ->
  rows (limit detect_dtype_from_first (distinct (select [x] df))) <> [].
Proof.
  intros H. cbn [rows limit distinct select].
  destruct (nodup Row_eq_dec (map (fun r => map (fun c => (c, row_get r c)) [x])
                                (rows df))) as [ | a l] eqn:N.
  - exfalso. revert N. apply nodup_not_nil.
    destruct (rows df); [congruence | discriminate].
  - discriminate.
Qed.

Lemma to_unpack_object df x :
  object_column df x -> to_unpack_dtypes df x = [[("TYPEOF", VStr "OBJECT")]].
Proof.
  intros [Hne H]. unfold to_unpack_dtypes.
  cbn [rows filter_isin distinct select_exprs].
  assert (S : forall r', In r' (rows (limit detect_dtype_from_first
                                        (distinct (select [x] df)))) ->
                         exists kvs, row_get r' x = VObj kvs).
  { intros r' Hr'. apply sampled_rows in Hr'. destruct Hr' as [r [Hr ->]].
    rewrite row_get_single. now apply H. }
  apply filter_single.
  - apply NoDup_nodup.
  - pose proof (@sample_not_nil df x Hne) as Hs.
    destruct (rows (limit detect_dtype_from_first (distinct (select [x] df))))
      as [ | r0 l] eqn:E; [congruence | ].
    apply nodup_In. apply in_map_iff. exists r0. split; [ | now left].
    cbn [map fst snd]. destruct (S r0 (or_introl eq_refl)) as [kvs ->].
    reflexivity.
  - reflexivity.
  - intros t Ht _. apply nodup_In in Ht. apply in_map_iff in Ht.
    destruct Ht as [r [<- Hr]]. cbn [map fst snd].
    destruct (S r Hr) as [kvs ->]. reflexivity.
Qed.

Section ObjectRoot.

Variable set_iter : list string -> list string.
Variable content_hash : Value -> Value.
Variables prefix suffix : string.
Hypothesis set_iter_ok : set_iteration set_iter.

Variable F : string.
Variable df : DataFrame.
Hypothesis F_free : F <> "KEY".
Hypothesis F_field : In F (unprocessed_columns df []).
Hypothesis F_objects : object_column df F.
Hypothesis F_keys : exists k, key_of_column df F k.
Hypothesis others_scalar :
  forall c, In c (columns df) -> c <> F -> scalar_column df c.
Hypothesis members_scalar :
  forall r k, In r (rows df) -> is_scalar (subfield (row_get r F) k) = true.

Abbreviation new := (subfield_columns F (object_keys df F)).

Lemma object_root_keys : object_keys df F <> [].
Proof.
  destruct F_keys as [k Hk]. apply (object_keys_In F_free) in Hk.
  intros E. rewrite E in Hk. exact Hk.
Qed.

Lemma expanded_root_Ok : exists df2, expanded_root F df = inr df2.
Proof.
  unfold expanded_root.
  destruct (drop [F] (with_columns new df)) as [e | df2] eqn:D;
    [exfalso | now exists df2].
  unfold drop in D.
  destruct (filter (fun c => negb (mem c [F])) (columns (with_columns new df)))
    as [ | c cs] eqn:E; [ | discriminate].
  destruct F_keys as [k Hk]. apply (object_keys_In F_free) in Hk.
  assert (H : In (F ++ "__" ++ k)%string
                (filter (fun c => negb (mem c [F]))
                   (columns (with_columns new df)))).
  { apply filter_In. split.
    - unfold with_columns. cbn [columns]. apply in_or_app. right.
      apply mem_In. apply subfield_columns_names. now exists k.
    - apply negb_true_iff, mem_false. intros [E' | []].
      symmetry in E'. now apply subfield_name_neq in E'. }
  rewrite E in H. exact H.
Qed.

(** Every column of the expanded table holds scalars. *)
Lemma expanded_root_scalar df2 c :
  expanded_root F df = inr df2 ->
  In c (columns df2) -> scalar_column df2 c.
Proof.
  intros D Hc r' Hr'. unfold expanded_root in D.
  apply (@expanded_columns F (object_keys df F) df df2 c D) in Hc. destruct Hc as [Nx Hc].
  destruct (@expanded_row_get F (object_keys df F) df df2 r' c D Hr' Nx)
    as [r [Hr ->]].
  destruct (mem c (map fst new)) eqn:E.
  - rewrite with_row_new by exact E.
    apply subfield_columns_names in E. destruct E as [k [Hk ->]].
    rewrite subfield_columns_value by exact Hk. now apply members_scalar.
  - rewrite with_row_old by exact E.
    destruct Hc as [Hc | Hc]; [ | discriminate].
    now apply others_scalar.
Qed.

(** The loop of the first call: the scalar fields are marked processed, the
    object field is expanded, marked processed and dropped. *)
Lemma object_root_loop df2 st :
  expanded_root F df = inr df2 ->
  exists st',
    for_each (cur_unprocessed_fields set_iter df []) (loop_body content_hash)
      (df, []) st
    = (Ok (df2, []), st')
    /\ globals st' = globals st
    /\ (set_in F (processed_fields st') = true).
Proof.
  intros D. unfold cur_unprocessed_fields.
  pose proof (proj1 (set_iter_ok (unprocessed_columns df []))) as Hnd.
  pose proof (set_iter_complete set_iter_ok _ _ F_field) as Hin.
  destruct (in_split _ _ Hin) as [pre [post Hcur]].
  rewrite Hcur in Hnd. apply NoDup_remove_2 in Hnd.
  assert (Hmem : forall x, In x (pre ++ post) ->
                           In x (columns df) /\ x <> F).
  { intros x Hx. split.
    - assert (Hu : In x (unprocessed_columns df [])).
      { apply (set_iter_sound set_iter_ok). rewrite Hcur.
        apply in_app_or in Hx. apply in_or_app.
        destruct Hx; [now left | right; now right]. }
      apply unprocessed_columns_In in Hu. tauto.
    - intros ->. contradiction. }
  rewrite Hcur, for_each_app. unfold bind at 1.
  rewrite for_each_scalars.
  2:{ intros x Hx. apply to_unpack_scalar.
      destruct (Hmem x (in_or_app _ _ _ (or_introl Hx))) as [Hc Hn].
      now apply others_scalar. }
  cbn [for_each]. unfold bind at 1.
  rewrite loop_body_object_eq
    by (first [now apply to_unpack_object | apply object_root_keys]).
  unfold expanded_root in D. rewrite D.
  rewrite for_each_scalars.
  2:{ intros x Hx. apply to_unpack_scalar.
      destruct (Hmem x (in_or_app _ _ _ (or_intror Hx))) as [Hc Hn].
      apply expanded_root_scalar; [exact D | ].
      apply (@expanded_columns F (object_keys df F) df df2 x D).
      split; [exact Hn | now left]. }
  eexists. split; [reflexivity | ]. split; [reflexivity | ].
  apply after_scalars_processed. right.
  cbn [after_object processed_fields]. apply set_in_add. now left.
Qed.

(** The calls after the loop: the expanded table is recorded, and the call
    on it has scalar columns only. *)
Lemma after_object_root_loop fuel max df2 st :
  expanded_root F df = inr df2 ->
  exists st',
    after_loop set_iter content_hash prefix suffix (S (S fuel)) "ENTRY" 1 max
      (df2, []) st
    = (Ok tt, st')
    /\ globals st'
       = dict_set (result_key prefix suffix "ENTRY") df2 (globals st)
    /\ grows st st'.
Proof.
  intros D. unfold after_loop. cbn [fst snd for_each].
  unfold bind at 1. unfold globals_set at 1. unfold bind at 1.
  match goal with
  | |- context [model_nested_JSON_objects _ _ _ _ _ df2 "ENTRY" 1 max ?s] =>
      set (s2 := s)
  end.
  destruct (@terminal_or_not set_iter df2 (processed_fields s2) 1 max)
    as [T | [T1 T2]].
  - rewrite model_terminal by exact T. unfold ret.
    eexists. split; [reflexivity | ]. split; [reflexivity | ].
    intros x Hx. exact Hx.
  - destruct (@flat_call set_iter content_hash prefix suffix set_iter_ok
                fuel df2 "ENTRY" 1 max s2) as [st' [Hrun [Hg Hgrows]]].
    + intros c Hc. apply expanded_root_scalar; [exact D | ].
      apply unprocessed_columns_In in Hc. tauto.
    + intros E. apply T1. unfold cur_unprocessed_fields. rewrite E.
      apply (set_iter_nil set_iter_ok).
    + exact T2.
    + rewrite Hrun. unfold ret. exists st'. split; [reflexivity | ].
      split.
      * rewrite Hg. unfold s2. cbn [globals]. apply dict_set_idem.
      * intros x Hx. apply Hgrows. exact Hx.
Qed.

Lemma object_root_run fuel session input output max g0 df2 :
  expanded_root F df = inr df2 ->
  table session input = Some df ->
  max <> 1 ->
  fresh_namespace g0 ->
  contains "INTERNAL_RESULT_" (prefix ++ "ENTRY" ++ suffix)%string = false ->
  exists st,
    snowpark_main_handler set_iter content_hash prefix suffix
      (S (S (S fuel))) session input output max g0
    = (Ok [((prefix ++ "ENTRY" ++ suffix)%string, df2)], st,
       save_as_table (output ++ "." ++ prefix ++ "ENTRY" ++ suffix)%string df2
         session)
    /\ set_in F (processed_fields st) = true.
Proof.
  intros D Ht Hmax Hg0 Hname.
  assert (Hcur : cur_unprocessed_fields set_iter df [] <> []).
  { apply (set_iter_not_nil set_iter_ok). intros E.
    rewrite E in F_field. exact F_field. }
  destruct (@object_root_loop df2
              (logged (init_state g0) [start_record 1 df []]) D)
    as [st1 [Hloop [Hg1 Hp1]]].
  destruct (@after_object_root_loop fuel max df2 st1 D)
    as [st2 [Hafter [Hg2 Hgrows]]].
  assert (Hrun : model_nested_JSON_objects set_iter content_hash prefix suffix
                   (S (S (S fuel))) df "ENTRY" 0 max (init_state g0)
                 = (Ok tt, st2)).
  { rewrite model_step; [ | exact Hcur | lia ].
    change (processed_fields (init_state g0)) with (@nil string).
    change (0 + 1) with 1. unfold bind at 1. rewrite Hloop. exact Hafter. }
  eexists. split.
  - erewrite handler_Ok; [ | exact Ht | exact Hrun ].
    rewrite Hg2, Hg1. cbn [logged init_state globals].
    rewrite <- (app_nil_r g0).
    rewrite dict_set_fresh_app by (now apply result_key_not_fresh).
    rewrite collect_results_fresh_app by exact Hg0.
    unfold collect_results. cbn [dict_set fold_left fst snd].
    rewrite result_key_marked, replace_result_key by exact Hname.
    cbn [dict_set save_all fold_left fst snd]. reflexivity.
  - cbn [logged processed_fields]. now apply Hgrows.
Qed.

End ObjectRoot.

(** X11. The run on a table whose columns are scalar but for one field [F]
    that holds objects with scalar members. The objects are expanded in
    place: no child table is made, the run returns one table, under
    [prefix ++ ENTRY ++ suffix], and writes it to the output schema; this
    table is the input with one column [F__k] per key added and [F] dropped,
    it has as many rows as the input, and [F] is marked processed. Any
    depth cap but one will do. *)
Theorem object_field_is_expanded_in_place :
  forall (set_iter : list string -> list string)
         (content_hash : Value -> Value) (prefix suffix : string)
         (fuel : nat) (session : Session) (input output : string) (max : Z)
         (df : DataFrame) (g0 : dict DataFrame) (F : string),
    set_iteration set_iter ->
    table session input = Some df ->
    F <> "KEY" ->
    In F (unprocessed_columns df []) ->
    object_column df F ->
    (exists k, key_of_column df F k) ->
    (forall c, In c (columns df) -> c <> F -> scalar_column df c) ->
    (forall r k, In r (rows df) -> is_scalar (subfield (row_get r F) k) = true) ->
    max <> 1 ->
    fresh_namespace g0 ->
    contains "INTERNAL_RESULT_" (prefix ++ "ENTRY" ++ suffix)%string = false ->
    let name := (prefix ++ "ENTRY" ++ suffix)%string in
    exists df2 st,
      drop [F] (with_columns (subfield_columns F (object_keys df F)) df)
      = inr df2
      /\ snowpark_main_handler set_iter content_hash prefix suffix
           (S (S (S fuel))) session input output max g0
         = (Ok [(name, df2)], st,
            save_as_table (output ++ "." ++ name)%string df2 session)
      /\ (forall c, In c (columns df2)
                    <-> c <> F
                        /\ (In c (columns df)
                            \/ exists k, key_of_column df F k
                                         /\ c = (F ++ "__" ++ k)%string))
      /\ List.length (rows df2) = List.length (rows df)
      /\ set_in F (processed_fields st) = true.
Proof.
  intros set_iter content_hash prefix suffix fuel session input output max df
    g0 F Hset Ht HF Hfield Hobj Hkeys Hothers Hmembers Hmax Hg0 Hname name.
  destruct (@expanded_root_Ok F df HF Hkeys) as [df2 D].
  destruct (@object_root_run set_iter content_hash prefix suffix Hset F df HF
              Hfield Hobj Hkeys Hothers Hmembers fuel session input output max
              g0 df2 D Ht Hmax Hg0 Hname) as [st [Hrun Hp]].
  exists df2, st. unfold expanded_root in D.
  split; [exact D | ]. split; [exact Hrun | ]. split; [ | split; [ | exact Hp]].
  - intros c.
    rewrite (@expanded_columns F (object_keys df F) df df2 c D),
      subfield_columns_names.
    split; intros [N [H | [k [Hk E]]]]; (split; [exact N | ]);
      try (now left); right; exists k; (split; [ | exact E]);
      now apply (object_keys_In HF).
  - rewrite (@drop_rows [F] _ df2 D), with_columns_rows, !length_map.
    reflexivity.
Qed.

Lemma object_field_is_expanded_in_place_witness :
  exists df2 st,
    snowpark_main_handler sample_set_iter sample_hash "" "" 3
      [("DB.RAW", object_root_table)] "DB.RAW" "OUT" 100 []
    = (Ok [("ENTRY", df2)], st,
       [("DB.RAW", object_root_table); ("OUT.ENTRY", df2)])
    /\ columns df2 = ["ID"; "ADDRESS__zip"; "ADDRESS__city"]
    /\ List.length (rows df2) = 2%nat.
Proof.
  destruct (@object_field_is_expanded_in_place sample_set_iter sample_hash ""
              "" 0 [("DB.RAW", object_root_table)] "DB.RAW" "OUT" 100
              object_root_table [] "ADDRESS")
    as [df2 [st [D [Hrun [_ [Hlen _]]]]]].
  - exact sample_set_iter_ok.
  - reflexivity.
  - discriminate.
  - vm_compute. right. now left.
  - split; [discriminate | ].
    intros r [<- | [<- | []]]; eexists; reflexivity.
  - exists "city". eexists. eexists. split; [left; reflexivity | ].
    split; [reflexivity | now left].
  - intros c [<- | [<- | []]] Hc; [ | congruence].
    intros r [<- | [<- | []]]; reflexivity.
  - intros r k [<- | [<- | []]]; cbn [row_get subfield];
      change (String.eqb "ADDRESS" "ID") with false;
      change (String.eqb "ADDRESS" "ADDRESS") with true; cbv iota;
      cbn [subfield row_get];
      repeat (match goal with
              | |- context [String.eqb ?a ?b] => destruct (String.eqb a b)
              end); reflexivity.
  - discriminate.
  - intros k [].
  - reflexivity.
  - vm_compute in D. injection D as <-.
    exists {| columns := ["ID"; "ADDRESS__zip"; "ADDRESS__city"];
              rows := [[("ID", VNum 1); ("ADDRESS__zip", VStr "0150");
                        ("ADDRESS__city", VStr "Oslo")];
                       [("ID", VNum 2); ("ADDRESS__zip", VNull);
                        ("ADDRESS__city", VStr "Bergen")]] |}, st.
    split; [exact Hrun | ]. split; reflexivity.
Defined.

(** ** An array field that holds arrays *)

Lemma dict_set_twice (A : Type) (k : string) (v v' : A) (d : dict A) :
  dict_set k v (dict_set k v' d) = dict_set k v d.
Proof.
  induction d as [ | [k' w] d IH]; cbn [dict_set].
  - now rewrite String.eqb_refl.
  - destruct (String.eqb k k') eqn:E; cbn [dict_set].
    + now rewrite String.eqb_refl.
    + now rewrite E, IH.
Qed.

Lemma child_table_rows_In content_hash f df (c : Row) :
  In c (rows (child_table content_hash f df))
  <-> exists r e, In r (rows df) /\ In e (explode_outer (row_get r f))
                  /\ c = [((f ++ "_SHA256")%string, content_hash (row_get r f));
                          (f, e)].
Proof.
  unfold child_table. cbn [rows distinct]. unfold child_rows.
  rewrite in_flat_map. split.
  - intros [p [Hp Hc]]. apply nodup_In in Hp.
    rewrite select_with_hash_rows in Hp. apply in_map_iff in Hp.
    destruct Hp as [r [<- Hr]]. apply in_map_iff in Hc.
    destruct Hc as [e [<- He]]. rewrite pair_field in He.
    exists r, e. rewrite pair_hash. now repeat split.
  - intros [r [e [Hr [He ->]]]].
    exists [((f ++ "_SHA256")%string, content_hash (row_get r f));
            (f, row_get r f)].
    split.
    + apply nodup_In. rewrite select_with_hash_rows.
      apply (in_map (fun r => [((f ++ "_SHA256")%string,
                                content_hash (row_get r f)); (f, row_get r f)])).
      exact Hr.
    + apply in_map_iff. exists e. rewrite pair_hash, pair_field. now split.
Qed.

Lemma child_table_unprocessed content_hash f df processed :
  contains "SHA256" f = false ->
  contains "INGESTION_CTRL" f = false ->
  set_in f processed = false ->
  unprocessed_columns (child_table content_hash f df) processed = [f].
Proof.
  intros H1 H2 H. unfold unprocessed_columns, child_table.
  cbn [columns filter forallb]. rewrite hash_field_contains, H1, H2, H.
  reflexivity.
Qed.

(** The child table of a child table keeps one column, the hash, once its
    array is exploded in turn. *)
Lemma reduced_child_unprocessed content_hash f df processed :
  unprocessed_columns
    (reduced_root content_hash f (child_table content_hash f df)) processed
  = [].
Proof.
  unfold unprocessed_columns. rewrite reduced_root_columns.
  unfold child_table. cbn [columns filter mem existsb].
  rewrite String.eqb_refl. cbn [orb negb].
  replace (String.eqb f (f ++ "_SHA256")) with false.
  2:{ symmetry. apply String.eqb_neq. intros E. symmetry in E.
      now apply hash_field_neq in E. }
  cbn [orb negb filter mem existsb]. rewrite String.eqb_refl.
  cbn [orb negb app filter forallb]. rewrite hash_field_contains.
  reflexivity.
Qed.

Section NestedArrays.

Variable set_iter : list string -> list string.
Variable content_hash : Value -> Value.
Variables prefix suffix : string.
Hypothesis set_iter_ok : set_iteration set_iter.

Variable F : string.
Variable df : DataFrame.
Hypothesis F_free : mem F FLATTEN_COLS = false.
Hypothesis F_field : In F (unprocessed_columns df []).
Hypothesis F_nested : nested_array_column df F.
Hypothesis others_scalar :
  forall c, In c (columns df) -> c <> F -> scalar_column df c.

Abbreviation model := (model_nested_JSON_objects set_iter content_hash prefix suffix).
Abbreviation reduced := (reduced_root content_hash F df).
Abbreviation child1 := (child_table content_hash F df).
Abbreviation reduced1 := (reduced_root content_hash F child1).
Abbreviation child2 := (child_table content_hash F child1).

Lemma F_arrays : array_column df F.
Proof.
  destruct F_nested as [Hne H]. split; [exact Hne | ].
  intros r Hr. destruct (H r Hr) as [l [E _]]. now exists l.
Qed.

(** The first child table holds the inner arrays. *)
Lemma child1_row (c : Row) :
  In c (rows child1) ->
  exists r l inner,
    In r (rows df) /\ row_get r F = VArr l /\ In (VArr inner) l
    /\ (forall e', In e' inner -> is_scalar e' = true)
    /\ c = [((F ++ "_SHA256")%string, content_hash (VArr l)); (F, VArr inner)].
Proof.
  intros Hc. apply child_table_rows_In in Hc.
  destruct Hc as [r [e [Hr [He ->]]]].
  destruct (proj2 F_nested r Hr) as [l [E [Hl Hel]]]. rewrite E in He |- *.
  destruct l as [ | x l]; [congruence | ]. cbn [explode_outer] in He.
  destruct (Hel e He) as [inner [-> Hs]].
  exists r, (x :: l), inner. now repeat split.
Qed.

Lemma child1_arrays : array_column child1 F.
Proof.
  split.
  - destruct F_nested as [Hne H].
    destruct (rows df) as [ | r rs] eqn:R; [congruence | ].
    destruct (H r (or_introl eq_refl)) as [l [E [Hl _]]].
    destruct l as [ | x l]; [congruence | ].
    intros N.
    assert (Hin : In [((F ++ "_SHA256")%string, content_hash (row_get r F));
                      (F, x)] (rows child1)).
    { apply child_table_rows_In. exists r, x. rewrite R, E.
      split; [now left | ]. split; [now left | reflexivity]. }
    rewrite N in Hin. exact Hin.
  - intros c Hc. destruct (@child1_row c Hc) as [r [l [inner [_ [_ [_ [_ ->]]]]]]].
    exists inner. apply pair_field.
Qed.

Lemma child2_scalar : scalar_column child2 F.
Proof.
  apply child_table_scalar; [exact F_free | ].
  intros c l' e' Hc E He.
  destruct (@child1_row c Hc) as [r [l [inner [_ [_ [_ [Hs ->]]]]]]].
  rewrite pair_field in E. injection E as <-. now apply Hs.
Qed.

Lemma F_name : contains "SHA256" F = false /\ contains "INGESTION_CTRL" F = false.
Proof. apply unprocessed_columns_In in F_field. tauto. Qed.

(** The call on the first child table: its array is exploded in turn, and
    the table of the elements is recorded under the same name. *)
Lemma child_call fuel max st :
  max <> 2 -> max <> 3 ->
  set_in F (processed_fields st) = false ->
  exists st',
    model (S (S (S fuel))) child1 F 1 max st = (Ok tt, st')
    /\ globals st' = dict_set (result_key prefix suffix F) child2 (globals st).
Proof.
  intros Hmax2 Hmax3 Hp. destruct F_name as [N1 N2].
  assert (Hcur : cur_unprocessed_fields set_iter child1 (processed_fields st)
                 = [F]).
  { unfold cur_unprocessed_fields.
    rewrite child_table_unprocessed by assumption.
    apply (set_iter_single set_iter_ok). }
  rewrite model_step; [ | rewrite Hcur; discriminate | lia ].
  rewrite Hcur. cbn [for_each]. unfold bind at 1. unfold bind at 1.
  rewrite loop_body_array
    by (first [apply to_unpack_array, child1_arrays
              | apply free_not_value, F_free]).
  unfold ret at 1. unfold after_loop. cbn [fst snd dict_set].
  unfold bind at 1. unfold globals_set at 1. unfold bind at 1.
  rewrite model_terminal.
  2:{ left. unfold cur_unprocessed_fields.
      rewrite reduced_child_unprocessed. apply (set_iter_nil set_iter_ok). }
  cbn [for_each]. unfold bind at 1. unfold bind at 1. unfold logger at 1.
  cbn [fst snd].
  match goal with
  | |- context [model_nested_JSON_objects _ _ _ _ _ child2 F (1 + 1) max ?s] =>
      destruct (@flat_call set_iter content_hash prefix suffix set_iter_ok
                  fuel child2 F (1 + 1) max s) as [st' [Hrun [Hg _]]]
  end.
  - cbn [processed_fields logged]. intros c Hc.
    rewrite child_table_unprocessed in Hc by assumption.
    destruct Hc as [<- | []]. apply child2_scalar.
  - cbn [processed_fields logged].
    rewrite child_table_unprocessed by assumption. discriminate.
  - lia.
  - rewrite Hrun. unfold ret. exists st'. split; [reflexivity | ].
    rewrite Hg. cbn [globals logged]. apply dict_set_twice.
Qed.

Lemma after_nested_root_loop fuel max st :
  max <> 2 -> max <> 3 ->
  (forall x, set_in x (processed_fields st) = true
             <-> In x (unprocessed_columns df []) /\ x <> F) ->
  exists st',
    after_loop set_iter content_hash prefix suffix (S (S (S fuel))) "ENTRY" 1
      max (reduced, [(F, child1)]) st
    = (Ok tt, st')
    /\ globals st'
       = dict_set (result_key prefix suffix F) child2
           (dict_set (result_key prefix suffix "ENTRY") reduced (globals st)).
Proof.
  intros Hmax2 Hmax3 Hp. unfold after_loop. cbn [fst snd].
  unfold bind at 1. unfold globals_set at 1.
  unfold bind at 1. rewrite model_terminal.
  2:{ left. cbn [processed_fields]. apply (nothing_left set_iter_ok).
      intros c Hc. apply Hp. apply unprocessed_columns_In in Hc.
      destruct Hc as [Hc [H1 [H2 _]]].
      assert (Hn : c <> F).
      { intros ->. now apply (@reduced_root_not_in content_hash F df). }
      split; [ | exact Hn].
      apply unprocessed_columns_In. repeat split; try assumption.
      fold (columns reduced) in Hc. rewrite reduced_root_columns in Hc.
      apply in_app_or in Hc. destruct Hc as [Hc | [Hc | []]].
      - apply filter_In in Hc. destruct Hc as [Hc _].
        apply filter_In in Hc. tauto.
      - subst c. rewrite hash_field_contains in H1. discriminate. }
  cbn [for_each]. unfold bind at 1. unfold bind at 1. unfold logger at 1.
  cbn [fst snd].
  match goal with
  | |- context [model_nested_JSON_objects _ _ _ _ _ child1 F 1 max ?s] =>
      destruct (@child_call fuel max s Hmax2 Hmax3) as [st' [Hrun Hg]]
  end.
  - cbn [processed_fields logged].
    destruct (set_in F (processed_fields st)) eqn:E; [ | reflexivity].
    apply Hp in E. destruct E as [_ E]. congruence.
  - rewrite Hrun. unfold ret. exists st'. split; [reflexivity | ].
    rewrite Hg. reflexivity.
Qed.

Lemma nested_model_run fuel max g0 :
  max <> 1 -> max <> 2 -> max <> 3 ->
  exists st,
    model (S (S (S (S fuel)))) df "ENTRY" 0 max (init_state g0) = (Ok tt, st)
    /\ globals st
       = dict_set (result_key prefix suffix F) child2
           (dict_set (result_key prefix suffix "ENTRY") reduced g0).
Proof.
  intros Hmax1 Hmax2 Hmax3. rewrite model_step.
  - change (processed_fields (init_state g0)) with (@nil string).
    change (0 + 1) with 1.
    destruct (@root_loop set_iter content_hash set_iter_ok F df F_free F_field
                F_arrays others_scalar
                (logged (init_state g0) [start_record 1 df []]) eq_refl)
      as [st1 [Hloop [Hg1 Hp1]]].
    unfold bind. rewrite Hloop.
    destruct (@after_nested_root_loop fuel max st1 Hmax2 Hmax3 Hp1)
      as [st2 [Hafter Hg2]].
    exists st2. split; [exact Hafter | ]. rewrite Hg2, Hg1. reflexivity.
  - change (processed_fields (init_state g0)) with (@nil string).
    apply (set_iter_not_nil set_iter_ok). intros E. rewrite E in F_field.
    exact F_field.
  - lia.
Qed.

End NestedArrays.

Lemma entry_name_differs (prefix suffix F : string) :
  F <> "ENTRY" -> (prefix ++ F ++ suffix)%string <> (prefix ++ "ENTRY" ++ suffix)%string.
Proof.
  intros N E. apply append_inj_l in E.
  assert (L : String.length F = String.length "ENTRY").
  { apply (f_equal String.length) in E. rewrite !append_length in E. lia. }
  apply N. clear N. revert E L. generalize "ENTRY" as G.
  induction F as [ | a F IH]; intros [ | b G] E L; cbn [String.length] in L;
    try discriminate; [reflexivity | ].
  cbn [append] in E. injection E as -> E. f_equal. apply IH; [exact E | lia].
Qed.



(** ** The exceptions of a run *)

Lemma subfield_name_not_flatten (f k : string) :
  mem (f ++ "__" ++ k)%string FLATTEN_COLS = false.
Proof.
  apply mem_false. intros Hin.
  assert (H : contains "__" (f ++ "__" ++ k)%string = true)
    by (apply contains_append_r, contains_self_append).
  assert (N : forall c, In c FLATTEN_COLS -> contains "__" c = false).
  { intros c Hc. unfold FLATTEN_COLS in Hc.
    repeat (destruct Hc as [<- | Hc]; [reflexivity | ]). destruct Hc. }
  rewrite (N _ Hin) in H. discriminate.
Qed.

(** The drop that follows an expansion leaves the new columns. *)
Lemma drop_expanded_Ok x ks df :
  ks <> [] ->
  exists df', drop [x] (with_columns (subfield_columns x ks) df) = inr df'.
Proof.
  intros Hks.
  destruct (drop [x] (with_columns (subfield_columns x ks) df))
    as [e | df'] eqn:D; [exfalso | now exists df'].
  unfold drop in D.
  destruct (filter (fun c => negb (mem c [x]))
              (columns (with_columns (subfield_columns x ks) df)))
    as [ | c cs] eqn:E; [ | discriminate].
  destruct ks as [ | k ks]; [congruence | ].
  assert (H : In (x ++ "__" ++ k)%string
                (filter (fun c => negb (mem c [x]))
                   (columns (with_columns (subfield_columns x (k :: ks)) df)))).
  { apply filter_In. split.
    - unfold with_columns. cbn [columns]. apply in_or_app. right.
      cbn [subfield_columns map fst]. now left.
    - apply negb_true_iff, mem_false. intros [E' | []].
      symmetry in E'. now apply subfield_name_neq in E'. }
  rewrite E in H. exact H.
Qed.

(** One turn of the loop on a table with clean column names. *)
Lemma loop_body_outcome content_hash x df new_dfs st r st' :
  mem x FLATTEN_COLS = false ->
  clean_columns df ->
  loop_body content_hash x (df, new_dfs) st = (r, st') ->
  loop_outcome new_dfs r.
Proof.
  intros Hx Hdf H.
  destruct (to_unpack_dtypes df x) as [ | t [ | t' l]] eqn:E.
  - rewrite loop_body_scalar in H by exact E. inversion H; subst.
    cbn [loop_outcome fst snd]. split; [exact Hdf | intros item Hi; now left].
  - destruct (@to_unpack_rows df x t) as [-> | ->]; [rewrite E; now left | | ].
    + rewrite loop_body_array in H; [ | exact E | now apply free_not_value].
      inversion H; subst. cbn [loop_outcome fst snd]. split.
      * intros c Hc. apply reduced_root_columns_In in Hc.
        destruct Hc as [[Hc _] | ->];
          [now apply Hdf | apply hash_field_not_flatten].
      * intros item Hi. apply In_dict_set in Hi.
        destruct Hi as [-> | Hi]; [right | now left].
        intros c Hc. cbn [snd child_table columns] in Hc.
        destruct Hc as [<- | [<- | []]];
          [apply hash_field_not_flatten | exact Hx].
    + destruct (object_keys df x) as [ | k ks] eqn:K.
      * rewrite loop_body_object_no_keys in H by assumption.
        inversion H; subst. right. reflexivity.
      * rewrite loop_body_object_eq in H
          by (first [exact E | rewrite K; discriminate]).
        destruct (@drop_expanded_Ok x (object_keys df x) df) as [df' D];
          [rewrite K; discriminate | ].
        rewrite D in H. inversion H; subst. cbn [loop_outcome fst snd].
        split; [ | intros item Hi; now left].
        intros c Hc.
        apply (@expanded_columns x (object_keys df x) df df' c D) in Hc.
        destruct Hc as [_ [Hc | Hc]]; [now apply Hdf | ].
        apply subfield_columns_names in Hc. destruct Hc as [k' [_ ->]].
        apply subfield_name_not_flatten.
  - rewrite loop_body_ambiguous in H by (rewrite E; cbn [List.length]; lia).
    inversion H; subst. left. reflexivity.
Qed.

Lemma loop_outcome_all content_hash xs :
  forall acc st r st',
    (forall x, In x xs -> mem x FLATTEN_COLS = false) ->
    clean_columns (fst acc) ->
    (forall item, In item (snd acc) -> clean_columns (snd item)) ->
    for_each xs (loop_body content_hash) acc st = (r, st') ->
    match r with
    | Ok acc' =>
        clean_columns (fst acc')
        /\ forall item, In item (snd acc') -> clean_columns (snd item)
    | Raise e => decomposition_error e
    | OutOfFuel => False
    end.
Proof.
  induction xs as [ | x xs IH]; intros [df new_dfs] st r st' Hxs Hdf Hnew H.
  - inversion H; subst. now split.
  - cbn [for_each] in H. unfold bind in H.
    destruct (loop_body content_hash x (df, new_dfs) st)
      as [[[df1 new1] | e | ] st1] eqn:L;
      pose proof (@loop_body_outcome content_hash x df new_dfs st _ _
                    (Hxs x (or_introl eq_refl)) Hdf L) as O;
      cbn [loop_outcome fst snd] in O.
    + destruct O as [O1 O2].
      apply (IH (df1, new1) st1 r st'); try assumption.
      * intros y Hy. apply Hxs. now right.
      * intros item Hi. destruct (O2 item Hi) as [Hold | Hc];
          [now apply Hnew | exact Hc].
    + inversion H; subst. exact O.
    + destruct O.
Qed.

(** An exception of a loop is an exception of one of its turns. *)
Lemma for_each_raise_In (A B : Type) (xs : list A) (body : A -> B -> M B)
    (P : exn -> Prop) :
  (forall x, In x xs -> forall acc st e st',
     body x acc st = (Raise e, st') -> P e) ->
  forall acc st e st', for_each xs body acc st = (Raise e, st') -> P e.
Proof.
  induction xs as [ | x xs IH]; intros Hb acc st e st' H; [discriminate | ].
  cbn [for_each] in H. unfold bind in H.
  destruct (body x acc st) as [[acc1 | e1 | ] st1] eqn:E.
  - apply (IH (fun y Hy => Hb y (or_intror Hy)) acc1 st1 e st' H).
  - inversion H; subst. apply (Hb x (or_introl eq_refl) acc st e st' E).
  - discriminate.
Qed.

Section RunErrors.

Variable set_iter : list string -> list string.
Variable content_hash : Value -> Value.
Variables prefix suffix : string.
Hypothesis set_iter_incl : forall l x, In x (set_iter l) -> In x l.

Lemma cur_fields_clean df processed x :
  clean_columns df ->
  In x (cur_unprocessed_fields set_iter df processed) ->
  mem x FLATTEN_COLS = false.
Proof.
  intros Hdf Hx. apply set_iter_incl in Hx. unfold unprocessed_columns in Hx.
  apply filter_In in Hx. now apply Hdf.
Qed.

Lemma model_errors fuel :
  forall df path counter max st e st',
    clean_columns df ->
    model_nested_JSON_objects set_iter content_hash prefix suffix fuel df path
      counter max st = (Raise e, st') ->
    decomposition_error e.
Proof.
  induction fuel as [ | fuel IH]; intros df path counter max st e st' Hdf H;
    [discriminate | ].
  destruct (list_eq_dec string_dec
              (cur_unprocessed_fields set_iter df (processed_fields st)) [])
    as [T | T]; [rewrite model_terminal in H by (now left); discriminate | ].
  destruct (Z.eq_dec (counter + 1) max) as [C | C];
    [rewrite model_terminal in H by (now right); discriminate | ].
  rewrite model_step in H by assumption.
  unfold bind at 1 in H.
  destruct (for_each (cur_unprocessed_fields set_iter df (processed_fields st))
              (loop_body content_hash) (df, []) _)
    as [[[d new_dfs] | e1 | ] s1] eqn:L;
    pose proof (@loop_outcome_all content_hash _ (df, []) _ _ _
                  (fun x Hx => @cur_fields_clean df _ x Hdf Hx) Hdf
                  (fun item (Hi : In item []) => match Hi with end) L) as O;
    cbn [fst snd] in O.
  - destruct O as [Od Onew]. unfold after_loop in H. cbn [fst snd] in H.
    unfold bind at 1 in H. unfold globals_set at 1 in H.
    unfold bind at 1 in H.
    destruct (model_nested_JSON_objects set_iter content_hash prefix suffix
                fuel d path (counter + 1) max _) as [[[] | e2 | ] s2] eqn:R.
    + revert H. apply for_each_raise_In. intros item Hi [] s e3 s3 H.
      unfold bind at 1 in H. unfold logger at 1 in H.
      apply (IH _ _ _ _ _ _ _ (Onew item Hi) H).
    + inversion H; subst. apply (IH _ _ _ _ _ _ _ Od R).
    + discriminate.
  - inversion H; subst. exact O.
  - destruct O.
Qed.

End RunErrors.

(** X13. The exceptions of a run. On an input table none of whose columns
    is called like a column of the explode primitive, a run of the handler
    that raises raises one of two exceptions, at whatever depth of the
    decomposition: the [TypeError] of a field whose sample holds both arrays
    and objects, or the [ValueError] of the two-name unpacking for an object
    field without any key. Nothing else in the decomposition can fail: the
    drop after an explosion or an expansion always leaves a column. *)
Theorem a_run_raises_one_of_two_exceptions :
  forall (set_iter : list string -> list string)
         (content_hash : Value -> Value) (prefix suffix : string)
         (fuel : nat) (session : Session) (input output : string) (max : Z)
         (df : DataFrame) (g0 : dict DataFrame) (e : exn) (st : State)
         (session' : Session),
    (forall l x, In x (set_iter l) -> In x l) ->
    table session input = Some df ->
    (forall c, In c (columns df) -> mem c FLATTEN_COLS = false) ->
    snowpark_main_handler set_iter content_hash prefix suffix fuel session
      input output max g0 = (Raise e, st, session') ->
    (e = TypeError ambiguous_message
     \/ e = ValueError "not enough values to unpack (expected 2, got 0)")
    /\ session' = session.
Proof.
  intros set_iter content_hash prefix suffix fuel session input output max df
    g0 e st session' Hincl Ht Hclean H.
  unfold snowpark_main_handler in H. rewrite Ht in H.
  destruct (model_nested_JSON_objects set_iter content_hash prefix suffix fuel
              df "ENTRY" 0 max (init_state g0)) as [[[] | e1 | ] st1] eqn:E.
  - destruct (persist _ _ _). discriminate.
  - inversion H; subst. split; [ | reflexivity].
    exact (@model_errors set_iter content_hash prefix suffix Hincl fuel df
             "ENTRY" 0 max (init_state g0) e st Hclean E).
  - discriminate.
Qed.

Lemma a_run_raises_one_of_two_exceptions_witness :
  let session := [("DB.RAW", c10_empty_objects_table)] in
  let run := snowpark_main_handler sample_set_iter sample_hash "" "" 5
               session "DB.RAW" "OUT" 100 [] in
  fst (fst run) = Raise unpack_error
  /\ (unpack_error = TypeError ambiguous_message
      \/ unpack_error
         = ValueError "not enough values to unpack (expected 2, got 0)")
  /\ snd run = session.
Proof.
  intros session run. split; [vm_compute; reflexivity | ].
  apply (@a_run_raises_one_of_two_exceptions sample_set_iter sample_hash "" ""
           5 session "DB.RAW" "OUT" 100 c10_empty_objects_table []
           unpack_error (snd (fst run)) (snd run) sample_set_iter_incl).
  - reflexivity.
  - intros c [<- | [<- | []]]; reflexivity.
  - vm_compute. reflexivity.
Defined.

(** ** A field that holds arrays and objects *)

Lemma two_in_length (A : Type) (a b : A) (l : list A) :
  In a l -> In b l -> a <> b -> (1 < List.length l)%nat.
Proof.
  intros Ha Hb N. destruct l as [ | x [ | y l]]; cbn [List.length].
  - destruct Ha.
  - destruct Ha as [<- | []], Hb as [<- | []]. congruence.
  - lia.
Qed.

(** The sample of [x] holds an array and an object: two kinds are found. *)
Lemma to_unpack_sampled_both df x :
  (exists r l, In r (rows (limit detect_dtype_from_first
                             (distinct (select [x] df))))
               /\ row_get r x = VArr l) ->
  (exists r kvs, In r (rows (limit detect_dtype_from_first
                               (distinct (select [x] df))))
                 /\ row_get r x = VObj kvs) ->
  (1 < List.length (to_unpack_dtypes df x))%nat.
Proof.
  intros [ra [l [Hra Ea]]] [ro [kvs [Hro Eo]]].
  apply (@two_in_length _ [("TYPEOF", VStr "ARRAY")] [("TYPEOF", VStr "OBJECT")]);
    [ | | discriminate];
    unfold to_unpack_dtypes; cbn [rows filter_isin distinct select_exprs];
    apply filter_In; (split; [ | reflexivity]); apply nodup_In, in_map_iff.
  - exists ra. split; [ | exact Hra]. cbn [map fst snd]. now rewrite Ea.
  - exists ro. split; [ | exact Hro]. cbn [map fst snd]. now rewrite Eo.
Qed.

(** X14. A field of the input table whose sample holds both an array and an
    object aborts the run, whatever the order in which the fields are
    visited, when the other columns are scalar: the handler raises the
    [TypeError], returns no mapping and writes nothing; the field is not
    marked processed, and no table is recorded, so that the namespace is as
    it was when the handler was entered. *)
Theorem field_with_arrays_and_objects_aborts_the_run :
  forall (set_iter : list string -> list string)
         (content_hash : Value -> Value) (prefix suffix : string)
         (fuel : nat) (session : Session) (input output : string) (max : Z)
         (df : DataFrame) (g0 : dict DataFrame) (f : string),
    set_iteration set_iter ->
    table session input = Some df ->
    In f (unprocessed_columns df []) ->
    (exists r l, In r (rows (limit detect_dtype_from_first
                               (distinct (select [f] df))))
                 /\ row_get r f = VArr l) ->
    (exists r kvs, In r (rows (limit detect_dtype_from_first
                                 (distinct (select [f] df))))
                   /\ row_get r f = VObj kvs) ->
    (forall c, In c (columns df) -> c <> f -> scalar_column df c) ->
    max <> 1 ->
    exists st,
      snowpark_main_handler set_iter content_hash prefix suffix (S fuel)
        session input output max g0
      = (Raise (TypeError ambiguous_message), st, session)
      /\ globals st = g0
      /\ set_in f (processed_fields st) = false.
Proof.
  intros set_iter content_hash prefix suffix fuel session input output max df
    g0 f Hset Ht Hfield Harr Hobj Hscal Hmax.
  pose proof (proj1 (Hset (unprocessed_columns df []))) as Hnd.
  pose proof (set_iter_complete Hset _ _ Hfield) as Hin.
  destruct (in_split _ _ Hin) as [pre [post Hcur]].
  rewrite Hcur in Hnd. apply NoDup_remove_2 in Hnd.
  assert (Hpre : forall x, In x pre -> In x (columns df) /\ x <> f).
  { intros x Hx. split.
    - assert (Hu : In x (unprocessed_columns df [])).
      { apply (set_iter_sound Hset). rewrite Hcur. apply in_or_app. now left. }
      apply unprocessed_columns_In in Hu. tauto.
    - intros ->. apply Hnd. apply in_or_app. now left. }
  assert (Hrun : model_nested_JSON_objects set_iter content_hash prefix suffix
                   (S fuel) df "ENTRY" 0 max (init_state g0)
                 = (Raise (TypeError ambiguous_message),
                    logged (after_scalars pre
                              (logged (init_state g0) [start_record 1 df []]))
                      [current_field_record f])).
  { rewrite model_step.
    - change (processed_fields (init_state g0)) with (@nil string).
      change (0 + 1) with 1. unfold cur_unprocessed_fields.
      unfold bind at 1. rewrite Hcur, for_each_app. unfold bind at 1.
      rewrite for_each_scalars.
      2:{ intros x Hx. apply to_unpack_scalar.
          destruct (Hpre x Hx) as [Hc Hn]. now apply Hscal. }
      cbn [for_each]. unfold bind at 1.
      rewrite loop_body_ambiguous by (now apply to_unpack_sampled_both).
      reflexivity.
    - change (processed_fields (init_state g0)) with (@nil string).
      apply (set_iter_not_nil Hset). intros E. rewrite E in Hfield.
      exact Hfield.
    - lia. }
  eexists. split; [ | split].
  - eapply handler_Raise; [exact Ht | exact Hrun].
  - reflexivity.
  - cbn [logged processed_fields].
    destruct (set_in f (processed_fields
                          (after_scalars pre
                             (logged (init_state g0) [start_record 1 df []]))))
      eqn:E; [ | reflexivity].
    apply after_scalars_processed in E. destruct E as [E | E].
    + destruct (Hpre f E) as [_ N]. congruence.
    + discriminate E.
Qed.

Lemma field_with_arrays_and_objects_aborts_the_run_witness :
  exists st,
    snowpark_main_handler sample_set_iter sample_hash "" "" 1
      [("DB.RAW", c2_ambiguous_table)] "DB.RAW" "OUT" 100 []
    = (Raise (TypeError ambiguous_message), st,
       [("DB.RAW", c2_ambiguous_table)])
    /\ globals st = []
    /\ set_in "DATA" (processed_fields st) = false.
Proof.
  apply (@field_with_arrays_and_objects_aborts_the_run sample_set_iter
           sample_hash "" "" 0 [("DB.RAW", c2_ambiguous_table)] "DB.RAW" "OUT"
           100 c2_ambiguous_table [] "DATA").
  - exact sample_set_iter_ok.
  - reflexivity.
  - vm_compute. right. now left.
  - exists [("DATA", VArr [VNum 1])], [VNum 1].
    split; [vm_compute; now left | reflexivity].
  - exists [("DATA", VObj [("k", VNum 2)])], [("k", VNum 2)].
    split; [vm_compute; right; now left | reflexivity].
  - intros c [<- | [<- | []]] Hc; [ | congruence].
    intros r [<- | [<- | []]]; reflexivity.
  - discriminate.
Defined.
